(** * Fyne text drawer and text grid: a shallow embedding and its properties

    The development embeds two source files of the repository:
    - the tab-aware text drawer of package [painter]
      ([tabStop], [DrawString], [MeasureString]);
    - the text grid widget of package [widget] ([TextGrid] and its renderer
      [textGridRender]).

    Go values are modelled as follows.  A [string] is a sequence of bytes
    (Rocq's [string]); ranging over it decodes UTF-8 the way the Go runtime
    does.  A [rune] is an integer in [Z]; [fixed.Int26_6] is a 32-bit
    integer whose wrap-around is written out.  An [int] is 64 bits wide and
    holds lengths, indices and pixel sizes that stay far below its range, so
    it is an integer in [Z] without wrap-around.  A slice of cells is a
    header (backing array, offset, length, capacity) over a heap of backing
    arrays.  A call returns a [result]: a value, a run-time panic, or the
    exhaustion of the fuel of a loop.  In the drawer, whose only panic is a
    division by zero, the result is an [option]. *)

From Stdlib Require Import ZArith List Lia Bool String Ascii.
From Stdlib Require Import DecimalString.
From Stdlib Require DecimalFacts DecimalPos.
From stdpp Require Import base option list.
Import ListNotations.
Local Open Scope Z_scope.

(** ** Go language level *)

(** A [rune] is an [int32]; the runes met here are code points. *)
Abbreviation rune := Z.

(** Signed 32-bit wrap-around ([int32], [fixed.Int26_6]). *)
Definition wrap32 (z : Z) : Z := (z + 2 ^ 31) mod 2 ^ 32 - 2 ^ 31.

Definition add32 (a b : Z) : Z := wrap32 (a + b).
Definition sub32 (a b : Z) : Z := wrap32 (a - b).
Definition mul32 (a b : Z) : Z := wrap32 (a * b).

(** Integer division truncates toward zero and panics on a zero divisor. *)
Definition div32 (a b : Z) : option Z :=
  if b =? 0 then None else Some (wrap32 (Z.quot a b)).

Module utf8.

Definition RuneError : rune := 0xFFFD.
Definition MaxRune : rune := 0x10FFFF.
Definition RuneSelf : Z := 0x80.
Definition surrogateMin : rune := 0xD800.
Definition surrogateMax : rune := 0xDFFF.
Definition rune1Max : rune := 0x7F.
Definition rune2Max : rune := 0x7FF.
Definition rune3Max : rune := 0xFFFF.

Definition byte_of_ascii (c : ascii) : Z := Z.of_N (N_of_ascii c).
Definition ascii_of_byte (b : Z) : ascii := ascii_of_N (Z.to_N b).

Fixpoint bytes (s : string) : list Z :=
  match s with
  | EmptyString => []
  | String c s' => byte_of_ascii c :: bytes s'
  end.

Fixpoint of_bytes (l : list Z) : string :=
  match l with
  | [] => EmptyString
  | b :: l' => String (ascii_of_byte b) (of_bytes l')
  end.

(** A continuation byte: [locb <= b <= hicb]. *)
Definition cont (b : Z) : bool := (0x80 <=? b) && (b <=? 0xBF).

(** [decoderune] of the Go runtime, on the bytes from the current position:
    the rune and the number of bytes consumed.  Every malformed sequence
    yields [RuneError] and consumes one byte. *)
Definition decoderune (s : list Z) : rune * nat :=
  match s with
  | [] => (RuneError, 1%nat)
  | b0 :: t =>
    if (0xC0 <=? b0) && (b0 <? 0xE0) then
      match t with
      | b1 :: _ =>
        if cont b1 then
          let r := Z.lor (Z.shiftl (Z.land b0 0x1F) 6) (Z.land b1 0x3F) in
          if rune1Max <? r then (r, 2%nat) else (RuneError, 1%nat)
        else (RuneError, 1%nat)
      | _ => (RuneError, 1%nat)
      end
    else if (0xE0 <=? b0) && (b0 <? 0xF0) then
      match t with
      | b1 :: b2 :: _ =>
        if cont b1 && cont b2 then
          let r := Z.lor (Z.lor (Z.shiftl (Z.land b0 0x0F) 12)
                                (Z.shiftl (Z.land b1 0x3F) 6))
                         (Z.land b2 0x3F) in
          if (rune2Max <? r) && negb ((surrogateMin <=? r) && (r <=? surrogateMax))
          then (r, 3%nat) else (RuneError, 1%nat)
        else (RuneError, 1%nat)
      | _ => (RuneError, 1%nat)
      end
    else if (0xF0 <=? b0) && (b0 <? 0xF8) then
      match t with
      | b1 :: b2 :: b3 :: _ =>
        if cont b1 && cont b2 && cont b3 then
          let r := Z.lor (Z.lor (Z.lor (Z.shiftl (Z.land b0 0x07) 18)
                                       (Z.shiftl (Z.land b1 0x3F) 12))
                                (Z.shiftl (Z.land b2 0x3F) 6))
                         (Z.land b3 0x3F) in
          if (rune3Max <? r) && (r <=? MaxRune)
          then (r, 4%nat) else (RuneError, 1%nat)
        else (RuneError, 1%nat)
      | _ => (RuneError, 1%nat)
      end
    else (RuneError, 1%nat)
  end.

(** One step of [for _, r := range s]: bytes below [RuneSelf] are runes of
    their own, the others go through [decoderune]. *)
Definition step (s : list Z) : rune * nat :=
  match s with
  | b0 :: _ => if b0 <? RuneSelf then (b0, 1%nat) else decoderune s
  | [] => (RuneError, 1%nat)
  end.

Fixpoint range_bytes (fuel : nat) (s : list Z) : list rune :=
  match fuel, s with
  | O, _ => []
  | _, [] => []
  | S fuel', _ => let '(r, w) := step s in r :: range_bytes fuel' (skipn w s)
  end.

(** The runes of [for _, r := range s], in order. *)
Definition range (s : string) : list rune :=
  range_bytes (String.length s) (bytes s).

(** [encoderune] of the Go runtime: the bytes of [string(r)]. *)
Definition encoderune (r : rune) : list Z :=
  if (0 <=? r) && (r <=? rune1Max) then [r]
  else if (0 <=? r) && (r <=? rune2Max) then
    [Z.lor 0xC0 (Z.shiftr r 6); Z.lor 0x80 (Z.land r 0x3F)]
  else
    let three r :=
      [Z.lor 0xE0 (Z.shiftr r 12);
       Z.lor 0x80 (Z.land (Z.shiftr r 6) 0x3F);
       Z.lor 0x80 (Z.land r 0x3F)] in
    if (r <? 0) || (MaxRune <? r) || ((surrogateMin <=? r) && (r <=? surrogateMax))
    then three RuneError
    else if r <=? rune3Max then three r
    else
      [Z.lor 0xF0 (Z.shiftr r 18);
       Z.lor 0x80 (Z.land (Z.shiftr r 12) 0x3F);
       Z.lor 0x80 (Z.land (Z.shiftr r 6) 0x3F);
       Z.lor 0x80 (Z.land r 0x3F)].

(** [string(r)] for a rune [r]. *)
Definition string_of_rune (r : rune) : string := of_bytes (encoderune r).

(** [utf8.ValidString]: no step of the decoding meets a malformed
    sequence (a [RuneError] of width one). *)
Fixpoint valid_bytes (fuel : nat) (s : list Z) : bool :=
  match fuel, s with
  | O, _ => true
  | _, [] => true
  | S fuel', b0 :: _ =>
    let '(r, w) := step s in
    negb ((RuneSelf <=? b0) && (r =? RuneError) && (w =? 1)%nat)
    && valid_bytes fuel' (skipn w s)
  end.

Definition ValidString (s : string) : bool :=
  valid_bytes (String.length s) (bytes s).


(** The rune [string(r)] holds: [r] when it is a Unicode scalar value,
    U+FFFD otherwise. *)
Definition encoded (r : rune) : rune :=
  if (r <? 0) || (MaxRune <? r) || ((surrogateMin <=? r) && (r <=? surrogateMax))
  then RuneError else r.

End utf8.

Module strings.

Definition newline : ascii := ascii_of_nat 10.

(** [strings.Split(s, "\n")]: the pieces between the separators, one more
    than there are separators. *)
Fixpoint Split (s : string) : list string :=
  match s with
  | EmptyString => [EmptyString]
  | String c s' =>
    if Ascii.eqb c newline then EmptyString :: Split s'
    else match Split s' with
         | r :: rs => String c r :: rs
         | [] => [String c EmptyString]
         end
  end.

(** [strings.Join(rows, "\n")]. *)
Fixpoint Join (rows : list string) : string :=
  match rows with
  | [] => EmptyString
  | [r] => r
  | r :: rows' => (r ++ String newline (Join rows'))%string
  end.

End strings.

(** [fmt.Sprintf("%d", n)]. *)
Definition Sprintf_d (n : Z) : string := NilZero.string_of_int (Z.to_int n).

(* ================================================================== *)
(** ** Package painter: the tab-aware text drawer *)

Module painter.

(** [fixed.Int26_6] and [fixed.Point26_6]. *)
Abbreviation Int26_6 := Z.
Record Point26_6 := { X : Int26_6; Y : Int26_6 }.

(** What [Face.Glyph] returns when the glyph is found.  The mask image is
    kept as a handle: no property below looks inside it. *)
Record GlyphResult := {
  dr : Z * Z * Z * Z;
  mask : nat;
  maskp : Z * Z;
  advance : Int26_6
}.

(** The part of [font.Face] the drawer calls.  [None] is [ok == false]. *)
Record Face := {
  Glyph : Point26_6 -> rune -> option GlyphResult;
  GlyphAdvance : rune -> option Int26_6;
  Kern : rune -> rune -> Int26_6
}.

(** The current theme's tab width as the drawer uses it, that is after the
    conversion [fixed.Int26_6(tabWidth)]. *)
Record Settings := { SizeNameTabWidth : Z }.

(** A [Drawer]: the pen, the face and the destination, the latter as the
    list of [draw.DrawMask] calls made on it (latest first). *)
Record Drawer := {
  Dot : Point26_6;
  face : Face;
  Dst : list (Z * Z * Z * Z * nat * (Z * Z))
}.

Definition space : rune := 32.
Definition tab : rune := 9.

(** [tabStop]; the diagnostic it logs when the space glyph is missing is
    left out.  The quotient goes through [float64] and [math.Modf] and comes
    back unchanged: it is a 32-bit integer. *)
Definition tabStop (th : Settings) (f : Face) (x : Int26_6) : option Int26_6 :=
  match GlyphAdvance f space with
  | None => Some x
  | Some spacew =>
    let tabw := mul32 spacew (SizeNameTabWidth th) in
    match div32 (add32 x tabw) tabw with
    | None => None
    | Some tabs => Some (mul32 tabw tabs)
    end
  end.

Definition DrawMask (d : Drawer) (g : GlyphResult) : Drawer :=
  {| Dot := Dot d; face := face d;
     Dst := (dr g, mask g, maskp g) :: Dst d |}.

Definition setX (d : Drawer) (x : Int26_6) : Drawer :=
  {| Dot := {| X := x; Y := Y (Dot d) |}; face := face d; Dst := Dst d |}.

Fixpoint DrawString_loop (th : Settings) (cs : list rune) (prevC : rune)
         (d : Drawer) : option Drawer :=
  match cs with
  | [] => Some d
  | c :: cs' =>
    let d := if 0 <=? prevC
             then setX d (add32 (X (Dot d)) (Kern (face d) prevC c))
             else d in
    if c =? tab then
      match tabStop th (face d) (X (Dot d)) with
      | None => None
      | Some x => DrawString_loop th cs' c (setX d x)
      end
    else
      match Glyph (face d) (Dot d) c with
      | None => DrawString_loop th cs' prevC d
      | Some g =>
        let d := DrawMask d g in
        DrawString_loop th cs' c (setX d (add32 (X (Dot d)) (advance g)))
      end
  end.

Definition DrawString (th : Settings) (d : Drawer) (s : string) : option Drawer :=
  DrawString_loop th (utf8.range s) (-1) d.

Fixpoint MeasureString_loop (th : Settings) (f : Face) (cs : list rune)
         (prevC : rune) (adv : Int26_6) : option Int26_6 :=
  match cs with
  | [] => Some adv
  | c :: cs' =>
    let adv := if 0 <=? prevC then add32 adv (Kern f prevC c) else adv in
    if c =? tab then
      match tabStop th f adv with
      | None => None
      | Some x => MeasureString_loop th f cs' c x
      end
    else
      match GlyphAdvance f c with
      | None => MeasureString_loop th f cs' prevC adv
      | Some a => MeasureString_loop th f cs' c (add32 adv a)
      end
  end.

Definition MeasureString (th : Settings) (f : Face) (s : string) : option Int26_6 :=
  MeasureString_loop th f (utf8.range s) (-1) 0.

End painter.

(* ================================================================== *)
(** ** Reference definitions for the text drawer *)

Module advance_spec.
Import painter.

Definition Zsum (l : list Z) : Z := fold_right Z.add 0 l.

Definition has_glyph (f : Face) (c : rune) : bool :=
  match GlyphAdvance f c with Some _ => true | None => false end.

(** The advance of a character, nothing when it has no glyph. *)
Definition glyph_advance (f : Face) (c : rune) : Z :=
  match GlyphAdvance f c with Some a => a | None => 0 end.

(** The characters that are rendered: those with a glyph. *)
Definition rendered (f : Face) (cs : list rune) : list rune :=
  List.filter (has_glyph f) cs.

(** Kerning between the consecutive pairs of a sequence. *)
Fixpoint pair_kerns (f : Face) (cs : list rune) : Z :=
  match cs with
  | a :: (b :: _) as t => Kern f a b + pair_kerns f t
  | _ => 0
  end.

(** The width as the specification words it: characters without a glyph
    are left out before advances and kerning pairs are summed. *)
Definition spec_width (f : Face) (cs : list rune) : Z :=
  Zsum (map (glyph_advance f) (rendered f cs)) + pair_kerns f (rendered f cs).

(** The kerning looked up for [c] after the characters [pre]: against the
    last character of [pre] that has a glyph, if there is one. *)
Definition kern_before (f : Face) (pre : list rune) (c : rune) : Z :=
  match last (rendered f pre) with
  | Some p => Kern f p c
  | None => 0
  end.

(** The width the drawer computes: every character, with a glyph or not,
    is kerned against the last rendered character before it. *)
Definition drawn_width (f : Face) (cs : list rune) : Z :=
  Zsum (map (glyph_advance f) cs)
  + Zsum (imap (fun i c => kern_before f (take i cs) c) cs).

(** The kerning the drawer adds for the characters without a glyph: each
    is still kerned against the last rendered character before it. *)
Definition stray_kerns (f : Face) (cs : list rune) : Z :=
  Zsum (imap (fun i c => if has_glyph f c then 0
                         else kern_before f (take i cs) c) cs).

(** The loop variable [prevC] after the characters [pre]. *)
Definition prev_after (f : Face) (pre : list rune) : rune :=
  match last (rendered f pre) with Some p => p | None => -1 end.

(** [Glyph] and [GlyphAdvance] of a face agree on availability and on the
    advance, wherever the pen is. *)
Definition coherent (f : Face) : Prop :=
  forall dot c, option_map advance (Glyph f dot c) = GlyphAdvance f c.

(** A face with the glyphs 'a' (advance 64) and ' ' (advance 16) only,
    which kerns 'a' against '?' by 5. *)
Definition face_a : Face :=
  {| Glyph := fun dot c =>
       if c =? 97 then Some {| dr := (0, 0, 0, 0); mask := 0%nat; maskp := (0, 0); advance := 64 |}
       else if c =? 32 then Some {| dr := (0, 0, 0, 0); mask := 1%nat; maskp := (0, 0); advance := 16 |}
       else None;
     GlyphAdvance := fun c =>
       if c =? 97 then Some 64 else if c =? 32 then Some 16 else None;
     Kern := fun p c => if (p =? 97) && (c =? 63) then 5 else 0 |}.

(** A face whose [Glyph] reports another advance than [GlyphAdvance]. *)
Definition face_skew : Face :=
  {| Glyph := fun dot c =>
       Some {| dr := (0, 0, 0, 0); mask := 0%nat; maskp := (0, 0); advance := 128 |};
     GlyphAdvance := fun c => Some 64;
     Kern := fun p c => 0 |}.

(** A face whose space glyph has a negative advance. *)
Definition face_neg : Face :=
  {| Glyph := fun dot c => None;
     GlyphAdvance := fun c => if c =? 32 then Some (-16) else None;
     Kern := fun p c => 0 |}.

(** A face without a space glyph. *)
Definition face_nospace : Face :=
  {| Glyph := fun dot c => None;
     GlyphAdvance := fun c => None;
     Kern := fun p c => 0 |}.

Definition tabs4 : Settings := {| SizeNameTabWidth := 4 |}.
Definition tabs0 : Settings := {| SizeNameTabWidth := 0 |}.

Definition drawer_at (f : Face) (x : Z) : Drawer :=
  {| Dot := {| X := x; Y := 0 |}; face := f; Dst := [] |}.


(** The string "a", tab, "?", "a", and the drawer after it was drawn from
    the origin with [face_a] and tab stops every four spaces. *)
Definition a_tab_a : string :=
  String "a" (String (ascii_of_nat 9) (String "?" (String "a" EmptyString))).
Definition drawn_a_tab_a : Drawer :=
  {| Dot := {| X := 192; Y := 0 |}; face := face_a;
     Dst := [(0, 0, 0, 0, 0%nat, (0, 0)); (0, 0, 0, 0, 0%nat, (0, 0))] |}.

End advance_spec.

(* ================================================================== *)
(** ** Results of running Go code *)

(** A call returns a value, panics (index out of range, failed type
    assertion), or exhausts the fuel the model gives to a loop. *)
Inductive result (A : Type) : Type :=
| Ok (a : A)
| Panic
| OutOfFuel.
Arguments Ok {A} a.
Arguments Panic {A}.
Arguments OutOfFuel {A}.

Definition bind {A B : Type} (r : result A) (k : A -> result B) : result B :=
  match r with
  | Ok a => k a
  | Panic => Panic
  | OutOfFuel => OutOfFuel
  end.

Notation "x <- e ;; k" := (bind e (fun x => k))
  (at level 100, e at next level, right associativity).

(** The index expression [l[i]]. *)
Definition index {A : Type} (l : list A) (i : Z) : result A :=
  if i <? 0 then Panic
  else match l !! Z.to_nat i with
       | Some x => Ok x
       | None => Panic
       end.

(** [for cond { body }] over the variables [St] of the loop (a counter and
    its post statement are part of [St] and [body]).  The condition is
    evaluated again before every iteration. *)
Fixpoint while {St : Type} (fuel : nat) (cond : St -> result bool)
         (body : St -> result St) (s : St) : result St :=
  b <- cond s ;;
  if b : bool then
    match fuel with
    | O => OutOfFuel
    | S fuel' => s' <- body s ;; while fuel' cond body s'
    end
  else Ok s.

(* ================================================================== *)
(** ** Package widget: the text grid *)

Module theme.
(** [color.Color], as red, green, blue and alpha. *)
Inductive Color := RGBA (r g b a : Z).

(** The colours the current theme answers with. *)
Record Theme := { TextColor : Color; ButtonColor : Color }.
End theme.

Module fyne.
Record Size := { Width : Z; Height : Z }.
Record Position := { PX : Z; PY : Z }.
End fyne.

Module canvas.
Import theme fyne.

(** [canvas.Rectangle] and [canvas.Text], as far as the grid uses them. *)
Inductive CanvasObject :=
| Rectangle (FillColor : Color) (pos : Position) (size : Size)
| Text (Text : string) (Color : Color) (pos : Position) (size : Size).

Definition Move (o : CanvasObject) (p : Position) : CanvasObject :=
  match o with
  | Rectangle c _ s => Rectangle c p s
  | Text t c _ s => Text t c p s
  end.

Definition Resize (o : CanvasObject) (s : Size) : CanvasObject :=
  match o with
  | Rectangle c p _ => Rectangle c p s
  | Text t c p _ => Text t c p s
  end.



End canvas.

Module widget.
Import theme fyne.

Definition Transparent : Color := RGBA 0 0 0 0.

Definition textAreaSpaceSymbol : rune := 0xB7.
Definition textAreaTabSymbol : rune := 0x2192.
Definition textAreaNewLineSymbol : rune := 0x21B5.

(** A [TextGridStyle] is known by what its two methods answer; [None] is
    a nil colour. *)
Record TextGridStyle := {
  TextColor : option Color;
  BackgroundColor : option Color
}.

Definition CustomTextGridStyle (FGColor BGColor : option Color) : TextGridStyle :=
  {| TextColor := FGColor; BackgroundColor := BGColor |}.

(** The [Style] of a cell is an interface value: [None] is nil. *)
Record TextGridCell := { Rune : rune; Style : option TextGridStyle }.

Definition TextGridStyleDefault : option TextGridStyle :=
  Some (CustomTextGridStyle None None).
Definition TextGridStyleWhitespace (th : Theme) : option TextGridStyle :=
  Some (CustomTextGridStyle (Some (ButtonColor th)) None).

(** *** Slices of cells

    A [[]TextGridCell] is a header over a backing array in the heap.  Two
    headers over the same array see each other's writes. *)
Record Slice := { arr : nat; off : nat; len : nat; cap : nat }.
Abbreviation Heap := (list (list TextGridCell)).

Definition nil_slice : Slice := {| arr := 0; off := 0; len := 0; cap := 0 |}.
Definition zero_cell : TextGridCell := {| Rune := 0; Style := None |}.

(** [s[i]] read. *)
Definition slice_get (h : Heap) (s : Slice) (i : Z) : result TextGridCell :=
  if (i <? 0) || (Z.of_nat (len s) <=? i) then Panic
  else match h !! arr s with
       | Some a => match a !! (off s + Z.to_nat i)%nat with
                   | Some c => Ok c
                   | None => Panic
                   end
       | None => Panic
       end.

(** [s[i] = c]. *)
Definition slice_set (h : Heap) (s : Slice) (i : Z) (c : TextGridCell) : result Heap :=
  if (i <? 0) || (Z.of_nat (len s) <=? i) then Panic
  else match h !! arr s with
       | Some a => Ok (<[arr s := <[(off s + Z.to_nat i)%nat := c]> a]> h)
       | None => Panic
       end.

(** The cells [for _, r := range s] meets. *)
Definition cells (h : Heap) (s : Slice) : list TextGridCell :=
  match h !! arr s with
  | Some a => take (len s) (drop (off s) a)
  | None => []
  end.

Section Append.
(** How much room beyond the needed length a grown slice gets is up to
    the Go runtime: [extra n] for a slice that held [n] cells. *)
Variable extra : nat -> nat.

(** [append(s, c)]: written in place when the backing array has room,
    otherwise into a new array that holds a copy. *)
Definition append (h : Heap) (s : Slice) (c : TextGridCell) : Heap * Slice :=
  if (len s <? cap s)%nat then
    (alter (fun a => <[(off s + len s)%nat := c]> a) (arr s) h,
     {| arr := arr s; off := off s; len := S (len s); cap := cap s |})
  else
    (h ++ [cells h s ++ c :: replicate (extra (len s)) zero_cell],
     {| arr := length h; off := 0; len := S (len s);
        cap := (S (len s) + extra (len s))%nat |}).
End Append.

(** *** The widget and its renderer *)

Record TextGrid := {
  Content : list Slice;
  LineNumbers : bool;
  Whitespace : bool
}.

Record textGridRender := {
  cols : Z;
  rows : Z;
  cellSize : Size;
  objects : list canvas.CanvasObject
}.

(** The heap, the widget and the renderer attached to it. *)
Record World := {
  heap : Heap;
  text : TextGrid;
  render : textGridRender
}.

Definition set_heap (w : World) (h : Heap) : World :=
  {| heap := h; text := text w; render := render w |}.
Definition set_Content (w : World) (c : list Slice) : World :=
  {| heap := heap w;
     text := {| Content := c; LineNumbers := LineNumbers (text w);
                Whitespace := Whitespace (text w) |};
     render := render w |}.
(** [t.LineNumbers = b] and [t.Whitespace = b]: the two fields are public. *)
Definition set_LineNumbers (w : World) (b : bool) : World :=
  {| heap := heap w;
     text := {| Content := Content (text w); LineNumbers := b;
                Whitespace := Whitespace (text w) |};
     render := render w |}.
Definition set_render (w : World) (r : textGridRender) : World :=
  {| heap := heap w; text := text w; render := r |}.
Definition set_objects (r : textGridRender) (o : list canvas.CanvasObject) : textGridRender :=
  {| cols := cols r; rows := rows r; cellSize := cellSize r; objects := o |}.

(** *** The renderer *)

Definition origin : Position := {| PX := 0; PY := 0 |}.
Definition no_size : Size := {| Width := 0; Height := 0 |}.
Definition space : rune := 32.

Definition appendTextCell (th : Theme) (str : rune) (t : textGridRender)
  : textGridRender :=
  set_objects t
    (objects t ++ [canvas.Rectangle Transparent origin no_size;
                   canvas.Text (utf8.string_of_rune str) (theme.TextColor th) origin no_size]).

Definition setCellRune (th : Theme) (str : rune) (pos : Z)
           (style : option TextGridStyle) (t : textGridRender)
  : result textGridRender :=
  rect <- index (objects t) (pos * 2) ;;
  match rect with
  | canvas.Text _ _ _ _ => Panic
  | canvas.Rectangle _ rpos rsize =>
    txt <- index (objects t) (pos * 2 + 1) ;;
    match txt with
    | canvas.Rectangle _ _ _ => Panic
    | canvas.Text _ _ tpos tsize =>
      let s := if str =? 0 then " "%string else utf8.string_of_rune str in
      let fg := match style with
                | Some st => match TextColor st with
                             | Some c => c
                             | None => theme.TextColor th
                             end
                | None => theme.TextColor th
                end in
      let bg := match style with
                | Some st => match BackgroundColor st with
                             | Some c => c
                             | None => Transparent
                             end
                | None => Transparent
                end in
      Ok (set_objects t
            (<[Z.to_nat (pos * 2) := canvas.Rectangle bg rpos rsize]>
               (<[Z.to_nat (pos * 2 + 1) := canvas.Text s fg tpos tsize]> (objects t))))
    end
  end.

Definition ensureGrid (th : Theme) (t : textGridRender) : result textGridRender :=
  let cellCount := cols t * rows t in
  if Z.of_nat (length (objects t)) =? cellCount * 2 then Ok t
  else
    r <- while (Z.to_nat (cellCount * 2 - Z.of_nat (length (objects t))))
           (fun '(i, _) => Ok (i <? cellCount * 2))
           (fun '(i, t) => Ok (i + 2, appendTextCell th space t))
           (Z.of_nat (length (objects t)), t) ;;
    Ok (snd r).

Definition lineCountWidth (t : textGridRender) : Z :=
  Z.of_nat (String.length (Sprintf_d (rows t + 1))).

(** The variables [line], [x] and [i] of [refreshGrid], with the
    renderer. *)
Record painting := { line : Z; x : Z; i : Z; pr : textGridRender }.

(** [t.setCellRune(str, x, style); i++; x++] *)
Definition paint (th : Theme) (str : rune) (style : option TextGridStyle)
           (p : painting) : result painting :=
  t <- setCellRune th str (x p) style (pr p) ;;
  Ok {| line := line p; x := x p + 1; i := i p + 1; pr := t |}.

(** The line number, its padding and the separator. *)
Definition paintGutter (th : Theme) (p : painting) : result painting :=
  let lineStr := utf8.range (Sprintf_d (line p)) in
  r <- while (length lineStr)
         (fun '(c, _) => Ok (c <? Z.of_nat (length lineStr)))
         (fun '(c, p) =>
            r <- index lineStr c ;;
            p <- paint th r (TextGridStyleWhitespace th) p ;;
            Ok (c + 1, p))
         (0, p) ;;
  p <- while (Z.to_nat (lineCountWidth (pr (snd r)) - i (snd r)))
         (fun p => Ok (i p <? lineCountWidth (pr p)))
         (fun p => paint th space (TextGridStyleWhitespace th) p)
         (snd r) ;;
  paint th 124 (TextGridStyleWhitespace th) p.

(** The body of [for _, r := range row]. *)
Definition paintCell (th : Theme) (whitespace : bool) (r : TextGridCell)
           (p : painting) : result painting :=
  if cols (pr p) <=? i p then Ok p
  else if whitespace && (Rune r =? space) then
    match Style r with
    | Some st =>
      match BackgroundColor st with
      | Some bg =>
        let whitespaceBG :=
          CustomTextGridStyle
            (match TextGridStyleWhitespace th with
             | Some ws => TextColor ws
             | None => None
             end)
            (Some bg) in
        paint th textAreaSpaceSymbol (Some whitespaceBG) p
      | None => paint th textAreaSpaceSymbol (TextGridStyleWhitespace th) p
      end
    | None => paint th textAreaSpaceSymbol (TextGridStyleWhitespace th) p
    end
  else paint th (Rune r) (Style r) p.

Fixpoint paintCells (th : Theme) (whitespace : bool) (row : list TextGridCell)
         (p : painting) : result painting :=
  match row with
  | [] => Ok p
  | r :: row' => p <- paintCell th whitespace r p ;; paintCells th whitespace row' p
  end.

(** The body of [for rowIndex, row := range t.text.Content], after the
    test on [rowIndex]. *)
Definition paintRow (th : Theme) (w : World) (rowIndex : Z) (row : Slice)
           (p : painting) : result painting :=
  let p := {| line := line p; x := x p; i := 0; pr := pr p |} in
  p <- (if LineNumbers (text w) then paintGutter th p else Ok p) ;;
  p <- paintCells th (Whitespace (text w)) (cells (heap w) row) p ;;
  p <- (if Whitespace (text w) && (i p <? cols (pr p))
           && (rowIndex <? Z.of_nat (length (Content (text w))) - 1)
        then paint th textAreaNewLineSymbol (TextGridStyleWhitespace th) p
        else Ok p) ;;
  p <- while (Z.to_nat (cols (pr p) - i p))
         (fun p => Ok (i p <? cols (pr p)))
         (fun p => paint th space TextGridStyleDefault p)
         p ;;
  Ok {| line := line p + 1; x := x p; i := i p; pr := pr p |}.

Fixpoint paintRows (th : Theme) (w : World) (rowIndex : Z) (rest : list Slice)
         (p : painting) : result painting :=
  match rest with
  | [] => Ok p
  | row :: rest' =>
    if rows (pr p) <=? rowIndex then Ok p
    else p <- paintRow th w rowIndex row p ;;
         paintRows th w (rowIndex + 1) rest' p
  end.

Definition refreshGrid (th : Theme) (w : World) : result World :=
  p <- paintRows th w 0 (Content (text w))
         {| line := 1; x := 0; i := 0; pr := render w |} ;;
  p <- while (Z.to_nat (Z.of_nat (length (objects (pr p))) / 2 - x p))
         (fun p => Ok (x p <? Z.of_nat (length (objects (pr p))) / 2))
         (fun p => t <- setCellRune th space (x p) TextGridStyleDefault (pr p) ;;
                   Ok {| line := line p; x := x p + 1; i := i p; pr := t |})
         p ;;
  Ok (set_render w (pr p)).

(** The float computations of [updateGridSize] are exact on the integers
    met here: [math.Max] of two lengths is their maximum and the floor of
    a quotient of pixel sizes is the floor division (cell sizes are
    positive). *)
Definition updateGridSize (size : Size) (w : World) : World :=
  let t := render w in
  let bufRows := Z.of_nat (length (Content (text w))) in
  let bufCols :=
    fold_left (fun bufCols row => Z.max bufCols (Z.of_nat (len row)))
              (Content (text w)) 0 in
  let sizeCols := Width size / Width (cellSize t) in
  let sizeRows := Height size / Height (cellSize t) in
  let bufCols := if Whitespace (text w) then bufCols + 1 else bufCols in
  let bufCols := if LineNumbers (text w) then bufCols + lineCountWidth t
                 else bufCols in
  set_render w {| cols := Z.max sizeCols bufCols;
                  rows := Z.max sizeRows bufRows;
                  cellSize := cellSize t;
                  objects := objects t |}.

(** The variables [i], [cellPos], [y] and [x] of [Layout], with the
    objects. *)
Record placing := {
  li : Z; cellPos : Position; ly : Z; lx : Z; lo : list canvas.CanvasObject
}.

Definition placeCell (cell : Size) (p : placing) : result placing :=
  txt <- index (lo p) (li p * 2 + 1) ;;
  let o := <[Z.to_nat (li p * 2 + 1) := canvas.Move txt (cellPos p)]> (lo p) in
  rect <- index o (li p * 2) ;;
  let o := <[Z.to_nat (li p * 2) := canvas.Move (canvas.Resize rect cell) (cellPos p)]> o in
  Ok {| li := li p + 1;
        cellPos := {| PX := PX (cellPos p) + Width cell; PY := PY (cellPos p) |};
        ly := ly p; lx := lx p + 1; lo := o |}.

Definition Layout (th : Theme) (size : Size) (w : World) : result World :=
  let w := updateGridSize size w in
  t <- ensureGrid th (render w) ;;
  p <- while (Z.to_nat (rows t))
         (fun p => Ok (ly p <? rows t))
         (fun p =>
            p <- while (Z.to_nat (cols t))
                   (fun p => Ok (lx p <? cols t))
                   (placeCell (cellSize t))
                   {| li := li p; cellPos := cellPos p; ly := ly p; lx := 0; lo := lo p |} ;;
            Ok {| li := li p;
                  cellPos := {| PX := 0; PY := PY (cellPos p) + Height (cellSize t) |};
                  ly := ly p + 1; lx := lx p; lo := lo p |})
         {| li := 0; cellPos := origin; ly := 0; lx := 0; lo := objects t |} ;;
  Ok (set_render w (set_objects t (lo p))).


(** [textGridRender.Refresh]. *)
Definition Refresh (th : Theme) (w : World) : result World :=
  t <- ensureGrid th (render w) ;;
  refreshGrid th (set_render w t).

(** [CreateRenderer]; [cell] is the minimum size of a monospaced "M". *)
Definition CreateRenderer (cell : Size) : textGridRender :=
  {| cols := 0; rows := 0; cellSize := cell; objects := [] |}.

(** *** The widget *)

(** Modelled from the spec: [BaseWidget.Refresh], absent from the sources.
    A refresh of the widget is the renderer's [Refresh] (ensure the pool,
    then repaint), run inline; it does not touch the buffer. *)
Definition BaseWidget_Refresh := Refresh.

(** Modelled from the spec: [BaseWidget.Resize], absent from the sources.
    A resize of the widget is a layout pass of the renderer. *)
Definition BaseWidget_Resize := Layout.

Definition TextGrid_Resize (th : Theme) (size : Size) (w : World) : result World :=
  w <- BaseWidget_Resize th size w ;;
  BaseWidget_Refresh th w.

Section Buffer.
Variable extra : nat -> nat.
Variable th : Theme.

Fixpoint appendRunes (h : Heap) (row : Slice) (runes : list rune) : Heap * Slice :=
  match runes with
  | [] => (h, row)
  | r :: runes' =>
    let '(h, row) := append extra h row {| Rune := r; Style := None |} in
    appendRunes h row runes'
  end.

Fixpoint appendRows (h : Heap) (buffer : list Slice) (rows : list string)
  : Heap * list Slice :=
  match rows with
  | [] => (h, buffer)
  | runes :: rows' =>
    let '(h, row) := appendRunes h nil_slice (utf8.range runes) in
    appendRows h (buffer ++ [row]) rows'
  end.

Definition SetText (text : string) (w : World) : result World :=
  let rows := strings.Split text in
  let '(h, buffer) := appendRows (heap w) [] rows in
  BaseWidget_Refresh th (set_Content (set_heap w h) buffer).

Fixpoint Text_row (ret : string) (row : list TextGridCell) : string :=
  match row with
  | [] => ret
  | r :: row' => Text_row (ret ++ utf8.string_of_rune (Rune r)) row'
  end.

Fixpoint Text_rows (h : Heap) (n : Z) (ret : string) (i : Z) (rest : list Slice)
  : string :=
  match rest with
  | [] => ret
  | row :: rest' =>
    let ret := Text_row ret (cells h row) in
    let ret := if i <? n - 1 then (ret ++ String strings.newline EmptyString)%string
               else ret in
    Text_rows h n ret (i + 1) rest'
  end.

Definition Text (w : World) : string :=
  Text_rows (heap w) (Z.of_nat (length (Content (text w)))) EmptyString 0
            (Content (text w)).

Definition Row (row : Z) (w : World) : Slice :=
  if (row <? 0) || (Z.of_nat (length (Content (text w))) <=? row) then nil_slice
  else match Content (text w) !! Z.to_nat row with
       | Some s => s
       | None => nil_slice
       end.

(** [for len(t.Content) <= row { t.Content = append(t.Content, []TextGridCell{}) }] *)
Definition growRows (row : Z) (w : World) : result World :=
  while (Z.to_nat (row + 1 - Z.of_nat (length (Content (text w)))))
    (fun w => Ok (Z.of_nat (length (Content (text w))) <=? row))
    (fun w => Ok (set_Content w (Content (text w) ++ [nil_slice])))
    w.

Definition SetRow (row : Z) (content : Slice) (w : World) : result World :=
  if row <? 0 then Ok w
  else
    w <- growRows row w ;;
    _ <- index (Content (text w)) row ;;
    BaseWidget_Refresh th
      (set_Content w (<[Z.to_nat row := content]> (Content (text w)))).

Definition SetStyle (row col : Z) (style : option TextGridStyle) (w : World)
  : result World :=
  if (row <? 0) || (col <? 0) then Ok w
  else
    w <- growRows row w ;;
    content <- index (Content (text w)) row ;;
    r <- while (Z.to_nat (col + 1 - Z.of_nat (len content)))
           (fun '(_, content) => Ok (Z.of_nat (len content) <=? col))
           (fun '(h, content) => Ok (append extra h content zero_cell))
           (heap w, content) ;;
    let '(h, content) := r in
    c <- slice_get h content col ;;
    h <- slice_set h content col {| Rune := Rune c; Style := style |} ;;
    Ok (set_heap w h).

(** [for ; col < len(t.Content[row]); col++ { t.SetStyle(row, col, style) }] *)
Definition styleRowFrom (row col : Z) (style : option TextGridStyle) (w : World)
  : result World :=
  r <- while (Z.to_nat (Z.of_nat (len (Row row w)) - col))
         (fun '(col, w) =>
            content <- index (Content (text w)) row ;;
            Ok (col <? Z.of_nat (len content)))
         (fun '(col, w) => w <- SetStyle row col style w ;; Ok (col + 1, w))
         (col, w) ;;
  Ok (snd r).

(** [for ; col <= endCol; col++ { t.SetStyle(row, col, style) }] *)
Definition styleRowTo (row col endCol : Z) (style : option TextGridStyle)
           (w : World) : result World :=
  r <- while (Z.to_nat (endCol + 1 - col))
         (fun '(col, _) => Ok (col <=? endCol))
         (fun '(col, w) => w <- SetStyle row col style w ;; Ok (col + 1, w))
         (col, w) ;;
  Ok (snd r).

Definition SetStyleRange (startRow startCol endRow endCol : Z)
           (style : option TextGridStyle) (w : World) : result World :=
  if startRow =? endRow then styleRowTo startRow startCol endCol style w
  else
    w <- styleRowFrom startRow startCol style w ;;
    r <- while (Z.to_nat (endRow - 1 - (startRow + 1)))
           (fun '(rowNum, _) => Ok (rowNum <? endRow - 1))
           (fun '(rowNum, w) =>
              w <- styleRowFrom rowNum 0 style w ;; Ok (rowNum + 1, w))
           (startRow + 1, w) ;;
    styleRowTo endRow 0 endCol style (snd r).
End Buffer.

(** [NewTextGrid], with the renderer the toolkit creates for it. *)
Definition NewTextGrid (cell : Size) : World :=
  {| heap := [];
     text := {| Content := []; LineNumbers := false; Whitespace := false |};
     render := CreateRenderer cell |}.

(** *** Well-formed headers

    A header is well formed in a heap when its window of [cap] cells lies
    inside its backing array; a header without capacity needs no array. *)
Definition wf_slice (h : Heap) (s : Slice) : Prop :=
  (len s <= cap s)%nat
  /\ (cap s = 0%nat
      \/ exists a, h !! arr s = Some a /\ (off s + cap s <= length a)%nat).


(** *** What the renderer shows

    Reference definitions: the grid as a list of glyphs, one per
    primitive pair, against which [refreshGrid] is checked. *)

(** A character to show and the style to show it with. *)
Definition glyph : Type := rune * option TextGridStyle.

(** Text, foreground and background of the primitive pair at [pos]. *)
Definition shown (o : list canvas.CanvasObject) (pos : nat)
  : option (string * Color * Color) :=
  match o !! (2 * pos)%nat, o !! (2 * pos + 1)%nat with
  | Some (canvas.Rectangle bg _ _), Some (canvas.Text s fg _ _) => Some (s, fg, bg)
  | _, _ => None
  end.

(** Text, foreground and background a glyph resolves to. *)
Definition look (th : Theme) (g : glyph) : string * Color * Color :=
  (if fst g =? 0 then " "%string else utf8.string_of_rune (fst g),
   match snd g with
   | Some st => match TextColor st with Some c => c | None => theme.TextColor th end
   | None => theme.TextColor th
   end,
   match snd g with
   | Some st => match BackgroundColor st with Some c => c | None => Transparent end
   | None => Transparent
   end).

(** The pool alternates rectangles and texts. *)
Definition is_rectangle (o : canvas.CanvasObject) : bool :=
  match o with canvas.Rectangle _ _ _ => true | canvas.Text _ _ _ _ => false end.

Definition pool_ok (o : list canvas.CanvasObject) : Prop :=
  Nat.even (length o) = true
  /\ forall i x, o !! i = Some x -> is_rectangle x = Nat.even i.

(** The renderer between two passes: its cell size is positive, its
    pool alternates and holds a pair for every cell. *)
Definition render_ok (t : textGridRender) : Prop :=
  0 <= cols t /\ 0 <= rows t /\ pool_ok (objects t)
  /\ 2 * (cols t * rows t) <= Z.of_nat (length (objects t))
  /\ 0 < Width (cellSize t) /\ 0 < Height (cellSize t).

(** Painting a list of glyphs from the current position on. *)
Fixpoint paintAll (th : Theme) (l : list glyph) (p : painting) : result painting :=
  match l with
  | [] => Ok p
  | g :: l' => p <- paint th (fst g) (snd g) p ;; paintAll th l' p
  end.

(** The glyph of a buffer cell. *)
Definition cell_glyph (th : Theme) (whitespace : bool) (r : TextGridCell) : glyph :=
  if whitespace && (Rune r =? space) then
    match Style r with
    | Some st =>
      match BackgroundColor st with
      | Some bg => (textAreaSpaceSymbol,
                    Some (CustomTextGridStyle (Some (ButtonColor th)) (Some bg)))
      | None => (textAreaSpaceSymbol, TextGridStyleWhitespace th)
      end
    | None => (textAreaSpaceSymbol, TextGridStyleWhitespace th)
    end
  else (Rune r, Style r).

(** The gutter of line [line]: its digits, padding up to the gutter
    width, and the separator. *)
Definition gutter_glyphs (th : Theme) (t : textGridRender) (line : Z) : list glyph :=
  let digits := utf8.range (Sprintf_d line) in
  map (fun d => (d, TextGridStyleWhitespace th)) digits
  ++ replicate (Z.to_nat (lineCountWidth t - Z.of_nat (length digits)))
               (space, TextGridStyleWhitespace th)
  ++ [(124, TextGridStyleWhitespace th)].

(** The glyphs of buffer row [rowIndex]. *)
Definition row_glyphs (th : Theme) (w : World) (t : textGridRender)
           (rowIndex : Z) (row : Slice) : list glyph :=
  let g := if LineNumbers (text w) then gutter_glyphs th t (rowIndex + 1) else [] in
  let cs := take (Z.to_nat (cols t - Z.of_nat (length g)))
                 (map (cell_glyph th (Whitespace (text w))) (cells (heap w) row)) in
  let nl := if Whitespace (text w)
               && (Z.of_nat (length g + length cs) <? cols t)
               && (rowIndex <? Z.of_nat (length (Content (text w))) - 1)
            then [(textAreaNewLineSymbol, TextGridStyleWhitespace th)] else [] in
  g ++ cs ++ nl
  ++ replicate (Z.to_nat (cols t - Z.of_nat (length g + length cs + length nl)))
               (space, TextGridStyleDefault).

(** The glyphs of the buffer rows from [rowIndex] on. *)
Fixpoint rows_glyphs (th : Theme) (w : World) (t : textGridRender)
         (rowIndex : Z) (rest : list Slice) : list glyph :=
  match rest with
  | [] => []
  | row :: rest' =>
    if rows t <=? rowIndex then []
    else row_glyphs th w t rowIndex row ++ rows_glyphs th w t (rowIndex + 1) rest'
  end.

(** All the glyphs of a pass: the rows, then blanks to the end of the pool. *)
Definition grid_glyphs (th : Theme) (w : World) : list glyph :=
  let rs := rows_glyphs th w (render w) 0 (Content (text w)) in
  rs ++ replicate (Z.to_nat (Z.of_nat (length (objects (render w))) / 2
                             - Z.of_nat (length rs)))
                  (space, TextGridStyleDefault).

(** Setting the primitive pairs from [x] on to a list of glyphs. *)
Fixpoint drawAll (th : Theme) (l : list glyph) (x : Z) (t : textGridRender)
  : result (Z * textGridRender) :=
  match l with
  | [] => Ok (x, t)
  | g :: l' => t <- setCellRune th (fst g) x (snd g) t ;; drawAll th l' (x + 1) t
  end.

(** What a painting leaves behind: the position reached and the renderer. *)
Definition view (r : result painting) : result (Z * textGridRender) :=
  p <- r ;; Ok (x p, pr p).

(** *** Sequences of passes

    What happens to a grid over time: layout passes, refresh passes, and
    between them any change of the buffer and of the two flags. *)
Inductive event :=
| DoLayout (size : Size)
| DoRefresh
| DoChange (h : Heap) (t : TextGrid).

Definition step (th : Theme) (e : event) (w : World) : result World :=
  match e with
  | DoLayout size => Layout th size w
  | DoRefresh => Refresh th w
  | DoChange h t => Ok {| heap := h; text := t; render := render w |}
  end.

Fixpoint run (th : Theme) (es : list event) (w : World) : result World :=
  match es with
  | [] => Ok w
  | e :: es' => w <- step th e w ;; run th es' w
  end.

(** The gutter of every row the renderer paints fits in the columns. *)
Definition gutter_fits (th : Theme) (w : World) (t : textGridRender) : Prop :=
  forall r, 0 <= r < rows t ->
    Z.of_nat (length (if LineNumbers (text w) then gutter_glyphs th t (r + 1) else []))
    <= cols t.

(** The glyph at row [r], column [c] of a grid without gutter: the cell of
    the buffer there, else the end-of-line marker right after the last cell
    of a row that is not the last (when whitespace is shown), else a
    blank. *)
Definition plain_glyph (th : Theme) (w : World) (r c : nat) : glyph :=
  match Content (text w) !! r with
  | Some row =>
    match cells (heap w) row !! c with
    | Some cell => cell_glyph th (Whitespace (text w)) cell
    | None =>
      if Whitespace (text w) && (c =? length (cells (heap w) row))%nat
         && (Z.of_nat r <? Z.of_nat (length (Content (text w))) - 1)
      then (textAreaNewLineSymbol, TextGridStyleWhitespace th)
      else (space, TextGridStyleDefault)
    end
  | None => (space, TextGridStyleDefault)
  end.


(** A cell after the columns [from .. to] of its row were restyled. *)
Definition restyled (style : option TextGridStyle) (from to : Z) (k : nat)
           (c : TextGridCell) : TextGridCell :=
  if (from <=? Z.of_nat k) && (Z.of_nat k <=? to)
  then {| Rune := Rune c; Style := style |} else c.




(** The rows of a buffer are well formed and no two of them that hold
    cells share a backing array, as after [SetText]. *)
Definition rows_ok (h : Heap) (content : list Slice) : Prop :=
  Forall (wf_slice h) content
  /\ forall (i j : nat) s s', i <> j ->
       content !! i = Some s -> content !! j = Some s' ->
       cap s = 0%nat \/ cap s' = 0%nat \/ arr s <> arr s'.

(** From [w] to [w'] nothing changed but the style of the cells [f]
    selects by row and column, which is now [style]. *)
Definition styled_only (style : option TextGridStyle) (f : nat -> nat -> bool)
           (w w' : World) : Prop :=
  text w' = text w /\ render w' = render w
  /\ map (@length TextGridCell) (heap w') = map (@length TextGridCell) (heap w)
  /\ forall (r : nat) s, Content (text w) !! r = Some s ->
       forall k : nat,
         cells (heap w') s !! k
         = (fun c => if f r k then {| Rune := Rune c; Style := style |} else c)
             <$> cells (heap w) s !! k.




(** The runes of a buffer in reading order, a line feed between rows. *)
Fixpoint join_runes (rows : list (list rune)) : list rune :=
  match rows with
  | [] => []
  | [r] => r
  | r :: rows' => r ++ 10 :: join_runes rows'
  end.

Definition buffer_runes (w : World) : list rune :=
  join_runes (map (fun row => map Rune (cells (heap w) row)) (Content (text w))).

End widget.

(* ================================================================== *)
(** ** Sample values *)

Module example.
Import theme fyne widget.

Definition th0 : Theme :=
  {| theme.TextColor := RGBA 255 255 255 255; ButtonColor := RGBA 33 150 243 255 |}.

(** The size of a monospaced "M". *)
Definition cell : Size := {| Width := 8; Height := 16 |}.

(** A new grid, nothing shown yet. *)
Definition grid0 : World := NewTextGrid cell.

(** Room for four columns and two rows. *)
Definition size_4x2 : Size := {| Width := 32; Height := 32 |}.

Definition nl : string := String strings.newline EmptyString.

Definition red : option TextGridStyle :=
  Some (CustomTextGridStyle (Some (RGBA 255 0 0 255)) None).

(** The runtime gives a grown slice as much room again as it held. *)
Definition doubling : nat -> nat := fun n => n.

Definition or_else (r : result World) (w : World) : World :=
  match r with Ok w' => w' | _ => w end.

(** A grid with one empty row and line numbers switched on. *)
Definition grid_numbered : World :=
  set_LineNumbers (or_else (SetText doubling th0 EmptyString grid0) grid0) true.

(** A grid of ten rows with line numbers switched on. *)
Definition ten_rows : string :=
  "a" ++ nl ++ "b" ++ nl ++ "c" ++ nl ++ "d" ++ nl ++ "e" ++ nl
  ++ "f" ++ nl ++ "g" ++ nl ++ "h" ++ nl ++ "i" ++ nl ++ "j".
Definition grid_ten : World :=
  set_LineNumbers (or_else (SetText doubling th0 ten_rows grid0) grid0) true.

(** Room for four columns and ten rows, and for a hundred rows. *)
Definition size_4x10 : Size := {| Width := 32; Height := 160 |}.
Definition size_4x100 : Size := {| Width := 32; Height := 1600 |}.

(** The ten rows after a layout pass with room for four columns. *)
Definition grid_ten_laid_out : World :=
  or_else (Layout th0 size_4x10 grid_ten) grid_ten.

(** The grid after [SetText("AB\nC")]. *)
Definition grid_AB_C : World :=
  or_else (SetText doubling th0 ("AB" ++ nl ++ "C") grid0) grid0.

(** The grid after [SetText("AB\nC")] and a layout pass with room for
    four columns and two rows. *)
Definition grid_AB_C_laid_out : World :=
  or_else (Layout th0 size_4x2 grid_AB_C) grid_AB_C.



(** The grid after [SetText("AB\nC")], a layout pass and a refresh pass. *)
Definition grid_AB_C_shown : World :=
  or_else (Refresh th0 grid_AB_C_laid_out) grid_AB_C_laid_out.


(** The grid after [SetText("AB\nCD\nEF\nG")]: four rows. *)
Definition grid_four : World :=
  or_else (SetText doubling th0 ("AB" ++ nl ++ "CD" ++ nl ++ "EF" ++ nl ++ "G") grid0) grid0.

End example.

(* ================================================================== *)
(** * Properties *)

(** ** Arithmetic of 32-bit wrap-around *)

Lemma wrap32_range z : - 2 ^ 31 <= wrap32 z < 2 ^ 31.
Proof. unfold wrap32. pose proof (Z.mod_pos_bound (z + 2 ^ 31) (2 ^ 32)). lia. Qed.

Lemma wrap32_small z : - 2 ^ 31 <= z < 2 ^ 31 -> wrap32 z = z.
Proof. intros H. unfold wrap32. rewrite Z.mod_small; lia. Qed.

Lemma wrap32_add_l a b : wrap32 (wrap32 a + b) = wrap32 (a + b).
Proof.
  unfold wrap32.
  replace ((a + 2 ^ 31) mod 2 ^ 32 - 2 ^ 31 + b + 2 ^ 31)
    with ((a + 2 ^ 31) mod 2 ^ 32 + b) by lia.
  rewrite Zplus_mod_idemp_l. f_equal. f_equal. lia.
Qed.

Lemma wrap32_sub_l a b : wrap32 (wrap32 a - b) = wrap32 (a - b).
Proof. unfold Z.sub. apply wrap32_add_l. Qed.


(** ** The runes of a string are not negative *)

Lemma cont_range b : utf8.cont b = true -> 0x80 <= b <= 0xBF.
Proof. unfold utf8.cont. lia. Qed.

Lemma decoderune_nonneg s :
  Forall (fun b => 0 <= b) s -> 0 <= fst (utf8.decoderune s).
Proof.
  intros Hs. unfold utf8.decoderune.
  repeat match goal with
         | |- context [match ?l with [] => _ | _ :: _ => _ end] => destruct l
         | |- context [if ?c then _ else _] => destruct c eqn:?
         end; cbn [fst]; try (unfold utf8.RuneError; lia);
  repeat (apply Z.lor_nonneg; split); try apply Z.shiftl_nonneg;
  apply Z.land_nonneg; right; lia.
Qed.

Lemma step_nonneg s : Forall (fun b => 0 <= b) s -> 0 <= fst (utf8.step s).
Proof.
  intros Hs. unfold utf8.step. destruct s as [|b0 t]; [cbn; unfold utf8.RuneError; lia|].
  destruct (b0 <? utf8.RuneSelf).
  - cbn. inversion Hs; assumption.
  - apply decoderune_nonneg; assumption.
Qed.

Lemma Forall_skipn {A} (P : A -> Prop) n l : Forall P l -> Forall P (skipn n l).
Proof. revert l. induction n; intros [|x l] H; cbn; auto. inversion H; auto. Qed.

Lemma range_bytes_nonneg fuel s :
  Forall (fun b => 0 <= b) s -> Forall (fun r => 0 <= r) (utf8.range_bytes fuel s).
Proof.
  revert s. induction fuel as [|fuel IH]; intros s Hs; cbn; [constructor|].
  destruct s as [|b0 t]; [constructor|].
  pose proof (step_nonneg _ Hs) as Hr.
  destruct (utf8.step (b0 :: t)) as [r w]. constructor; [exact Hr|].
  apply IH, Forall_skipn, Hs.
Qed.

Lemma bytes_nonneg s : Forall (fun b => 0 <= b) (utf8.bytes s).
Proof.
  induction s as [|c s IH]; cbn; constructor; [unfold utf8.byte_of_ascii; lia|exact IH].
Qed.

Lemma range_nonneg s : Forall (fun r => 0 <= r) (utf8.range s).
Proof. apply range_bytes_nonneg, bytes_nonneg. Qed.


(** ** The text drawer: measuring *)

Section Measure.
Import painter advance_spec.
Variables (th : Settings) (f : Face).

Lemma rendered_snoc pre c :
  rendered f (pre ++ [c]) =
  if has_glyph f c then rendered f pre ++ [c] else rendered f pre.
Proof.
  unfold rendered. rewrite List.filter_app. cbn.
  destruct (has_glyph f c); [reflexivity | apply app_nil_r].
Qed.

Lemma rendered_nonneg pre :
  Forall (fun r => 0 <= r) pre -> Forall (fun r => 0 <= r) (rendered f pre).
Proof.
  unfold rendered. rewrite !List.Forall_forall. intros H x Hx.
  apply List.filter_In in Hx. apply H, Hx.
Qed.

Lemma kern_step pre c adv :
  Forall (fun r => 0 <= r) pre ->
  - 2 ^ 31 <= adv < 2 ^ 31 ->
  (if 0 <=? prev_after f pre then add32 adv (Kern f (prev_after f pre) c) else adv)
  = wrap32 (adv + kern_before f pre c).
Proof.
  intros Hpre Hadv. unfold prev_after, kern_before.
  destruct (last (rendered f pre)) as [p|] eqn:Hl.
  - assert (0 <= p) as Hp.
    { pose proof (rendered_nonneg _ Hpre) as Hr.
      rewrite List.Forall_forall in Hr. apply Hr.
      apply list_elem_of_In. eapply last_Some_elem_of, Hl. }
    destruct (Z.leb_spec 0 p); [reflexivity | lia].
  - cbn. rewrite Z.add_0_r, wrap32_small; [reflexivity | exact Hadv].
Qed.

Lemma MeasureString_loop_drawn cs : forall pre adv,
  ~ In tab cs ->
  Forall (fun r => 0 <= r) pre ->
  Forall (fun r => 0 <= r) cs ->
  - 2 ^ 31 <= adv < 2 ^ 31 ->
  MeasureString_loop th f cs (prev_after f pre) adv
  = Some (wrap32 (adv + (Zsum (map (glyph_advance f) cs)
                         + Zsum (imap (fun i c => kern_before f (pre ++ take i cs) c) cs)))).
Proof.
  induction cs as [|c cs IH]; intros pre adv Htab Hpre Hcs Hadv.
  - cbn. rewrite !Z.add_0_r, wrap32_small; [reflexivity | exact Hadv].
  - cbn [MeasureString_loop]. rewrite kern_step by assumption.
    assert (c <> tab) as Hc by (intros ->; apply Htab; left; reflexivity).
    assert (~ In tab cs) as Htab' by (intros H; apply Htab; right; exact H).
    destruct (Z.eqb_spec c tab) as [|_]; [contradiction|].
    inversion Hcs as [|? ? Hc0 Hcs']; subst.
    assert (Forall (fun r => 0 <= r) (pre ++ [c])) as Hpre'.
    { apply Forall_app; split; [exact Hpre | constructor; [exact Hc0 | constructor]]. }
    assert (forall adv',
      - 2 ^ 31 <= adv' < 2 ^ 31 ->
      MeasureString_loop th f cs (prev_after f (pre ++ [c])) adv'
      = Some (wrap32 (adv' + (Zsum (map (glyph_advance f) cs)
           + Zsum (imap ((fun i c0 => kern_before f (pre ++ take i (c :: cs)) c0) ∘ S) cs)))))
      as IH'.
    { intros adv' Hadv'. rewrite (IH (pre ++ [c]) adv' Htab' Hpre' Hcs' Hadv').
      f_equal. f_equal. f_equal. f_equal. f_equal. apply imap_ext. intros i x _. cbn.
      rewrite <- app_assoc. reflexivity. }
    rewrite imap_cons. cbn [map Zsum fold_right take]. rewrite app_nil_r.
    fold (Zsum (map (glyph_advance f) cs)).
    unfold glyph_advance at 1.
    pose proof (rendered_snoc pre c) as Hsn. unfold has_glyph in Hsn.
    destruct (GlyphAdvance f c) as [a|] eqn:Hg.
    + replace c with (prev_after f (pre ++ [c])) at 1.
      2:{ unfold prev_after. rewrite Hsn, last_snoc. reflexivity. }
      rewrite IH' by apply wrap32_range. apply (f_equal Some). unfold add32.
      rewrite wrap32_add_l, <- Z.add_assoc, wrap32_add_l.
      apply (f_equal wrap32). unfold Zsum. lia.
    + replace (prev_after f pre) with (prev_after f (pre ++ [c])).
      2:{ unfold prev_after. rewrite Hsn. reflexivity. }
      rewrite IH' by apply wrap32_range. apply (f_equal Some).
      rewrite wrap32_add_l. apply (f_equal wrap32). unfold Zsum. lia.
Qed.


Lemma advance_sum_rendered cs :
  Zsum (map (glyph_advance f) cs) = Zsum (map (glyph_advance f) (rendered f cs)).
Proof.
  induction cs as [|c cs IH]; [reflexivity|].
  unfold rendered in *. cbn [List.filter map Zsum fold_right].
  fold (Zsum (map (glyph_advance f) cs)). rewrite IH.
  unfold has_glyph at 2, glyph_advance at 1.
  destruct (GlyphAdvance f c) eqn:Hg; cbn [map Zsum fold_right].
  - unfold glyph_advance at 2. rewrite Hg. reflexivity.
  - reflexivity.
Qed.

(** Kerning between consecutive rendered characters, the first of them
    against the rendered character [prev] before the sequence, if any. *)
Lemma kern_sum_split cs : forall pre,
  Zsum (imap (fun i c => kern_before f (pre ++ take i cs) c) cs)
  = pair_kerns f (match last (rendered f pre) with
                  | Some p => p :: rendered f cs
                  | None => rendered f cs
                  end)
    + Zsum (imap (fun i c => if has_glyph f c then 0
                             else kern_before f (pre ++ take i cs) c) cs).
Proof.
  induction cs as [|c cs IH]; intros pre.
  - cbn. destruct (last (rendered f pre)); reflexivity.
  - rewrite !imap_cons. cbn [Zsum fold_right take]. rewrite app_nil_r.
    fold (Zsum (imap ((fun i c0 => kern_before f (pre ++ take i (c :: cs)) c0) ∘ S) cs)).
    fold (Zsum (imap ((fun i c0 => if has_glyph f c0 then 0
        else kern_before f (pre ++ take i (c :: cs)) c0) ∘ S) cs)).
    rewrite (imap_ext _ (fun i c0 => kern_before f ((pre ++ [c]) ++ take i cs) c0) cs)
      by (intros i x _; cbn; rewrite <- app_assoc; reflexivity).
    rewrite (imap_ext ((fun i c0 => if has_glyph f c0 then 0
        else kern_before f (pre ++ take i (c :: cs)) c0) ∘ S)
        (fun i c0 => if has_glyph f c0 then 0
                     else kern_before f ((pre ++ [c]) ++ take i cs) c0) cs)
      by (intros i x _; cbn; rewrite <- app_assoc; reflexivity).
    rewrite IH, rendered_snoc. unfold kern_before at 1 3.
    change (rendered f (c :: cs))
      with (if has_glyph f c then c :: rendered f cs else rendered f cs).
    destruct (has_glyph f c).
    + rewrite last_snoc. destruct (last (rendered f pre)); cbn [pair_kerns]; lia.
    + destruct (last (rendered f pre)); cbn [pair_kerns]; lia.
Qed.

Lemma drawn_width_split cs :
  drawn_width f cs = spec_width f cs + stray_kerns f cs.
Proof.
  unfold drawn_width, spec_width, stray_kerns.
  rewrite <- advance_sum_rendered.
  pose proof (kern_sum_split cs []) as H. cbn in H.
  rewrite H. lia.
Qed.

Lemma MeasureString_drawn s :
  ~ In tab (utf8.range s) ->
  MeasureString th f s = Some (wrap32 (drawn_width f (utf8.range s))).
Proof.
  intros Htab. unfold MeasureString.
  change (-1) with (prev_after f []).
  rewrite MeasureString_loop_drawn;
    [reflexivity | exact Htab | constructor | apply range_nonneg | lia].
Qed.
End Measure.

(** C5, as the code has it: for a string without tabs the measured width is
    the sum of the advances of the characters that have a glyph, plus the
    kerning between consecutive such characters, plus, for every character
    without a glyph, the kerning between the last character with a glyph
    before it and itself; in 32-bit wrap-around arithmetic.  A character
    without a glyph adds no advance and is never the previous character of
    a kerning lookup. *)
Theorem C5_MeasureString_sum th f s :
  ~ In painter.tab (utf8.range s) ->
  painter.MeasureString th f s
  = Some (wrap32 (advance_spec.spec_width f (utf8.range s)
                  + advance_spec.stray_kerns f (utf8.range s))).
Proof.
  intros Htab. rewrite MeasureString_drawn by exact Htab.
  rewrite drawn_width_split. reflexivity.
Qed.

Lemma C5_MeasureString_sum_witness :
  ~ In painter.tab (utf8.range "a a") /\
  painter.MeasureString advance_spec.tabs4 advance_spec.face_a "a a"
  = Some (wrap32 (advance_spec.spec_width advance_spec.face_a (utf8.range "a a")
                  + advance_spec.stray_kerns advance_spec.face_a (utf8.range "a a"))).
Proof.
  assert (~ In painter.tab (utf8.range "a a")) as Htab
    by (vm_compute; intros [H|[H|[H|[]]]]; discriminate H).
  split; [exact Htab|].
  exact (C5_MeasureString_sum advance_spec.tabs4 advance_spec.face_a "a a" Htab).
Defined.

(** C5 as stated fails: 'a' followed by '?' (no glyph), with kerning 5
    between them, measures 69 and not the 64 of the advance of 'a' alone. *)
Lemma C5_missing_glyph_is_kerned :
  ~ In painter.tab (utf8.range "a?")
  /\ painter.MeasureString advance_spec.tabs4 advance_spec.face_a "a?" = Some 69
  /\ wrap32 (advance_spec.spec_width advance_spec.face_a (utf8.range "a?")) = 64.
Proof.
  split; [|split]; [|reflexivity|reflexivity].
  vm_compute. intros [H|[H|[]]]; discriminate H.
Qed.


(** ** The text drawer: tab stops *)

Lemma quot_bounds a b :
  0 < b ->
  (0 <= a -> Z.quot a b = a / b) /\
  a - b < b * Z.quot a b /\
  (a <= 0 -> a <= b * Z.quot a b <= 0) /\
  (0 <= a -> 0 <= b * Z.quot a b <= a).
Proof.
  intros Hb.
  pose proof (Z.quot_rem' a b) as Hqr.
  assert (0 <= a -> 0 <= Z.rem a b < b) as Hpos
    by (intros Ha; apply Z.rem_bound_pos; lia).
  assert (a <= 0 -> - b < Z.rem a b <= 0) as Hneg.
  { intros Ha. apply Z.rem_bound_pos_neg; lia. }
  assert (0 <= a -> 0 <= Z.quot a b) as Hqpos by (intros; apply Z.quot_pos; lia).
  assert (a <= 0 -> Z.quot a b <= 0) as Hqneg.
  { intros Ha. replace a with (- - a) by lia. rewrite Z.quot_opp_l by lia.
    pose proof (Z.quot_pos (- a) b). lia. }
  repeat split; intros; try (apply Z.quot_div_nonneg; lia);
    destruct (Z_le_gt_dec 0 a); nia.
Qed.

(** C7, as the code has it.  When the space glyph is missing the position
    is returned unchanged.  Otherwise, with a positive tab cell width
    [w * n] and no overflow of [x + w * n] in 32 bits, [tabStop] returns a
    multiple of [w * n] that is greater than [x]; for [x >= - (w * n)] it is
    [floor ((x + w * n) / (w * n)) * (w * n)]. *)
Theorem C7_tabStop_next_boundary th f x :
  - 2 ^ 31 <= x < 2 ^ 31 ->
  (painter.GlyphAdvance f painter.space = None -> painter.tabStop th f x = Some x)
  /\ (forall w, painter.GlyphAdvance f painter.space = Some w ->
      0 < w * painter.SizeNameTabWidth th < 2 ^ 31 ->
      x + w * painter.SizeNameTabWidth th < 2 ^ 31 ->
      exists r, painter.tabStop th f x = Some r
        /\ (w * painter.SizeNameTabWidth th | r)
        /\ x < r
        /\ (- (w * painter.SizeNameTabWidth th) <= x ->
            r = (x + w * painter.SizeNameTabWidth th)
                / (w * painter.SizeNameTabWidth th)
                * (w * painter.SizeNameTabWidth th))).
Proof.
  intros Hx. unfold painter.tabStop. split.
  - intros ->. reflexivity.
  - intros w -> Htabw Hsum.
    set (tabw := w * painter.SizeNameTabWidth th) in *.
    cbv zeta. unfold mul32, add32, div32. fold tabw.
    rewrite !(wrap32_small tabw) by lia.
    rewrite (wrap32_small (x + tabw)) by lia.
    destruct (Z.eqb_spec tabw 0) as [|_]; [lia|].
    destruct (quot_bounds (x + tabw) tabw ltac:(lia)) as (Hfloor & Hlow & Hneg & Hpos).
    assert (- 2 ^ 31 <= Z.quot (x + tabw) tabw < 2 ^ 31) as Hq.
    { destruct (Z_le_gt_dec 0 (x + tabw)); nia. }
    rewrite (wrap32_small _ Hq).
    assert (- 2 ^ 31 <= tabw * Z.quot (x + tabw) tabw < 2 ^ 31) as Hr.
    { destruct (Z_le_gt_dec 0 (x + tabw)); lia. }
    rewrite (wrap32_small _ Hr).
    eexists. split; [reflexivity|]. split; [|split].
    + exists (Z.quot (x + tabw) tabw). lia.
    + lia.
    + intros Hge. rewrite Hfloor by lia. lia.
Qed.

Lemma C7_tabStop_next_boundary_witness :
  - 2 ^ 31 <= 100 < 2 ^ 31 /\
  painter.tabStop advance_spec.tabs4 advance_spec.face_nospace 100 = Some 100 /\
  exists r, painter.tabStop advance_spec.tabs4 advance_spec.face_a 100 = Some r
    /\ (16 * 4 | r) /\ 100 < r
    /\ (- (16 * 4) <= 100 -> r = (100 + 16 * 4) / (16 * 4) * (16 * 4)).
Proof.
  assert (- 2 ^ 31 <= 100 < 2 ^ 31) as Hx by lia.
  split; [exact Hx|]. split.
  - exact (proj1 (C7_tabStop_next_boundary advance_spec.tabs4 advance_spec.face_nospace
                    100 Hx) eq_refl).
  - exact (proj2 (C7_tabStop_next_boundary advance_spec.tabs4 advance_spec.face_a 100 Hx)
             16 eq_refl ltac:(cbn; lia) ltac:(cbn; lia)).
Defined.

(** C7 as stated fails in four ways: a tab width setting of 0 makes the
    division panic; a negative tab cell width gives a stop behind [x]; near
    the top of the 32-bit range the sum wraps around and the stop is behind
    [x]; and for [x] below [- (w * n)] the division truncates toward zero,
    so the stop is not the floor formula. *)
Lemma C7_tabStop_not_for_every_x :
  painter.tabStop advance_spec.tabs0 advance_spec.face_a 0 = None
  /\ (painter.tabStop advance_spec.tabs4 advance_spec.face_neg 0 = Some (-64)
      /\ - 64 < 0)
  /\ (painter.tabStop advance_spec.tabs4 advance_spec.face_a (2 ^ 31 - 1)
      = Some (- 2147483648 + 64) /\ - 2147483648 + 64 < 2 ^ 31 - 1)
  /\ (painter.tabStop advance_spec.tabs4 advance_spec.face_a (-70) = Some 0
      /\ (-70 + 16 * 4) / (16 * 4) * (16 * 4) = -64).
Proof. repeat split; vm_compute; reflexivity. Qed.


(** ** The text drawer: drawing against measuring *)

Section DrawMeasure.
Import painter advance_spec.
Variables (th : Settings) (f : Face).
Hypothesis Hco : coherent f.

(** From the same pen position both traversals compute the same one. *)
Lemma DrawString_loop_measure cs : forall prev d,
  face d = f ->
  option_map (fun d' => X (Dot d')) (DrawString_loop th cs prev d)
  = MeasureString_loop th f cs prev (X (Dot d)).
Proof.
  induction cs as [|c cs IH]; intros prev d Hf; [reflexivity|].
  cbn [DrawString_loop MeasureString_loop].
  set (d1 := if 0 <=? prev then setX d (add32 (X (Dot d)) (Kern (face d) prev c)) else d).
  assert (face d1 = f) as Hf1 by (subst d1; destruct (0 <=? prev); exact Hf).
  assert (X (Dot d1) = if 0 <=? prev then add32 (X (Dot d)) (Kern f prev c) else X (Dot d))
    as HX1 by (subst d1; rewrite Hf; destruct (0 <=? prev); reflexivity).
  rewrite <- HX1, Hf1. clearbody d1. clear HX1.
  destruct (c =? tab).
  - destruct (tabStop th f (X (Dot d1))) as [x|]; [|reflexivity].
    rewrite IH by exact Hf1. reflexivity.
  - rewrite <- (Hco (Dot d1) c).
    destruct (Glyph f (Dot d1) c) as [g|]; cbn [option_map].
    + rewrite IH by exact Hf1. reflexivity.
    + apply IH, Hf1.
Qed.

(** Without tabs the two traversals add the same amounts, whatever the
    starting position [x0] of the pen. *)
Lemma DrawString_loop_relative x0 cs : forall prev d adv,
  face d = f ->
  ~ In tab cs ->
  wrap32 (X (Dot d) - x0) = adv ->
  option_map (fun d' => sub32 (X (Dot d')) x0) (DrawString_loop th cs prev d)
  = MeasureString_loop th f cs prev adv.
Proof.
  induction cs as [|c cs IH]; intros prev d adv Hf Htab Hadv.
  { cbn. unfold sub32. rewrite Hadv. reflexivity. }
  cbn [DrawString_loop MeasureString_loop].
  assert (c <> tab) as Hc by (intros ->; apply Htab; left; reflexivity).
  assert (~ In tab cs) as Htab' by (intros H; apply Htab; right; exact H).
  destruct (Z.eqb_spec c tab) as [|_]; [contradiction|].
  set (d1 := if 0 <=? prev then setX d (add32 (X (Dot d)) (Kern (face d) prev c)) else d).
  set (adv1 := if 0 <=? prev then add32 adv (Kern f prev c) else adv).
  assert (face d1 = f) as Hf1 by (subst d1; destruct (0 <=? prev); exact Hf).
  assert (wrap32 (X (Dot d1) - x0) = adv1) as Hadv1.
  { subst d1 adv1. rewrite Hf. destruct (0 <=? prev); [|exact Hadv].
    cbn [setX Dot X]. unfold add32. rewrite <- Hadv.
    rewrite wrap32_sub_l, wrap32_add_l. f_equal. lia. }
  clearbody d1 adv1. rewrite Hf1, <- (Hco (Dot d1) c).
  destruct (Glyph f (Dot d1) c) as [g|]; cbn [option_map].
  - apply IH; [exact Hf1 | exact Htab' |].
    cbn [setX DrawMask Dot X]. unfold add32. rewrite <- Hadv1.
    rewrite wrap32_sub_l, wrap32_add_l. f_equal. lia.
  - apply IH; assumption.
Qed.
End DrawMeasure.

Lemma face_a_coherent : advance_spec.coherent advance_spec.face_a.
Proof.
  intros dot c. cbn. destruct (c =? 97); [reflexivity|].
  destruct (c =? 32); reflexivity.
Qed.

(** C8, as the code has it: for a face whose [Glyph] and [GlyphAdvance]
    agree, drawing from pen position 0 ends at the measured width (and
    panics exactly when measuring does); and for a string without tabs the
    pen advance, final minus initial position in 32-bit arithmetic, is the
    measured width from any starting position. *)
Theorem C8_DrawString_advance th d s :
  advance_spec.coherent (painter.face d) ->
  (painter.X (painter.Dot d) = 0 ->
   option_map (fun d' => painter.X (painter.Dot d')) (painter.DrawString th d s)
   = painter.MeasureString th (painter.face d) s)
  /\ (~ In painter.tab (utf8.range s) ->
      option_map (fun d' => sub32 (painter.X (painter.Dot d')) (painter.X (painter.Dot d)))
                 (painter.DrawString th d s)
      = painter.MeasureString th (painter.face d) s).
Proof.
  intros Hco. unfold painter.DrawString, painter.MeasureString. split.
  - intros H0. rewrite <- H0.
    apply DrawString_loop_measure; [exact Hco | reflexivity].
  - intros Htab. apply DrawString_loop_relative;
      [exact Hco | reflexivity | exact Htab |].
    rewrite Z.sub_diag. reflexivity.
Qed.

Lemma C8_DrawString_advance_witness :
  advance_spec.coherent advance_spec.face_a /\
  option_map (fun d' => painter.X (painter.Dot d'))
             (painter.DrawString advance_spec.tabs4
                (advance_spec.drawer_at advance_spec.face_a 0) "a a")
  = painter.MeasureString advance_spec.tabs4 advance_spec.face_a "a a".
Proof.
  split; [exact face_a_coherent|].
  exact (proj1 (C8_DrawString_advance advance_spec.tabs4
                  (advance_spec.drawer_at advance_spec.face_a 0) "a a"
                  face_a_coherent) eq_refl).
Defined.

(** C8 as stated fails.  A tab drawn from pen position 1 moves the pen to
    the stop at 64, an advance of 63, while the string measures 64.  And a
    face whose [Glyph] reports another advance than its [GlyphAdvance]
    draws "a" 128 wide and measures it 64 wide. *)
Lemma C8_draw_and_measure_diverge :
  (advance_spec.coherent advance_spec.face_a
   /\ option_map (fun d' => sub32 (painter.X (painter.Dot d')) 1)
        (painter.DrawString advance_spec.tabs4
           (advance_spec.drawer_at advance_spec.face_a 1)
           (String (ascii_of_nat 9) EmptyString)) = Some 63
   /\ painter.MeasureString advance_spec.tabs4 advance_spec.face_a
        (String (ascii_of_nat 9) EmptyString) = Some 64)
  /\ (option_map (fun d' => sub32 (painter.X (painter.Dot d')) 0)
        (painter.DrawString advance_spec.tabs4
           (advance_spec.drawer_at advance_spec.face_skew 0) "a") = Some 128
      /\ painter.MeasureString advance_spec.tabs4 advance_spec.face_skew "a" = Some 64).
Proof.
  split; [split; [exact face_a_coherent | split; reflexivity] | split; reflexivity].
Qed.


(** ** UTF-8: decoding and encoding *)

Lemma land_shiftl_small h k l :
  0 <= k -> 0 <= l < 2 ^ k -> Z.land (Z.shiftl h k) l = 0.
Proof.
  intros Hk Hl. apply Z.bits_inj'. intros n Hn.
  rewrite Z.land_spec, Z.bits_0.
  destruct (Z_lt_le_dec n k) as [Hlt|Hge].
  - rewrite Z.shiftl_spec_low by lia. reflexivity.
  - destruct (Z.eq_dec l 0) as [->|Hl0]; [rewrite Z.bits_0; apply andb_false_r|].
    rewrite (Z.bits_above_log2 l n); [apply andb_false_r | lia |].
    apply Z.log2_lt_pow2; [lia|].
    apply Z.lt_le_trans with (2 ^ k); [lia|]. apply Z.pow_le_mono_r; lia.
Qed.

Lemma lor_add_small x h k l :
  x = h * 2 ^ k -> 0 <= k -> 0 <= l < 2 ^ k -> Z.lor x l = x + l.
Proof.
  intros -> Hk Hl. pose proof (Z.add_lor_land (h * 2 ^ k) l) as H.
  rewrite <- Z.shiftl_mul_pow2 in H by assumption.
  rewrite land_shiftl_small in H by assumption.
  rewrite <- Z.shiftl_mul_pow2 by assumption. lia.
Qed.

Lemma lor_shiftl_small h k l :
  0 <= k -> 0 <= l < 2 ^ k -> Z.lor (Z.shiftl h k) l = h * 2 ^ k + l.
Proof.
  intros Hk Hl. rewrite (lor_add_small _ h k l); [| | assumption..].
  - rewrite Z.shiftl_mul_pow2 by assumption. reflexivity.
  - apply Z.shiftl_mul_pow2. assumption.
Qed.

Lemma land_3F b : Z.land b 0x3F = b mod 64.
Proof. change 0x3F with (Z.ones 6). rewrite Z.land_ones by lia. reflexivity. Qed.
Lemma land_1F b : Z.land b 0x1F = b mod 32.
Proof. change 0x1F with (Z.ones 5). rewrite Z.land_ones by lia. reflexivity. Qed.
Lemma land_0F b : Z.land b 0x0F = b mod 16.
Proof. change 0x0F with (Z.ones 4). rewrite Z.land_ones by lia. reflexivity. Qed.
Lemma land_07 b : Z.land b 0x07 = b mod 8.
Proof. change 0x07 with (Z.ones 3). rewrite Z.land_ones by lia. reflexivity. Qed.

Lemma lor_80 l : 0 <= l < 64 -> Z.lor 0x80 l = 0x80 + l.
Proof.
  intros H. change (Z.lor 0x80 l) with (Z.lor (Z.shiftl 2 6) l).
  rewrite lor_shiftl_small; lia.
Qed.
Lemma lor_C0 l : 0 <= l < 32 -> Z.lor 0xC0 l = 0xC0 + l.
Proof.
  intros H. change (Z.lor 0xC0 l) with (Z.lor (Z.shiftl 6 5) l).
  rewrite lor_shiftl_small; lia.
Qed.
Lemma lor_E0 l : 0 <= l < 16 -> Z.lor 0xE0 l = 0xE0 + l.
Proof.
  intros H. change (Z.lor 0xE0 l) with (Z.lor (Z.shiftl 14 4) l).
  rewrite lor_shiftl_small; lia.
Qed.
Lemma lor_F0 l : 0 <= l < 8 -> Z.lor 0xF0 l = 0xF0 + l.
Proof.
  intros H. change (Z.lor 0xF0 l) with (Z.lor (Z.shiftl 30 3) l).
  rewrite lor_shiftl_small; lia.
Qed.

(** The runes of the three multi-byte forms, in arithmetic. *)
Lemma rune2_arith b0 b1 :
  Z.lor (Z.shiftl (Z.land b0 0x1F) 6) (Z.land b1 0x3F) = b0 mod 32 * 64 + b1 mod 64.
Proof.
  rewrite land_1F, land_3F. rewrite lor_shiftl_small; [reflexivity | lia |].
  apply Z.mod_pos_bound. lia.
Qed.

Lemma rune3_arith b0 b1 b2 :
  Z.lor (Z.lor (Z.shiftl (Z.land b0 0x0F) 12) (Z.shiftl (Z.land b1 0x3F) 6))
        (Z.land b2 0x3F)
  = b0 mod 16 * 4096 + b1 mod 64 * 64 + b2 mod 64.
Proof.
  rewrite land_0F, !land_3F.
  pose proof (Z.mod_pos_bound b1 64 ltac:(lia)).
  pose proof (Z.mod_pos_bound b2 64 ltac:(lia)).
  rewrite !Z.shiftl_mul_pow2 by lia.
  rewrite (lor_add_small _ (b0 mod 16) 12 (b1 mod 64 * 2 ^ 6)) by lia.
  rewrite (lor_add_small _ (b0 mod 16 * 64 + b1 mod 64) 6 (b2 mod 64)) by lia.
  lia.
Qed.

Lemma rune4_arith b0 b1 b2 b3 :
  Z.lor (Z.lor (Z.lor (Z.shiftl (Z.land b0 0x07) 18) (Z.shiftl (Z.land b1 0x3F) 12))
               (Z.shiftl (Z.land b2 0x3F) 6))
        (Z.land b3 0x3F)
  = b0 mod 8 * 262144 + b1 mod 64 * 4096 + b2 mod 64 * 64 + b3 mod 64.
Proof.
  rewrite land_07, !land_3F.
  pose proof (Z.mod_pos_bound b1 64 ltac:(lia)).
  pose proof (Z.mod_pos_bound b2 64 ltac:(lia)).
  pose proof (Z.mod_pos_bound b3 64 ltac:(lia)).
  rewrite !Z.shiftl_mul_pow2 by lia.
  rewrite (lor_add_small _ (b0 mod 8) 18 (b1 mod 64 * 2 ^ 12)) by lia.
  rewrite (lor_add_small _ (b0 mod 8 * 64 + b1 mod 64) 12 (b2 mod 64 * 2 ^ 6)) by lia.
  rewrite (lor_add_small _ (b0 mod 8 * 4096 + b1 mod 64 * 64 + b2 mod 64) 6 (b3 mod 64)) by lia.
  lia.
Qed.


Lemma shiftr_6 r : Z.shiftr r 6 = r / 64.
Proof. rewrite Z.shiftr_div_pow2 by lia. reflexivity. Qed.
Lemma shiftr_12 r : Z.shiftr r 12 = r / 4096.
Proof. rewrite Z.shiftr_div_pow2 by lia. reflexivity. Qed.
Lemma shiftr_18 r : Z.shiftr r 18 = r / 262144.
Proof. rewrite Z.shiftr_div_pow2 by lia. reflexivity. Qed.

Lemma encoderune_1 b : 0 <= b < 0x80 -> utf8.encoderune b = [b].
Proof.
  intros H. unfold utf8.encoderune, utf8.rune1Max.
  replace ((0 <=? b) && (b <=? 0x7F)) with true by lia. reflexivity.
Qed.

Lemma encoderune_2 b0 b1 :
  0xC0 <= b0 < 0xE0 -> 0x80 <= b1 <= 0xBF ->
  0x7F < b0 mod 32 * 64 + b1 mod 64 ->
  utf8.encoderune (b0 mod 32 * 64 + b1 mod 64) = [b0; b1].
Proof.
  intros H0 H1 Hr. set (r := b0 mod 32 * 64 + b1 mod 64) in *.
  assert (r = (b0 - 0xC0) * 64 + (b1 - 0x80)) as Er
    by (subst r; Z.div_mod_to_equations; lia).
  unfold utf8.encoderune, utf8.rune1Max, utf8.rune2Max.
  replace ((0 <=? r) && (r <=? 0x7F)) with false by lia.
  replace ((0 <=? r) && (r <=? 0x7FF)) with true by lia.
  rewrite shiftr_6, land_3F.
  rewrite lor_C0, lor_80 by (Z.div_mod_to_equations; lia).
  f_equal; [|f_equal]; Z.div_mod_to_equations; lia.
Qed.

Lemma encoderune_3 b0 b1 b2 :
  0xE0 <= b0 < 0xF0 -> 0x80 <= b1 <= 0xBF -> 0x80 <= b2 <= 0xBF ->
  let r := b0 mod 16 * 4096 + b1 mod 64 * 64 + b2 mod 64 in
  0x7FF < r -> ~ (0xD800 <= r <= 0xDFFF) ->
  utf8.encoderune r = [b0; b1; b2].
Proof.
  intros H0 H1 H2 r Hr Hs.
  assert (r = (b0 - 0xE0) * 4096 + (b1 - 0x80) * 64 + (b2 - 0x80)) as Er
    by (subst r; Z.div_mod_to_equations; lia).
  clearbody r.
  unfold utf8.encoderune, utf8.rune1Max, utf8.rune2Max, utf8.rune3Max,
    utf8.MaxRune, utf8.surrogateMin, utf8.surrogateMax.
  replace ((0 <=? r) && (r <=? 0x7F)) with false by lia.
  replace ((0 <=? r) && (r <=? 0x7FF)) with false by lia.
  replace ((r <? 0) || (0x10FFFF <? r) || ((0xD800 <=? r) && (r <=? 0xDFFF)))
    with false by lia.
  replace (r <=? 0xFFFF) with true by lia.
  rewrite shiftr_12, shiftr_6, !land_3F.
  rewrite lor_E0, !lor_80 by (Z.div_mod_to_equations; lia).
  f_equal; [|f_equal; [|f_equal]]; Z.div_mod_to_equations; lia.
Qed.

Lemma encoderune_4 b0 b1 b2 b3 :
  0xF0 <= b0 < 0xF8 -> 0x80 <= b1 <= 0xBF -> 0x80 <= b2 <= 0xBF ->
  0x80 <= b3 <= 0xBF ->
  let r := b0 mod 8 * 262144 + b1 mod 64 * 4096 + b2 mod 64 * 64 + b3 mod 64 in
  0xFFFF < r <= 0x10FFFF ->
  utf8.encoderune r = [b0; b1; b2; b3].
Proof.
  intros H0 H1 H2 H3 r Hr.
  assert (r = (b0 - 0xF0) * 262144 + (b1 - 0x80) * 4096 + (b2 - 0x80) * 64 + (b3 - 0x80))
    as Er by (subst r; Z.div_mod_to_equations; lia).
  clearbody r.
  unfold utf8.encoderune, utf8.rune1Max, utf8.rune2Max, utf8.rune3Max,
    utf8.MaxRune, utf8.surrogateMin, utf8.surrogateMax.
  replace ((0 <=? r) && (r <=? 0x7F)) with false by lia.
  replace ((0 <=? r) && (r <=? 0x7FF)) with false by lia.
  replace ((r <? 0) || (0x10FFFF <? r) || ((0xD800 <=? r) && (r <=? 0xDFFF)))
    with false by lia.
  replace (r <=? 0xFFFF) with false by lia.
  rewrite shiftr_18, shiftr_12, shiftr_6, !land_3F.
  rewrite lor_F0, !lor_80 by (Z.div_mod_to_equations; lia).
  f_equal; [|f_equal; [|f_equal; [|f_equal]]]; Z.div_mod_to_equations; lia.
Qed.

(** One step of the decoding: it consumes between one and four bytes that
    are there, and unless it met a malformed sequence the rune encodes back
    to the bytes consumed. *)
Lemma step_spec b0 t :
  0 <= b0 ->
  (1 <= snd (utf8.step (b0 :: t)) <= length (b0 :: t))%nat
  /\ ((utf8.RuneSelf <=? b0) && (fst (utf8.step (b0 :: t)) =? utf8.RuneError)
        && (snd (utf8.step (b0 :: t)) =? 1)%nat = false ->
      utf8.encoderune (fst (utf8.step (b0 :: t)))
      = take (snd (utf8.step (b0 :: t))) (b0 :: t)).
Proof.
  intros Hb0. unfold utf8.step.
  destruct (Z.ltb_spec b0 utf8.RuneSelf) as [Hself|Hself].
  { cbn [fst snd length take]. split; [lia|]. intros _.
    apply encoderune_1. unfold utf8.RuneSelf in Hself. lia. }
  assert (forall l : list Z,
    (1 <= 1 <= length (b0 :: l))%nat
    /\ ((utf8.RuneSelf <=? b0) && (utf8.RuneError =? utf8.RuneError) && (1 =? 1)%nat = false ->
        utf8.encoderune utf8.RuneError = take 1 (b0 :: l))) as Hbad.
  { intros l. split; [cbn; lia|]. intros H. exfalso.
    rewrite Z.eqb_refl, Nat.eqb_refl, !andb_true_r in H. lia. }
  unfold utf8.decoderune, utf8.rune1Max, utf8.rune2Max, utf8.rune3Max,
    utf8.MaxRune, utf8.surrogateMin, utf8.surrogateMax.
  destruct ((0xC0 <=? b0) && (b0 <? 0xE0)) eqn:E2.
  { destruct t as [|b1 t]; [apply Hbad|].
    destruct (utf8.cont b1) eqn:C1; [|apply Hbad]. apply cont_range in C1.
    rewrite rune2_arith.
    destruct (Z.ltb_spec 0x7F (b0 mod 32 * 64 + b1 mod 64)); [|apply Hbad].
    cbn [fst snd length take]. split; [lia|]. intros _.
    apply encoderune_2; lia. }
  destruct ((0xE0 <=? b0) && (b0 <? 0xF0)) eqn:E3.
  { destruct t as [|b1 [|b2 t]]; [apply Hbad..|].
    destruct (utf8.cont b1) eqn:C1; [|apply Hbad]. apply cont_range in C1.
    destruct (utf8.cont b2) eqn:C2; [|apply Hbad]. apply cont_range in C2.
    cbn [andb]. rewrite rune3_arith.
    set (r := b0 mod 16 * 4096 + b1 mod 64 * 64 + b2 mod 64).
    destruct ((0x7FF <? r) && negb ((0xD800 <=? r) && (r <=? 0xDFFF))) eqn:R;
      [|apply Hbad].
    cbn [fst snd length take]. split; [lia|]. intros _.
    apply encoderune_3; lia. }
  destruct ((0xF0 <=? b0) && (b0 <? 0xF8)) eqn:E4.
  { destruct t as [|b1 [|b2 [|b3 t]]]; [apply Hbad..|].
    destruct (utf8.cont b1) eqn:C1; [|apply Hbad]. apply cont_range in C1.
    destruct (utf8.cont b2) eqn:C2; [|apply Hbad]. apply cont_range in C2.
    destruct (utf8.cont b3) eqn:C3; [|apply Hbad]. apply cont_range in C3.
    cbn [andb]. rewrite rune4_arith.
    set (r := b0 mod 8 * 262144 + b1 mod 64 * 4096 + b2 mod 64 * 64 + b3 mod 64).
    destruct ((0xFFFF <? r) && (r <=? 0x10FFFF)) eqn:R; [|apply Hbad].
    cbn [fst snd length take]. split; [lia|]. intros _.
    apply encoderune_4; lia. }
  apply Hbad.
Qed.

(** A line feed cuts the decoding: the step taken from the start of a piece
    without line feed does not depend on what follows the line feed. *)
Lemma step_app_nl b0 a rest :
  ~ In 10 (b0 :: a) ->
  utf8.step ((b0 :: a) ++ 10 :: rest) = utf8.step (b0 :: a).
Proof.
  intros _. unfold utf8.step. cbn [app].
  destruct (b0 <? utf8.RuneSelf); [reflexivity|].
  unfold utf8.decoderune.
  assert (utf8.cont 10 = false) as C10 by reflexivity.
  destruct ((0xC0 <=? b0) && (b0 <? 0xE0)).
  { destruct a as [|b1 a]; cbn [app]; [rewrite C10|]; reflexivity. }
  destruct ((0xE0 <=? b0) && (b0 <? 0xF0)).
  { destruct a as [|b1 [|b2 a]]; cbn [app]; try reflexivity.
    - destruct rest; reflexivity.
    - rewrite C10, andb_false_r. reflexivity. }
  destruct ((0xF0 <=? b0) && (b0 <? 0xF8)); [|reflexivity].
  destruct a as [|b1 [|b2 [|b3 a]]]; cbn [app]; try reflexivity.
  - destruct rest as [|r1 [|r2 rest]]; reflexivity.
  - destruct rest as [|r1 rest]; [reflexivity|].
    rewrite C10, andb_false_r. reflexivity.
  - rewrite C10, andb_false_r. reflexivity.
Qed.

(** Decoding with enough fuel. *)
Lemma range_bytes_fuel fuel : forall s,
  Forall (fun b => 0 <= b) s ->
  (length s <= fuel)%nat ->
  utf8.range_bytes fuel s = utf8.range_bytes (length s) s.
Proof.
  induction fuel as [fuel IH] using lt_wf_ind. intros s Hs Hlen.
  destruct s as [|b0 t]; [destruct fuel; reflexivity|].
  destruct fuel as [|fuel]; [cbn in Hlen; lia|].
  cbn [utf8.range_bytes length].
  inversion Hs as [|? ? Hb0 Ht]; subst.
  destruct (step_spec b0 t Hb0) as [Hw _].
  destruct (utf8.step (b0 :: t)) as [r w]. cbn [snd] in Hw. f_equal.
  assert (length (skipn w (b0 :: t)) <= length t)%nat as Hsk
    by (rewrite length_skipn; cbn [length]; lia).
  rewrite (IH fuel) by (try apply Forall_skipn; try assumption; cbn in Hlen; lia).
  symmetry. apply (IH (length t)); [cbn in Hlen; lia | apply Forall_skipn; assumption | lia].
Qed.

Lemma valid_bytes_fuel fuel : forall s,
  Forall (fun b => 0 <= b) s ->
  (length s <= fuel)%nat ->
  utf8.valid_bytes fuel s = utf8.valid_bytes (length s) s.
Proof.
  induction fuel as [fuel IH] using lt_wf_ind. intros s Hs Hlen.
  destruct s as [|b0 t]; [destruct fuel; reflexivity|].
  destruct fuel as [|fuel]; [cbn in Hlen; lia|].
  cbn [utf8.valid_bytes length].
  inversion Hs as [|? ? Hb0 Ht]; subst.
  destruct (step_spec b0 t Hb0) as [Hw _].
  destruct (utf8.step (b0 :: t)) as [r w]. cbn [snd] in Hw. f_equal.
  assert (length (skipn w (b0 :: t)) <= length t)%nat as Hsk
    by (rewrite length_skipn; cbn [length]; lia).
  rewrite (IH fuel) by (try apply Forall_skipn; try assumption; cbn in Hlen; lia).
  symmetry. apply (IH (length t)); [cbn in Hlen; lia | apply Forall_skipn; assumption | lia].
Qed.


Lemma range_bytes_cons b0 t :
  Forall (fun b => 0 <= b) (b0 :: t) ->
  utf8.range_bytes (length (b0 :: t)) (b0 :: t)
  = fst (utf8.step (b0 :: t))
    :: utf8.range_bytes (length (skipn (snd (utf8.step (b0 :: t))) (b0 :: t)))
                        (skipn (snd (utf8.step (b0 :: t))) (b0 :: t)).
Proof.
  intros Hs. cbn [length utf8.range_bytes].
  inversion Hs as [|? ? Hb0 Ht]; subst.
  destruct (step_spec b0 t Hb0) as [Hw _].
  destruct (utf8.step (b0 :: t)) as [r w]. cbn [fst snd] in *. f_equal.
  apply range_bytes_fuel; [apply Forall_skipn; assumption|].
  rewrite length_skipn. cbn [length]. lia.
Qed.

Lemma valid_bytes_cons b0 t :
  Forall (fun b => 0 <= b) (b0 :: t) ->
  utf8.valid_bytes (length (b0 :: t)) (b0 :: t)
  = negb ((utf8.RuneSelf <=? b0) && (fst (utf8.step (b0 :: t)) =? utf8.RuneError)
          && (snd (utf8.step (b0 :: t)) =? 1)%nat)
    && utf8.valid_bytes (length (skipn (snd (utf8.step (b0 :: t))) (b0 :: t)))
                        (skipn (snd (utf8.step (b0 :: t))) (b0 :: t)).
Proof.
  intros Hs. cbn [length utf8.valid_bytes].
  inversion Hs as [|? ? Hb0 Ht]; subst.
  destruct (step_spec b0 t Hb0) as [Hw _].
  destruct (utf8.step (b0 :: t)) as [r w]. cbn [fst snd] in *. f_equal.
  apply valid_bytes_fuel; [apply Forall_skipn; assumption|].
  rewrite length_skipn. cbn [length]. lia.
Qed.

Lemma skipn_app_nl (w : nat) (a rest : list Z) :
  (w <= length a)%nat ->
  skipn w (a ++ 10 :: rest) = skipn w a ++ 10 :: rest.
Proof.
  intros H. rewrite List.skipn_app.
  replace (w - length a)%nat with 0%nat by lia. reflexivity.
Qed.

Lemma not_In_skipn (w : nat) (a : list Z) :
  ~ In 10 a -> ~ In 10 (skipn w a).
Proof.
  intros H Hin. apply H. rewrite <- (List.firstn_skipn w a).
  apply List.in_or_app. right. exact Hin.
Qed.

(** Decoding a piece that ends at a line feed, then the rest. *)
Lemma range_bytes_app_nl (n : nat) : forall a rest,
  length a = n ->
  Forall (fun b => 0 <= b) a -> Forall (fun b => 0 <= b) rest ->
  ~ In 10 a ->
  utf8.range_bytes (length (a ++ 10 :: rest)) (a ++ 10 :: rest)
  = utf8.range_bytes (length a) a ++ 10 :: utf8.range_bytes (length rest) rest.
Proof.
  induction n as [n IH] using lt_wf_ind. intros a rest Hn Ha Hrest Hnl.
  destruct a as [|b0 a].
  - cbn [app]. rewrite range_bytes_cons by (constructor; [lia | assumption]).
    reflexivity.
  - assert (Forall (fun b => 0 <= b) ((b0 :: a) ++ 10 :: rest)) as Hall.
    { apply Forall_app; split; [assumption | constructor; [lia | assumption]]. }
    change ((b0 :: a) ++ 10 :: rest) with (b0 :: (a ++ 10 :: rest)) at 1 2.
    rewrite range_bytes_cons by exact Hall.
    change (b0 :: (a ++ 10 :: rest)) with ((b0 :: a) ++ 10 :: rest).
    rewrite step_app_nl by exact Hnl.
    rewrite (range_bytes_cons b0 a) by exact Ha.
    inversion Ha as [|? ? Hb0 Ha']; subst.
    destruct (step_spec b0 a Hb0) as [Hw _].
    destruct (utf8.step (b0 :: a)) as [r w]. cbn [fst snd] in *.
    rewrite skipn_app_nl by lia. cbn [app]. f_equal.
    apply (IH (length (skipn w (b0 :: a)))).
    + rewrite length_skipn. cbn [length]. lia.
    + reflexivity.
    + apply Forall_skipn, Ha.
    + exact Hrest.
    + apply not_In_skipn, Hnl.
Qed.

Lemma valid_bytes_app_nl (n : nat) : forall a rest,
  length a = n ->
  Forall (fun b => 0 <= b) a -> Forall (fun b => 0 <= b) rest ->
  ~ In 10 a ->
  utf8.valid_bytes (length (a ++ 10 :: rest)) (a ++ 10 :: rest)
  = utf8.valid_bytes (length a) a && utf8.valid_bytes (length rest) rest.
Proof.
  induction n as [n IH] using lt_wf_ind. intros a rest Hn Ha Hrest Hnl.
  destruct a as [|b0 a].
  - cbn [app]. rewrite valid_bytes_cons by (constructor; [lia | assumption]).
    reflexivity.
  - assert (Forall (fun b => 0 <= b) ((b0 :: a) ++ 10 :: rest)) as Hall.
    { apply Forall_app; split; [assumption | constructor; [lia | assumption]]. }
    change ((b0 :: a) ++ 10 :: rest) with (b0 :: (a ++ 10 :: rest)) at 1 2.
    rewrite valid_bytes_cons by exact Hall.
    change (b0 :: (a ++ 10 :: rest)) with ((b0 :: a) ++ 10 :: rest).
    rewrite step_app_nl by exact Hnl.
    rewrite (valid_bytes_cons b0 a) by exact Ha.
    inversion Ha as [|? ? Hb0 Ha']; subst.
    destruct (step_spec b0 a Hb0) as [Hw _].
    destruct (utf8.step (b0 :: a)) as [r w]. cbn [fst snd] in *.
    rewrite skipn_app_nl by lia.
    rewrite (IH (length (skipn w (b0 :: a)))
               ltac:(rewrite length_skipn; cbn [length]; lia)
               (skipn w (b0 :: a)) rest eq_refl
               (Forall_skipn _ _ _ Ha) Hrest (not_In_skipn _ _ Hnl)).
    apply andb_assoc.
Qed.

(** Encoding the runes of a well-formed byte sequence gives it back. *)
Lemma encode_range_bytes (n : nat) : forall s,
  length s = n ->
  Forall (fun b => 0 <= b) s ->
  utf8.valid_bytes (length s) s = true ->
  concat (map utf8.encoderune (utf8.range_bytes (length s) s)) = s.
Proof.
  induction n as [n IH] using lt_wf_ind. intros s Hn Hs Hv.
  destruct s as [|b0 t]; [reflexivity|].
  rewrite valid_bytes_cons in Hv by exact Hs.
  rewrite range_bytes_cons by exact Hs.
  inversion Hs as [|? ? Hb0 Ht]; subst.
  destruct (step_spec b0 t Hb0) as [Hw Henc].
  apply andb_true_iff in Hv as [Hstep Hv]. apply negb_true_iff in Hstep.
  specialize (Henc Hstep).
  destruct (utf8.step (b0 :: t)) as [r w]. cbn [fst snd] in *.
  cbn [map concat]. rewrite Henc.
  rewrite (IH (length (skipn w (b0 :: t)))).
  - apply List.firstn_skipn.
  - rewrite length_skipn. cbn [length]. lia.
  - reflexivity.
  - apply Forall_skipn, Hs.
  - exact Hv.
Qed.


(** ** Strings as byte sequences *)

Lemma bytes_app s1 s2 : utf8.bytes (s1 ++ s2) = utf8.bytes s1 ++ utf8.bytes s2.
Proof. induction s1 as [|c s1 IH]; cbn; [reflexivity | rewrite IH; reflexivity]. Qed.

Lemma length_bytes s : length (utf8.bytes s) = String.length s.
Proof. induction s as [|c s IH]; cbn; [reflexivity | rewrite IH; reflexivity]. Qed.

Lemma of_bytes_bytes s : utf8.of_bytes (utf8.bytes s) = s.
Proof.
  induction s as [|c s IH]; cbn; [reflexivity|]. rewrite IH.
  unfold utf8.ascii_of_byte, utf8.byte_of_ascii.
  rewrite N2Z.id, ascii_N_embedding. reflexivity.
Qed.

Lemma of_bytes_app l1 l2 :
  utf8.of_bytes (l1 ++ l2) = (utf8.of_bytes l1 ++ utf8.of_bytes l2)%string.
Proof. induction l1 as [|b l1 IH]; cbn; [reflexivity | rewrite IH; reflexivity]. Qed.

Lemma byte_of_newline c :
  utf8.byte_of_ascii c = 10 <-> c = strings.newline.
Proof.
  split; [|intros ->; reflexivity].
  intros H. rewrite <- (ascii_N_embedding c).
  unfold utf8.byte_of_ascii in H. replace (N_of_ascii c) with 10%N by lia.
  reflexivity.
Qed.

Lemma range_all s : utf8.range s = utf8.range_bytes (length (utf8.bytes s)) (utf8.bytes s).
Proof. unfold utf8.range. rewrite length_bytes. reflexivity. Qed.

Lemma ValidString_all s :
  utf8.ValidString s = utf8.valid_bytes (length (utf8.bytes s)) (utf8.bytes s).
Proof. unfold utf8.ValidString. rewrite length_bytes. reflexivity. Qed.

(** [string(r)] over the runes of a well-formed string gives it back. *)
Lemma encode_range s :
  utf8.ValidString s = true ->
  utf8.of_bytes (concat (map utf8.encoderune (utf8.range s))) = s.
Proof.
  intros Hv. rewrite ValidString_all in Hv. rewrite range_all.
  rewrite (encode_range_bytes _ _ eq_refl (bytes_nonneg s) Hv).
  apply of_bytes_bytes.
Qed.

(** ** Splitting and joining lines *)

Lemma Split_not_nil t : strings.Split t <> [].
Proof.
  destruct t as [|c t]; cbn; [discriminate|].
  destruct (Ascii.eqb c strings.newline); [discriminate|].
  destruct (strings.Split t); discriminate.
Qed.

Lemma Join_Split t : strings.Join (strings.Split t) = t.
Proof.
  induction t as [|c t IH]; [reflexivity|]. cbn [strings.Split].
  pose proof (Split_not_nil t) as Hne.
  destruct (Ascii.eqb_spec c strings.newline) as [->|Hc].
  - destruct (strings.Split t) as [|r rs]; [contradiction|].
    cbn [strings.Join] in *. rewrite IH. reflexivity.
  - destruct (strings.Split t) as [|r rs]; [contradiction|].
    destruct rs as [|r' rs]; cbn [strings.Join] in *; rewrite <- IH; reflexivity.
Qed.

Lemma Split_no_newline t :
  Forall (fun p => ~ In 10 (utf8.bytes p)) (strings.Split t).
Proof.
  induction t as [|c t IH]; cbn [strings.Split].
  - constructor; [intros [] | constructor].
  - destruct (Ascii.eqb_spec c strings.newline) as [->|Hc].
    + constructor; [intros [] | exact IH].
    + destruct (strings.Split t) as [|r rs]; [constructor; [|constructor]|].
      * cbn. intros [H|[]]. apply Hc, byte_of_newline, H.
      * inversion IH as [|? ? Hr Hrs]; subst. constructor; [|exact Hrs].
        cbn. intros [H|H]; [apply Hc, byte_of_newline, H | exact (Hr H)].
Qed.

Lemma bytes_Join_cons r r' rs :
  utf8.bytes (strings.Join (r :: r' :: rs))
  = utf8.bytes r ++ 10 :: utf8.bytes (strings.Join (r' :: rs)).
Proof. cbn [strings.Join]. rewrite bytes_app. reflexivity. Qed.

(** The pieces of a well-formed string are well formed. *)
Lemma ValidString_Join rows :
  Forall (fun p => ~ In 10 (utf8.bytes p)) rows ->
  utf8.ValidString (strings.Join rows) = true ->
  Forall (fun p => utf8.ValidString p = true) rows.
Proof.
  induction rows as [|r rows IH]; intros Hnl Hv; [constructor|].
  inversion Hnl as [|? ? Hr Hrows]; subst.
  destruct rows as [|r' rows]; [constructor; [exact Hv | constructor]|].
  rewrite ValidString_all, bytes_Join_cons in Hv.
  rewrite (valid_bytes_app_nl _ _ _ eq_refl (bytes_nonneg _) (bytes_nonneg _) Hr) in Hv.
  apply andb_true_iff in Hv as [Hv1 Hv2].
  constructor; [rewrite ValidString_all; exact Hv1|].
  apply IH; [exact Hrows | rewrite ValidString_all; exact Hv2].
Qed.



(** ** Slices over the heap *)

Section Slices.
Import widget.
Variable extra : nat -> nat.

Lemma cells_length h s : wf_slice h s -> length (cells h s) = len s.
Proof.
  intros [Hlen [Hcap | (a & Ha & Hoff)]]; unfold cells.
  - destruct (h !! arr s); [|cbn; lia]. rewrite length_take. lia.
  - rewrite Ha, length_take, length_drop. lia.
Qed.

Lemma cells_empty h s : len s = 0%nat -> cells h s = [].
Proof. intros H. unfold cells. rewrite H. destruct (h !! arr s); reflexivity. Qed.

(** [append] adds the cell at the end, keeps the header well formed and
    leaves alone every array below [n0] when the slice is empty or lives
    in an array from [n0] on. *)
Lemma append_spec n0 h s c :
  wf_slice h s ->
  cap s = 0%nat \/ (n0 <= arr s)%nat ->
  (n0 <= length h)%nat ->
  wf_slice (fst (append extra h s c)) (snd (append extra h s c))
  /\ (n0 <= arr (snd (append extra h s c)))%nat
  /\ (n0 <= length (fst (append extra h s c)))%nat
  /\ take n0 (fst (append extra h s c)) = take n0 h
  /\ cells (fst (append extra h s c)) (snd (append extra h s c)) = cells h s ++ [c]
  /\ len (snd (append extra h s c)) = S (len s).
Proof.
  intros Hwf Hfresh Hn0. pose proof (cells_length h s Hwf) as Hcl.
  destruct Hwf as [Hlen Harr]. unfold append.
  destruct (Nat.ltb_spec (len s) (cap s)) as [Hroom|Hfull]; cbn [fst snd arr len cap off].
  - destruct Harr as [Hcap | (a & Ha & Hoff)]; [lia|].
    destruct Hfresh as [Hcap|Hfresh]; [lia|].
    assert (arr s < length h)%nat as Harrlt by (eapply lookup_lt_Some, Ha).
    unfold wf_slice, cells; cbn [arr len cap off].
    repeat split.
    + lia.
    + right. exists (<[(off s + len s)%nat := c]> a).
      rewrite list_lookup_alter_eq, Ha. split; [reflexivity|].
      rewrite length_insert. lia.
    + exact Hfresh.
    + rewrite length_alter. exact Hn0.
    + apply list_eq. intros j.
      destruct (decide (j < n0)%nat).
      * rewrite !lookup_take_lt by assumption.
        rewrite list_lookup_alter_ne by lia. reflexivity.
      * rewrite !lookup_take_ge by lia. reflexivity.
    + rewrite list_lookup_alter_eq, Ha. cbn [fmap option_fmap option_map].
      rewrite drop_insert_ge by lia.
      replace (off s + len s - off s)%nat with (len s) by lia.
      rewrite (take_S_r _ _ c).
      * rewrite take_insert_ge by lia. reflexivity.
      * apply list_lookup_insert_eq. rewrite length_drop. lia.
  - unfold wf_slice; cbn [arr len cap off].
    repeat split.
    + lia.
    + right. eexists. rewrite lookup_app_r by lia.
      rewrite Nat.sub_diag. split; [reflexivity|].
      rewrite length_app. cbn [length]. rewrite length_replicate. lia.
    + exact Hn0.
    + rewrite length_app. lia.
    + rewrite take_app_le by lia. reflexivity.
    + unfold cells at 1. cbn [arr len cap off]. rewrite lookup_app_r by lia.
      rewrite Nat.sub_diag. cbn [lookup list_lookup]. rewrite drop_0.
      rewrite take_app_ge by lia. rewrite Hcl.
      replace (S (len s) - len s)%nat with 1%nat by lia. reflexivity.
Qed.

Lemma wf_nil_slice h : wf_slice h nil_slice.
Proof. split; [cbn; lia | left; reflexivity]. Qed.

(** A heap that only grew at its end shows the same cells. *)
Lemma cells_prefix h h' s :
  wf_slice h s -> take (length h) h' = h ->
  cells h' s = cells h s /\ wf_slice h' s.
Proof.
  intros [Hlen [Hcap | (a & Ha & Hoff)]] Hpre.
  - split; [|split; [exact Hlen | left; exact Hcap]].
    rewrite !cells_empty by lia. reflexivity.
  - assert (h' !! arr s = Some a) as Ha'.
    { rewrite <- Hpre in Ha. apply lookup_take_Some in Ha. apply Ha. }
    split; [unfold cells; rewrite Ha, Ha'; reflexivity|].
    split; [exact Hlen | right; exists a; split; assumption].
Qed.

Lemma appendRunes_spec n0 runes : forall h row,
  wf_slice h row ->
  cap row = 0%nat \/ (n0 <= arr row)%nat ->
  (n0 <= length h)%nat ->
  wf_slice (fst (appendRunes extra h row runes)) (snd (appendRunes extra h row runes))
  /\ (n0 <= length (fst (appendRunes extra h row runes)))%nat
  /\ take n0 (fst (appendRunes extra h row runes)) = take n0 h
  /\ cells (fst (appendRunes extra h row runes)) (snd (appendRunes extra h row runes))
     = cells h row ++ map (fun r => {| Rune := r; Style := None |}) runes.
Proof.
  induction runes as [|r runes IH]; intros h row Hwf Hfresh Hn0.
  - cbn. rewrite app_nil_r. auto.
  - cbn [appendRunes map].
    destruct (append_spec n0 h row {| Rune := r; Style := None |} Hwf Hfresh Hn0)
      as (Hwf1 & Hfresh1 & Hn1 & Htake1 & Hcells1 & _).
    destruct (append extra h row {| Rune := r; Style := None |}) as [h1 row1].
    cbn [fst snd] in *.
    destruct (IH h1 row1 Hwf1 (or_intror Hfresh1) Hn1) as (Hwf2 & Hn2 & Htake2 & Hcells2).
    split; [exact Hwf2 | split; [exact Hn2 | split; [congruence|]]].
    rewrite Hcells2, Hcells1, <- app_assoc. reflexivity.
Qed.

Lemma appendRows_spec rows : forall h buffer,
  Forall (wf_slice h) buffer ->
  take (length h) (fst (appendRows extra h buffer rows)) = h
  /\ Forall (wf_slice (fst (appendRows extra h buffer rows)))
            (snd (appendRows extra h buffer rows))
  /\ map (cells (fst (appendRows extra h buffer rows)))
         (snd (appendRows extra h buffer rows))
     = map (cells h) buffer
       ++ map (fun p => map (fun r => {| Rune := r; Style := None |}) (utf8.range p)) rows.
Proof.
  induction rows as [|p rows IH]; intros h buffer Hbuf.
  - cbn. rewrite app_nil_r, take_ge by lia. auto.
  - cbn [appendRows map].
    destruct (appendRunes_spec (length h) (utf8.range p) h nil_slice
                (wf_nil_slice h) (or_introl eq_refl) (le_n _))
      as (Hwf1 & Hn1 & Htake1 & Hcells1).
    destruct (appendRunes extra h nil_slice (utf8.range p)) as [h1 row1].
    cbn [fst snd] in *. rewrite (take_ge h) in Htake1 by lia.
    assert (Forall (wf_slice h1) (buffer ++ [row1])) as Hbuf1.
    { apply Forall_app. split; [|constructor; [exact Hwf1 | constructor]].
      eapply Forall_impl; [exact Hbuf|]. intros s Hs.
      apply (cells_prefix h h1 s Hs Htake1). }
    destruct (IH h1 (buffer ++ [row1]) Hbuf1) as (Htake2 & Hwf2 & Hcells2).
    split; [|split; [exact Hwf2|]].
    + rewrite <- Htake1 at 2. rewrite <- Htake2 at 2.
      rewrite take_take. f_equal. lia.
    + rewrite Hcells2, map_app. cbn [map]. rewrite Hcells1.
      rewrite (cells_empty h nil_slice eq_refl). cbn [app].
      rewrite <- app_assoc. cbn [app]. f_equal.
      apply map_ext_Forall. eapply Forall_impl; [exact Hbuf|].
      intros s Hs. apply (cells_prefix h h1 s Hs Htake1).
Qed.
End Slices.


(** ** Reading the buffer back *)

Lemma string_app_nil_r (s : string) : (s ++ "")%string = s.
Proof. induction s as [|c s IH]; cbn; [reflexivity | rewrite IH; reflexivity]. Qed.

Lemma string_app_assoc (s1 s2 s3 : string) :
  ((s1 ++ s2) ++ s3)%string = (s1 ++ (s2 ++ s3))%string.
Proof. induction s1 as [|c s1 IH]; cbn; [reflexivity | rewrite IH; reflexivity]. Qed.

Section ReadBack.
Import widget.

Lemma Text_row_spec row : forall ret,
  Text_row ret row
  = (ret ++ utf8.of_bytes (concat (map utf8.encoderune (map Rune row))))%string.
Proof.
  induction row as [|r row IH]; intros ret; cbn [Text_row map concat].
  - cbn. symmetry. apply string_app_nil_r.
  - rewrite IH. unfold utf8.string_of_rune.
    rewrite of_bytes_app, string_app_assoc. reflexivity.
Qed.

(** The string of one row. *)
Lemma Text_rows_spec h n rest : forall ret i,
  n = i + Z.of_nat (length rest) ->
  Text_rows h n ret i rest
  = (ret ++ strings.Join (map (fun row => Text_row EmptyString (cells h row)) rest))%string.
Proof.
  induction rest as [|row rest IH]; intros ret i Hn; cbn [Text_rows map].
  - cbn. symmetry. apply string_app_nil_r.
  - cbn [length] in Hn. rewrite (Text_row_spec (cells h row) ret).
    rewrite (Text_row_spec (cells h row) EmptyString). cbn [String.append].
    destruct rest as [|row' rest].
    + destruct (Z.ltb_spec i (n - 1)) as [Hlt|_]; [cbn [length] in Hn; lia|].
      rewrite IH by (cbn [length] in *; lia). cbn [map strings.Join].
      rewrite string_app_nil_r. reflexivity.
    + destruct (Z.ltb_spec i (n - 1)) as [_|Hge]; [|cbn [length] in Hn; lia].
      rewrite IH by (cbn [length] in *; lia).
      cbn [map strings.Join]. rewrite !string_app_assoc. reflexivity.
Qed.

Lemma Rune_of_runes (l : list Z) :
  map Rune (map (fun r => {| Rune := r; Style := None |}) l) = l.
Proof. induction l as [|r l IH]; cbn; [reflexivity | rewrite IH; reflexivity]. Qed.

(** The cells [SetText] stores read back as the text, row by row. *)
Lemma appendRows_Text extra t h :
  utf8.ValidString t = true ->
  map (fun row => Text_row EmptyString (cells (fst (appendRows extra h [] (strings.Split t))) row))
      (snd (appendRows extra h [] (strings.Split t)))
  = strings.Split t.
Proof.
  intros Hv.
  destruct (appendRows_spec extra (strings.Split t) h [] (Forall_nil_2 _))
    as (_ & _ & Hcells).
  cbn [map app] in Hcells.
  rewrite <- (map_map (cells _) (Text_row EmptyString)), Hcells, map_map.
  assert (Forall (fun p => utf8.ValidString p = true) (strings.Split t)) as Hvs.
  { apply ValidString_Join; [apply Split_no_newline|]. rewrite Join_Split. exact Hv. }
  rewrite <- (map_id (strings.Split t)) at 2.
  apply map_ext_Forall. eapply Forall_impl; [exact Hvs|].
  intros p Hp. cbn beta. rewrite Text_row_spec, Rune_of_runes.
  cbn [String.append]. apply encode_range, Hp.
Qed.
End ReadBack.


(** ** The renderer: painting as a list of glyphs *)

Lemma bind_Ok_inv {A B : Type} (r : result A) (k : A -> result B) b :
  bind r k = Ok b -> exists a, r = Ok a /\ k a = Ok b.
Proof. destruct r as [a| |]; cbn; intros H; [eauto | discriminate..]. Qed.

Lemma bind_ext_Ok {A B : Type} (r : result A) (k1 k2 : A -> result B) :
  (forall a, r = Ok a -> k1 a = k2 a) -> bind r k1 = bind r k2.
Proof. destruct r as [a| |]; cbn; intros H; [apply H; reflexivity | reflexivity..]. Qed.

Lemma bind_assoc {A B C : Type} (r : result A) (k1 : A -> result B) (k2 : B -> result C) :
  bind (bind r k1) k2 = bind r (fun a => bind (k1 a) k2).
Proof. destruct r; reflexivity. Qed.

Section Painting.
Import widget.
Variable th : theme.Theme.

Lemma setCellRune_frame r pos style t t' :
  setCellRune th r pos style t = Ok t' ->
  cols t' = cols t /\ rows t' = rows t /\ cellSize t' = cellSize t
  /\ length (objects t') = length (objects t).
Proof.
  unfold setCellRune. intros H.
  apply bind_Ok_inv in H as (rect & _ & H). destruct rect; [|discriminate].
  apply bind_Ok_inv in H as (txt & _ & H). destruct txt; [discriminate|].
  injection H as <-. cbn. rewrite !length_insert. auto.
Qed.

Lemma lineCountWidth_frame t t' : rows t' = rows t -> lineCountWidth t' = lineCountWidth t.
Proof. unfold lineCountWidth. intros ->. reflexivity. Qed.

Lemma paint_frame r style p p' :
  paint th r style p = Ok p' ->
  line p' = line p /\ x p' = x p + 1 /\ i p' = i p + 1
  /\ cols (pr p') = cols (pr p) /\ rows (pr p') = rows (pr p)
  /\ cellSize (pr p') = cellSize (pr p)
  /\ length (objects (pr p')) = length (objects (pr p)).
Proof.
  unfold paint. intros H. apply bind_Ok_inv in H as (t & Ht & H).
  injection H as <-. cbn. apply setCellRune_frame in Ht. tauto.
Qed.

Lemma paintAll_frame l : forall p p',
  paintAll th l p = Ok p' ->
  line p' = line p /\ x p' = x p + Z.of_nat (length l)
  /\ i p' = i p + Z.of_nat (length l)
  /\ cols (pr p') = cols (pr p) /\ rows (pr p') = rows (pr p)
  /\ cellSize (pr p') = cellSize (pr p)
  /\ length (objects (pr p')) = length (objects (pr p)).
Proof.
  induction l as [|g l IH]; intros p p' H; cbn [paintAll length] in *.
  - injection H as <-. repeat split; lia.
  - apply bind_Ok_inv in H as (p1 & H1 & H).
    apply paint_frame in H1. apply IH in H.
    destruct H1 as (? & ? & ? & ? & ? & ? & ?), H as (? & ? & ? & ? & ? & ? & ?).
    repeat split; try congruence; lia.
Qed.

Lemma paintAll_app l1 l2 p :
  paintAll th (l1 ++ l2) p = (p1 <- paintAll th l1 p ;; paintAll th l2 p1).
Proof.
  revert p. induction l1 as [|g l1 IH]; intros p; cbn [paintAll app]; [reflexivity|].
  rewrite bind_assoc. apply bind_ext_Ok. intros p1 _. apply IH.
Qed.

(** A loop that paints the same glyph while [i] is below a bound. *)
Lemma while_paint (bound : textGridRender -> Z) g :
  (forall t t', cols t' = cols t -> rows t' = rows t -> bound t' = bound t) ->
  forall n p,
    n = Z.to_nat (bound (pr p) - i p) ->
    while n (fun p => Ok (i p <? bound (pr p)))
            (fun p => paint th (fst g) (snd g) p) p
    = paintAll th (replicate n g) p.
Proof.
  intros Hb. induction n as [|n IH]; intros p Hn; cbn [while replicate paintAll bind].
  - destruct (Z.ltb_spec (i p) (bound (pr p))); [lia | reflexivity].
  - destruct (Z.ltb_spec (i p) (bound (pr p))); [|lia].
    apply bind_ext_Ok. intros p1 H1. apply IH.
    apply paint_frame in H1 as (_ & _ & Hi & Hc & Hr & _).
    rewrite (Hb _ _ Hc Hr), Hi. lia.
Qed.

(** The cells of a row: painted until the columns are used up. *)
Lemma paintCells_paintAll ws row : forall p,
  paintCells th ws row p
  = paintAll th (take (Z.to_nat (cols (pr p) - i p)) (map (cell_glyph th ws) row)) p.
Proof.
  induction row as [|r row IH]; intros p; cbn [paintCells map].
  - rewrite take_nil. reflexivity.
  - unfold paintCell at 1.
    destruct (Z.leb_spec (cols (pr p)) (i p)) as [Hfull|Hroom].
    + cbn [bind]. rewrite IH.
      replace (Z.to_nat (cols (pr p) - i p)) with 0%nat by lia. reflexivity.
    + replace (Z.to_nat (cols (pr p) - i p))
        with (S (Z.to_nat (cols (pr p) - (i p + 1)))) by lia.
      cbn [take paintAll].
      assert (paint th (fst (cell_glyph th ws r)) (snd (cell_glyph th ws r)) p
              = (if ws && (Rune r =? space)
                 then match Style r with
                      | Some st =>
                        match BackgroundColor st with
                        | Some bg =>
                          paint th textAreaSpaceSymbol
                            (Some (CustomTextGridStyle
                                     match TextGridStyleWhitespace th with
                                     | Some ws0 => TextColor ws0
                                     | None => None
                                     end (Some bg))) p
                        | None => paint th textAreaSpaceSymbol (TextGridStyleWhitespace th) p
                        end
                      | None => paint th textAreaSpaceSymbol (TextGridStyleWhitespace th) p
                      end
                 else paint th (Rune r) (Style r) p)) as ->.
      { unfold cell_glyph. destruct (ws && (Rune r =? space)); [|reflexivity].
        destruct (Style r) as [st|]; [|reflexivity].
        destruct (BackgroundColor st); reflexivity. }
      apply bind_ext_Ok. intros p1 H1. rewrite IH.
      assert (exists g, paint th (fst g) (snd g) p = Ok p1) as [g Hg].
      { destruct (ws && (Rune r =? space)); [|eexists (_, _); exact H1].
        destruct (Style r) as [st|]; [|eexists (_, _); exact H1].
        destruct (BackgroundColor st); eexists (_, _); exact H1. }
      apply paint_frame in Hg as (_ & _ & Hi & Hc & _).
      rewrite Hc, Hi. reflexivity.
Qed.
End Painting.


Section PaintingRows.
Import widget.
Variable th : theme.Theme.

Lemma index_lookup {A : Type} (l : list A) (c : nat) (a : A) :
  l !! c = Some a -> index l (Z.of_nat c) = Ok a.
Proof.
  intros H. unfold index. destruct (Z.ltb_spec (Z.of_nat c) 0); [lia|].
  rewrite Nat2Z.id, H. reflexivity.
Qed.

Lemma digits_loop ds : forall n c p,
  (c + n = length ds)%nat ->
  while n (fun '(c, _) => Ok (c <? Z.of_nat (length ds)))
          (fun '(c, p) =>
             r <- index ds c ;;
             p <- paint th r (TextGridStyleWhitespace th) p ;;
             Ok (c + 1, p))
          (Z.of_nat c, p)
  = (p' <- paintAll th (map (fun d => (d, TextGridStyleWhitespace th)) (drop c ds)) p ;;
     Ok (Z.of_nat (length ds), p')).
Proof.
  induction n as [|n IH]; intros c p Hc; cbn [while bind].
  - destruct (Z.ltb_spec (Z.of_nat c) (Z.of_nat (length ds))); [lia|].
    rewrite drop_ge by lia. cbn. do 2 f_equal. lia.
  - destruct (Z.ltb_spec (Z.of_nat c) (Z.of_nat (length ds))); [|lia].
    destruct (lookup_lt_is_Some_2 ds c ltac:(lia)) as [d Hd].
    rewrite (index_lookup _ _ _ Hd). cbn [bind].
    rewrite (drop_S _ _ _ Hd). cbn [map paintAll fst snd].
    rewrite !bind_assoc. apply bind_ext_Ok. intros p1 _. cbn [bind].
    replace (Z.of_nat c + 1) with (Z.of_nat (S c)) by lia.
    apply IH. lia.
Qed.

Lemma paintGutter_paintAll p :
  i p = 0 ->
  paintGutter th p = paintAll th (gutter_glyphs th (pr p) (line p)) p.
Proof.
  intros Hi. unfold paintGutter, gutter_glyphs.
  set (ds := utf8.range (Sprintf_d (line p))).
  pose proof (digits_loop ds (length ds) 0 p eq_refl) as Hd.
  change (Z.of_nat 0) with 0 in Hd. rewrite Hd, drop_0. clear Hd.
  rewrite !paintAll_app, !bind_assoc. apply bind_ext_Ok. intros p1 H1.
  cbn [bind snd]. apply paintAll_frame in H1 as (_ & _ & Hi1 & _ & Hr1 & _).
  rewrite length_map in Hi1.
  pose proof (while_paint th lineCountWidth (space, TextGridStyleWhitespace th)
             (fun t t' _ Hr => lineCountWidth_frame t t' Hr) _ p1 eq_refl) as Hw.
  cbn [fst snd] in Hw. rewrite Hw. clear Hw.
  rewrite (lineCountWidth_frame _ _ Hr1), Hi1, Hi, Z.add_0_l.
  rewrite paintAll_app.
  apply bind_ext_Ok. intros p2 _. cbn [paintAll fst snd].
  destruct (paint th 124 (TextGridStyleWhitespace th) p2); reflexivity.
Qed.

Lemma paintRow_paintAll w rowIndex row p :
  line p = rowIndex + 1 ->
  paintRow th w rowIndex row p
  = (p' <- paintAll th (row_glyphs th w (pr p) rowIndex row)
             {| line := line p; x := x p; i := 0; pr := pr p |} ;;
     Ok {| line := line p' + 1; x := x p'; i := i p'; pr := pr p' |}).
Proof.
  intros Hline. unfold paintRow, row_glyphs.
  set (p0 := {| line := line p; x := x p; i := 0; pr := pr p |}).
  set (g := if LineNumbers (text w) then gutter_glyphs th (pr p) (rowIndex + 1) else []).
  assert ((if LineNumbers (text w) then paintGutter th p0 else Ok p0)
          = paintAll th g p0) as ->.
  { subst g. destruct (LineNumbers (text w)); [|reflexivity].
    rewrite paintGutter_paintAll by reflexivity. cbn [pr line p0]. rewrite Hline.
    reflexivity. }
  rewrite !paintAll_app, !bind_assoc. apply bind_ext_Ok. intros p1 H1.
  apply paintAll_frame in H1 as (_ & _ & Hi1 & Hc1 & _). cbn [i pr p0] in Hi1, Hc1.
  rewrite paintCells_paintAll, Hc1, Hi1, Z.add_0_l.
  set (cs := take _ _).
  rewrite !paintAll_app, !bind_assoc.
  apply bind_ext_Ok. intros p2 H2.
  apply paintAll_frame in H2 as (_ & _ & Hi2 & Hc2 & _).
  rewrite Hc2, Hc1, Hi2, Hi1, Z.add_0_l, <- Nat2Z.inj_add.
  set (nl := if Whitespace (text w) && (Z.of_nat (length g + length cs) <? cols (pr p))
                && (rowIndex <? Z.of_nat (length (Content (text w))) - 1)
             then [(textAreaNewLineSymbol, TextGridStyleWhitespace th)] else []).
  assert ((if Whitespace (text w) && (Z.of_nat (length g + length cs) <? cols (pr p))
              && (rowIndex <? Z.of_nat (length (Content (text w))) - 1)
           then paint th textAreaNewLineSymbol (TextGridStyleWhitespace th) p2
           else Ok p2) = paintAll th nl p2) as ->.
  { subst nl. destruct (_ && _ && _); cbn [paintAll fst snd]; [|reflexivity].
    destruct (paint th _ _ p2); reflexivity. }
  rewrite !paintAll_app, !bind_assoc.
  apply bind_ext_Ok. intros p3 H3.
  apply paintAll_frame in H3 as (_ & _ & Hi3 & Hc3 & _).
  pose proof (while_paint th cols (space, TextGridStyleDefault)
             (fun t t' Hc _ => Hc) _ p3 eq_refl) as Hw.
  cbn [fst snd] in Hw. rewrite Hw. clear Hw.
  rewrite Hc3, Hc2, Hc1, Hi3, Hi2, Hi1, Z.add_0_l, <- !Nat2Z.inj_add.
  reflexivity.
Qed.
End PaintingRows.


Section PaintingGrid.
Import widget.
Variable th : theme.Theme.

Lemma view_paintAll l : forall p,
  view (paintAll th l p) = drawAll th l (x p) (pr p).
Proof.
  induction l as [|g l IH]; intros p; cbn [paintAll drawAll]; [reflexivity|].
  unfold view, paint in *. rewrite !bind_assoc. apply bind_ext_Ok. intros t _.
  cbn [bind]. apply IH.
Qed.

Lemma drawAll_app l1 l2 x t :
  drawAll th (l1 ++ l2) x t
  = (r <- drawAll th l1 x t ;; drawAll th l2 (fst r) (snd r)).
Proof.
  revert x t. induction l1 as [|g l1 IH]; intros x t; cbn [drawAll app]; [reflexivity|].
  rewrite bind_assoc. apply bind_ext_Ok. intros t1 _. apply IH.
Qed.

Lemma drawAll_frame l : forall x t x' t',
  drawAll th l x t = Ok (x', t') ->
  x' = x + Z.of_nat (length l)
  /\ cols t' = cols t /\ rows t' = rows t /\ cellSize t' = cellSize t
  /\ length (objects t') = length (objects t).
Proof.
  induction l as [|g l IH]; intros x t x' t' H; cbn [drawAll length] in *.
  - injection H as <- <-. repeat split; lia.
  - apply bind_Ok_inv in H as (t1 & H1 & H).
    apply setCellRune_frame in H1. apply IH in H.
    destruct H1 as (? & ? & ? & ?), H as (? & ? & ? & ? & ?).
    repeat split; try congruence; lia.
Qed.

Lemma row_glyphs_frame w t t' rowIndex row :
  cols t' = cols t -> rows t' = rows t ->
  row_glyphs th w t' rowIndex row = row_glyphs th w t rowIndex row.
Proof.
  intros Hc Hr. unfold row_glyphs, gutter_glyphs.
  rewrite Hc, (lineCountWidth_frame _ _ Hr). reflexivity.
Qed.

Lemma rows_glyphs_frame w t t' rest : forall rowIndex,
  cols t' = cols t -> rows t' = rows t ->
  rows_glyphs th w t' rowIndex rest = rows_glyphs th w t rowIndex rest.
Proof.
  induction rest as [|row rest IH]; intros rowIndex Hc Hr; cbn [rows_glyphs];
    [reflexivity|].
  rewrite Hr, (row_glyphs_frame w t t' _ _ Hc Hr), (IH _ Hc Hr). reflexivity.
Qed.

Lemma view_paintRow w rowIndex row p :
  line p = rowIndex + 1 ->
  view (paintRow th w rowIndex row p)
  = drawAll th (row_glyphs th w (pr p) rowIndex row) (x p) (pr p).
Proof.
  intros Hline. rewrite paintRow_paintAll by exact Hline.
  rewrite <- (view_paintAll _ {| line := line p; x := x p; i := 0; pr := pr p |}).
  unfold view. rewrite bind_assoc. reflexivity.
Qed.

Lemma view_paintRows w rest : forall rowIndex p,
  line p = rowIndex + 1 ->
  view (paintRows th w rowIndex rest p)
  = drawAll th (rows_glyphs th w (pr p) rowIndex rest) (x p) (pr p).
Proof.
  induction rest as [|row rest IH]; intros rowIndex p Hline;
    cbn [paintRows rows_glyphs]; [reflexivity|].
  destruct (rows (pr p) <=? rowIndex); [reflexivity|].
  rewrite drawAll_app, <- (view_paintRow w rowIndex row p Hline).
  unfold view at 1 2. rewrite !bind_assoc. apply bind_ext_Ok. intros p1 H1.
  cbn [bind fst snd]. fold (view (paintRows th w (rowIndex + 1) rest p1)).
  assert (line p1 = rowIndex + 1 + 1 /\ cols (pr p1) = cols (pr p)
          /\ rows (pr p1) = rows (pr p)) as (Hl1 & Hc1 & Hr1).
  { rewrite paintRow_paintAll in H1 by exact Hline.
    apply bind_Ok_inv in H1 as (p' & H' & H1). injection H1 as <-.
    apply paintAll_frame in H' as (Hl & _ & _ & Hc & Hr & _). cbn in *.
    repeat split; [lia | exact Hc | exact Hr]. }
  rewrite (IH _ _ Hl1), (rows_glyphs_frame w _ _ rest _ Hc1 Hr1). reflexivity.
Qed.

(** The blanks after the last row. *)
Lemma trailing_blanks n : forall p,
  n = Z.to_nat (Z.of_nat (length (objects (pr p))) / 2 - x p) ->
  view (while n
          (fun p => Ok (x p <? Z.of_nat (length (objects (pr p))) / 2))
          (fun p => t <- setCellRune th space (x p) TextGridStyleDefault (pr p) ;;
                    Ok {| line := line p; x := x p + 1; i := i p; pr := t |})
          p)
  = drawAll th (replicate n (space, TextGridStyleDefault)) (x p) (pr p).
Proof.
  induction n as [|n IH]; intros p Hn; cbn [while replicate drawAll bind].
  - destruct (Z.ltb_spec (x p) (Z.of_nat (length (objects (pr p))) / 2));
      [lia | reflexivity].
  - destruct (Z.ltb_spec (x p) (Z.of_nat (length (objects (pr p))) / 2)); [|lia].
    unfold view. rewrite !bind_assoc. cbn [fst snd]. apply bind_ext_Ok. intros t Ht.
    cbn [bind]. apply setCellRune_frame in Ht as (_ & _ & _ & Hlen).
    apply (IH {| line := line p; x := x p + 1; i := i p; pr := t |}).
    cbn [pr x]. rewrite Hlen. lia.
Qed.

(** [refreshGrid] sets the primitives to the glyphs of the grid. *)
Lemma refreshGrid_drawAll w :
  refreshGrid th w
  = (r <- drawAll th (grid_glyphs th w) 0 (render w) ;; Ok (set_render w (snd r))).
Proof.
  unfold refreshGrid, grid_glyphs.
  set (p0 := {| line := 1; x := 0; i := 0; pr := render w |}).
  rewrite drawAll_app.
  change (drawAll th (rows_glyphs th w (render w) 0 (Content (text w))) 0 (render w))
    with (drawAll th (rows_glyphs th w (pr p0) 0 (Content (text w))) (x p0) (pr p0)).
  rewrite <- (view_paintRows w _ 0 p0 eq_refl).
  unfold view at 1. rewrite !bind_assoc. apply bind_ext_Ok. intros p1 H1.
  cbn [bind fst snd].
  assert (x p1 = Z.of_nat (length (rows_glyphs th w (render w) 0 (Content (text w))))
          /\ length (objects (pr p1)) = length (objects (render w))) as [Hx Hlen].
  { pose proof (view_paintRows w (Content (text w)) 0 p0 eq_refl) as Hv.
    rewrite H1 in Hv. cbn in Hv. symmetry in Hv.
    apply drawAll_frame in Hv as (Hx & _ & _ & _ & Hlen). split; [lia | exact Hlen]. }
  rewrite <- Hx, <- Hlen.
  rewrite <- (trailing_blanks _ p1 eq_refl).
  unfold view. rewrite bind_assoc. apply bind_ext_Ok. intros p2 _. reflexivity.
Qed.
End PaintingGrid.


Section Pool.
Import widget.
Variable th : theme.Theme.

Lemma pool_ok_lookup o (k : nat) :
  pool_ok o -> (2 * k + 1 < length o)%nat ->
  exists c p s t c' p' s',
    o !! (2 * k)%nat = Some (canvas.Rectangle c p s)
    /\ o !! (2 * k + 1)%nat = Some (canvas.Text t c' p' s').
Proof.
  intros [_ Hok] Hk.
  destruct (lookup_lt_is_Some_2 o (2 * k) ltac:(lia)) as [a Ha].
  destruct (lookup_lt_is_Some_2 o (2 * k + 1) ltac:(lia)) as [b Hb].
  pose proof (Hok _ _ Ha) as Hra. pose proof (Hok _ _ Hb) as Hrb.
  rewrite Nat.even_mul in Hra. cbn in Hra.
  replace (2 * k + 1)%nat with (S (2 * k)) in Hrb by lia.
  rewrite Nat.even_succ, <- Nat.negb_even, Nat.even_mul in Hrb. cbn in Hrb.
  destruct a; [|discriminate]. destruct b; [discriminate|]. eauto 10.
Qed.

Lemma pool_ok_insert o (j : nat) x y :
  pool_ok o -> o !! j = Some x -> is_rectangle y = is_rectangle x ->
  pool_ok (<[j := y]> o).
Proof.
  intros [Hev Hok] Hj Hxy. split; [rewrite length_insert; exact Hev|].
  intros k z Hz. destruct (decide (j = k)) as [->|Hne].
  - rewrite list_lookup_insert_eq in Hz by (eapply lookup_lt_Some, Hj).
    injection Hz as <-. rewrite Hxy. apply Hok, Hj.
  - rewrite list_lookup_insert_ne in Hz by exact Hne. apply Hok, Hz.
Qed.

(** Inside the pool [setCellRune] sets the pair at [pos] and no other. *)
Lemma setCellRune_in r (pos : nat) style t :
  pool_ok (objects t) -> (2 * pos + 1 < length (objects t))%nat ->
  exists t', setCellRune th r (Z.of_nat pos) style t = Ok t'
    /\ pool_ok (objects t')
    /\ shown (objects t') pos = Some (look th (r, style))
    /\ forall k, k <> pos -> shown (objects t') k = shown (objects t) k.
Proof.
  intros Hok Hpos.
  destruct (pool_ok_lookup _ pos Hok Hpos) as (c & p & s & tx & c' & p' & s' & Hr & Ht).
  unfold setCellRune.
  replace (Z.of_nat pos * 2) with (Z.of_nat (2 * pos)) by lia.
  replace (Z.of_nat (2 * pos) + 1) with (Z.of_nat (2 * pos + 1)) by lia.
  rewrite (index_lookup _ _ _ Hr). cbn [bind].
  rewrite (index_lookup _ _ _ Ht). cbn [bind]. rewrite !Nat2Z.id.
  eexists. split; [reflexivity|]. cbn [objects set_objects].
  split; [|split].
  - apply (pool_ok_insert _ _ (canvas.Rectangle c p s));
      [apply (pool_ok_insert _ _ (canvas.Text tx c' p' s'));
         [exact Hok | exact Ht | reflexivity]
      | rewrite list_lookup_insert_ne by lia; exact Hr
      | reflexivity].
  - unfold shown. rewrite list_lookup_insert_eq by (rewrite length_insert; lia).
    rewrite list_lookup_insert_ne by lia.
    rewrite list_lookup_insert_eq by lia. reflexivity.
  - intros k Hk. unfold shown.
    rewrite !list_lookup_insert_ne by lia. reflexivity.
Qed.

(** Outside of it [setCellRune] panics. *)
Lemma setCellRune_out r pos style t :
  pool_ok (objects t) ->
  pos < 0 \/ Z.of_nat (length (objects t)) <= 2 * pos ->
  setCellRune th r pos style t = Panic.
Proof.
  intros Hok Hpos. unfold setCellRune, index.
  destruct (Z.ltb_spec (pos * 2) 0); [reflexivity|].
  rewrite (lookup_ge_None_2 (objects t) (Z.to_nat (pos * 2))) by lia. reflexivity.
Qed.

(** Glyphs that fit in the pool are all set, and nothing else changes. *)
Lemma drawAll_fits l : forall (x : nat) t,
  pool_ok (objects t) ->
  (2 * (x + length l) <= length (objects t))%nat ->
  exists t', drawAll th l (Z.of_nat x) t = Ok (Z.of_nat (x + length l), t')
    /\ pool_ok (objects t')
    /\ (forall k g, l !! k = Some g -> shown (objects t') (x + k) = Some (look th g))
    /\ (forall k, (k < x \/ x + length l <= k)%nat ->
                  shown (objects t') k = shown (objects t) k).
Proof.
  induction l as [|g l IH]; intros x t Hok Hfit; cbn [drawAll length] in *.
  - exists t. rewrite Nat.add_0_r.
    split; [reflexivity | split; [exact Hok | split]].
    + intros k g Hk. discriminate Hk.
    + reflexivity.
  - destruct (setCellRune_in (fst g) x (snd g) t Hok ltac:(lia))
      as (t1 & H1 & Hok1 & Hshown1 & Hother1).
    rewrite H1. cbn [bind].
    pose proof (setCellRune_frame _ _ _ _ _ _ H1) as (_ & _ & _ & Hlen1).
    replace (Z.of_nat x + 1) with (Z.of_nat (S x)) by lia.
    destruct (IH (S x) t1 Hok1 ltac:(lia)) as (t' & H' & Hok' & Hshown' & Hother').
    exists t'. rewrite H'. replace (S x + length l)%nat with (x + S (length l))%nat by lia.
    split; [reflexivity | split; [exact Hok' | split]].
    + intros [|k] g' Hk.
      * injection Hk as <-. rewrite Nat.add_0_r, Hother' by lia.
        rewrite Hshown1. destruct g; reflexivity.
      * replace (x + S k)%nat with (S x + k)%nat by lia. apply Hshown', Hk.
    + intros k Hk. rewrite Hother' by lia. apply Hother1. lia.
Qed.

(** Glyphs that do not fit make the pass panic. *)
Lemma drawAll_overflow l : forall (x : nat) t,
  pool_ok (objects t) ->
  (2 * x <= length (objects t))%nat ->
  (length (objects t) < 2 * (x + length l))%nat ->
  drawAll th l (Z.of_nat x) t = Panic.
Proof.
  induction l as [|g l IH]; intros x t Hok Hx Hfit; cbn [drawAll length] in *.
  - lia.
  - destruct (le_lt_dec (length (objects t)) (2 * x)) as [Hle|Hgt].
    + rewrite setCellRune_out by (assumption || (right; lia)). reflexivity.
    + assert (2 * x + 1 < length (objects t))%nat as Hin.
      { destruct Hok as [Hev _].
        destruct (Nat.even_spec (length (objects t))) as [[m Hm] _]; [exact Hev|]. lia. }
      destruct (setCellRune_in (fst g) x (snd g) t Hok Hin) as (t1 & H1 & Hok1 & _).
      rewrite H1. cbn [bind].
      pose proof (setCellRune_frame _ _ _ _ _ _ H1) as (_ & _ & _ & Hlen1).
      replace (Z.of_nat x + 1) with (Z.of_nat (S x)) by lia.
      apply IH; [exact Hok1 | lia | lia].
Qed.
End Pool.


Section EnsureGrid.
Import widget.
Variable th : theme.Theme.

Lemma pool_ok_appendTextCell r t :
  pool_ok (objects t) -> pool_ok (objects (appendTextCell th r t)).
Proof.
  intros [Hev Hok]. cbn [appendTextCell objects set_objects].
  destruct (Nat.even_spec (length (objects t))) as [[m Hm] _]; [exact Hev|].
  split.
  - rewrite length_app. cbn [length]. rewrite Hm.
    replace (2 * m + 2)%nat with (2 * (m + 1))%nat by lia.
    rewrite Nat.even_mul. reflexivity.
  - intros k z Hz. apply lookup_app_Some in Hz as [Hz|[Hge Hz]]; [apply Hok, Hz|].
    remember (k - length (objects t))%nat as d eqn:Hd.
    destruct d as [|[|d]]; cbn in Hz; [| |discriminate].
    + injection Hz as <-. replace k with (2 * m)%nat by lia.
      rewrite Nat.even_mul. reflexivity.
    + injection Hz as <-. replace k with (S (2 * m))%nat by lia.
      rewrite Nat.even_succ, <- Nat.negb_even, Nat.even_mul. reflexivity.
Qed.

Lemma ensureGrid_loop (m : nat) n : forall t,
  pool_ok (objects t) ->
  (2 * m - length (objects t) <= n)%nat ->
  exists t',
    while n (fun '(i, _) => Ok (i <? Z.of_nat m * 2))
            (fun '(i, t) => Ok (i + 2, appendTextCell th space t))
            (Z.of_nat (length (objects t)), t)
    = Ok (Z.of_nat (length (objects t')), t')
    /\ cols t' = cols t /\ rows t' = rows t /\ cellSize t' = cellSize t
    /\ pool_ok (objects t')
    /\ length (objects t') = Nat.max (length (objects t)) (2 * m)
    /\ take (length (objects t)) (objects t') = objects t.
Proof.
  induction n as [|n IH]; intros t Hok Hn; cbn [while bind].
  - destruct (Z.ltb_spec (Z.of_nat (length (objects t))) (Z.of_nat m * 2)); [lia|].
    exists t. rewrite take_ge by lia. repeat split; try assumption; try lia; apply Hok.
  - destruct (Z.ltb_spec (Z.of_nat (length (objects t))) (Z.of_nat m * 2)) as [Hlt|Hge].
    + pose proof (pool_ok_appendTextCell space t Hok) as Hok1.
      assert (length (objects (appendTextCell th space t)) = length (objects t) + 2)%nat
        as Hlen1 by (cbn; rewrite length_app; reflexivity).
      assert (length (objects t) + 2 <= 2 * m)%nat as Hroom.
      { destruct Hok as [Hev _].
        destruct (Nat.even_spec (length (objects t))) as [[k Hk] _]; [exact Hev|]. lia. }
      destruct (IH (appendTextCell th space t) Hok1 ltac:(lia))
        as (t' & Hw & Hc & Hr & Hs & Hok' & Hlen' & Hpre').
      exists t'. rewrite Hlen1 in Hw.
      replace (Z.of_nat (length (objects t)) + 2)
        with (Z.of_nat (length (objects t) + 2)) by lia.
      rewrite Hw. split; [reflexivity|]. split; [exact Hc|]. split; [exact Hr|].
      split; [exact Hs|]. split; [exact Hok'|]. split; [lia|].
      rewrite Hlen1 in Hpre'.
      apply (f_equal (take (length (objects t)))) in Hpre'.
      rewrite take_take in Hpre'.
      replace (length (objects t) `min` (length (objects t) + 2))%nat
        with (length (objects t)) in Hpre' by lia.
      rewrite Hpre'. cbn. rewrite take_app_length. reflexivity.
    + exists t. rewrite take_ge by lia. repeat split; try assumption; try lia; apply Hok.
Qed.

(** [ensureGrid] grows the pool to the cell count and never shrinks it. *)
Lemma ensureGrid_spec t :
  pool_ok (objects t) -> 0 <= cols t * rows t ->
  exists t', ensureGrid th t = Ok t'
    /\ cols t' = cols t /\ rows t' = rows t /\ cellSize t' = cellSize t
    /\ pool_ok (objects t')
    /\ Z.of_nat (length (objects t'))
       = Z.max (Z.of_nat (length (objects t))) (2 * (cols t * rows t))
    /\ take (length (objects t)) (objects t') = objects t.
Proof.
  intros Hok Hcc. unfold ensureGrid.
  destruct (Z.eqb_spec (Z.of_nat (length (objects t))) (cols t * rows t * 2)) as [He|Hne].
  - exists t. rewrite take_ge by lia. repeat split; try lia; apply Hok.
  - destruct (ensureGrid_loop (Z.to_nat (cols t * rows t))
                (Z.to_nat (cols t * rows t * 2 - Z.of_nat (length (objects t)))) t Hok
                ltac:(lia))
      as (t' & Hw & Hc & Hr & Hs & Hok' & Hlen' & Hpre').
    rewrite Z2Nat.id in Hw by exact Hcc. rewrite Hw. cbn [bind snd].
    exists t'. repeat split; try assumption; try lia; apply Hok'.
Qed.
End EnsureGrid.


Section RefreshFits.
Import widget.
Variable th : theme.Theme.

Lemma gutter_fits_frame w w' t t' :
  text w' = text w -> cols t' = cols t -> rows t' = rows t ->
  gutter_fits th w t -> gutter_fits th w' t'.
Proof.
  intros Ht Hc Hr H r Hrange. rewrite Ht, Hc. unfold gutter_glyphs.
  rewrite (lineCountWidth_frame _ _ Hr). apply (H r). lia.
Qed.

Lemma gutter_fits_plain w t :
  LineNumbers (text w) = false -> 0 <= cols t -> gutter_fits th w t.
Proof. intros HLN Hc r _. rewrite HLN. cbn. exact Hc. Qed.

(** A row whose gutter fits takes exactly [cols] primitives, the gutter
    first. *)
Lemma row_glyphs_length w t rowIndex row :
  Z.of_nat (length (if LineNumbers (text w)
                    then gutter_glyphs th t (rowIndex + 1) else [])) <= cols t ->
  length (row_glyphs th w t rowIndex row) = Z.to_nat (cols t)
  /\ forall k g,
       (if LineNumbers (text w) then gutter_glyphs th t (rowIndex + 1) else []) !! k = Some g ->
       row_glyphs th w t rowIndex row !! k = Some g.
Proof.
  intros Hg. unfold row_glyphs.
  set (g := if LineNumbers (text w) then gutter_glyphs th t (rowIndex + 1) else []) in *.
  set (cs := take _ _).
  assert (length cs <= Z.to_nat (cols t - Z.of_nat (length g)))%nat as Hcs.
  { subst cs. rewrite length_take. lia. }
  clearbody cs g. split; [|intros k x Hk; apply lookup_app_l_Some, Hk].
  destruct (Whitespace (text w) && (Z.of_nat (length g + length cs) <? cols t)
            && (rowIndex <? Z.of_nat (length (Content (text w))) - 1)) eqn:E;
    rewrite !length_app, length_replicate; cbn [length]; [|lia].
  apply andb_true_iff in E as [E _]. apply andb_true_iff in E as [_ E].
  apply Z.ltb_lt in E. lia.
Qed.

Lemma rows_glyphs_length w t rest : forall rowIndex,
  0 <= rowIndex -> gutter_fits th w t ->
  (length (rows_glyphs th w t rowIndex rest)
   <= Z.to_nat (cols t) * Z.to_nat (rows t - rowIndex))%nat.
Proof.
  induction rest as [|row rest IH]; intros rowIndex Hri Hg; cbn [rows_glyphs length];
    [apply Nat.le_0_l|].
  destruct (Z.leb_spec (rows t) rowIndex); [apply Nat.le_0_l|].
  destruct (row_glyphs_length w t rowIndex row (Hg rowIndex ltac:(lia))) as [Hlen _].
  rewrite length_app, Hlen.
  specialize (IH (rowIndex + 1) ltac:(lia) Hg).
  replace (Z.to_nat (rows t - rowIndex)) with (S (Z.to_nat (rows t - (rowIndex + 1))))
    by lia.
  lia.
Qed.

(** Where the glyphs of a row are among those of the rows. *)
Lemma rows_glyphs_lookup w t rest : forall rowIndex (j : nat) row k g,
  0 <= rowIndex -> gutter_fits th w t ->
  rest !! j = Some row -> rowIndex + Z.of_nat j < rows t ->
  row_glyphs th w t (rowIndex + Z.of_nat j) row !! k = Some g ->
  rows_glyphs th w t rowIndex rest !! (j * Z.to_nat (cols t) + k)%nat = Some g.
Proof.
  induction rest as [|row0 rest IH]; intros rowIndex j row k g Hri Hg Hj Hlt Hk;
    [discriminate Hj|].
  cbn [rows_glyphs]. destruct (Z.leb_spec (rows t) rowIndex); [lia|].
  destruct (row_glyphs_length w t rowIndex row0 (Hg rowIndex ltac:(lia))) as [Hlen _].
  destruct j as [|j].
  - injection Hj as ->. rewrite Z.add_0_r in Hk. cbn [Nat.mul Nat.add].
    apply lookup_app_l_Some, Hk.
  - cbn [lookup list_lookup] in Hj.
    rewrite lookup_app_r by (rewrite Hlen; lia). rewrite Hlen.
    replace (S j * Z.to_nat (cols t) + k - Z.to_nat (cols t))%nat
      with (j * Z.to_nat (cols t) + k)%nat by lia.
    apply (IH (rowIndex + 1) j row k g ltac:(lia) Hg Hj ltac:(lia)).
    replace (rowIndex + 1 + Z.of_nat j) with (rowIndex + Z.of_nat (S j)) by lia.
    exact Hk.
Qed.

Lemma grid_glyphs_length w :
  length (grid_glyphs th w)
  = Nat.max (length (rows_glyphs th w (render w) 0 (Content (text w))))
            (Z.to_nat (Z.of_nat (length (objects (render w))) / 2)).
Proof. unfold grid_glyphs. rewrite length_app, length_replicate. lia. Qed.

(** A pass that returns leaves the buffer alone. *)
Lemma Refresh_frame w w' :
  Refresh th w = Ok w' -> heap w' = heap w /\ text w' = text w.
Proof.
  unfold Refresh. intros H. apply bind_Ok_inv in H as (t & _ & H).
  rewrite refreshGrid_drawAll in H. apply bind_Ok_inv in H as (r & _ & H).
  injection H as <-. split; reflexivity.
Qed.

(** When the gutters fit the pass returns, with every primitive pair
    showing its glyph. *)
Lemma Refresh_fits w :
  render_ok (render w) -> gutter_fits th w (render w) ->
  exists w' t,
    ensureGrid th (render w) = Ok t
    /\ cols t = cols (render w) /\ rows t = rows (render w)
    /\ Refresh th w = Ok w'
    /\ heap w' = heap w /\ text w' = text w
    /\ render_ok (render w')
    /\ cols (render w') = cols (render w) /\ rows (render w') = rows (render w)
    /\ length (objects (render w')) = length (objects t)
    /\ forall k g, grid_glyphs th (set_render w t) !! k = Some g ->
                   shown (objects (render w')) k = Some (look th g).
Proof.
  intros (Hc & Hr & Hok & Hlen & Hcw & Hch) Hg.
  destruct (ensureGrid_spec th (render w) Hok ltac:(nia))
    as (t & Het & Hct & Hrt & Hst & Hokt & Hlent & _).
  unfold Refresh. rewrite Het. cbn [bind]. rewrite refreshGrid_drawAll.
  set (w1 := set_render w t).
  assert (gutter_fits th w1 t) as Hg1
    by (apply (gutter_fits_frame w w1 (render w) t eq_refl Hct Hrt Hg)).
  assert (2 * (0 + length (grid_glyphs th w1)) <= length (objects t))%nat as Hfit.
  { rewrite grid_glyphs_length. cbn [render w1 set_render text].
    pose proof (rows_glyphs_length w1 t (Content (text w)) 0 ltac:(lia) Hg1) as Hrows.
    destruct Hokt as [Hev _].
    destruct (Nat.even_spec (length (objects t))) as [[m Hm] _]; [exact Hev|].
    rewrite Hm in *.
    replace (Z.of_nat (2 * m) / 2) with (Z.of_nat m)
      by (rewrite Nat2Z.inj_mul, Z.mul_comm, Z.div_mul; lia).
    rewrite Nat2Z.id.
    assert (Z.to_nat (cols t) * Z.to_nat (rows t - 0) <= m)%nat by nia.
    lia. }
  destruct (drawAll_fits th (grid_glyphs th w1) 0 t Hokt Hfit)
    as (t' & Hd & Hok' & Hshown & _).
  change (Z.of_nat 0) with 0 in Hd. cbn [render w1 set_render] in Hd |- *.
  fold w1. rewrite Hd. cbn [bind snd].
  pose proof (drawAll_frame _ _ _ _ _ _ Hd) as (_ & Hc' & Hr' & Hs' & Hlen').
  exists (set_render w1 t'), t. cbn [render heap text set_render w1].
  split; [reflexivity|]. split; [exact Hct|]. split; [exact Hrt|].
  split; [reflexivity|]. split; [reflexivity|].
  split; [reflexivity|]. split.
  { unfold render_ok. rewrite Hs', Hst.
    repeat split; try exact Hok'; try (apply Hok'); try assumption; try lia; nia. }
  split; [congruence|]. split; [congruence|]. split; [exact Hlen'|].
  intros k g Hk. apply (Hshown k g Hk).
Qed.

(** Without line numbers the pass returns. *)
Lemma Refresh_plain w :
  render_ok (render w) -> LineNumbers (text w) = false ->
  exists w', Refresh th w = Ok w'.
Proof.
  intros Hok HLN.
  destruct (Refresh_fits w Hok (gutter_fits_plain w _ HLN ltac:(apply Hok)))
    as (w' & _ & _ & _ & _ & H & _).
  exists w'. exact H.
Qed.
End RefreshFits.


(** ** The buffer: [SetText] and [Text] *)

Section SetTextProps.
Import widget.
Variables (extra : nat -> nat) (th : theme.Theme).

(** [SetText] is the replacement of the buffer followed by a pass of the
    renderer. *)
Lemma SetText_Ok t w w' :
  SetText extra th t w = Ok w' ->
  heap w' = fst (appendRows extra (heap w) [] (strings.Split t))
  /\ Content (text w') = snd (appendRows extra (heap w) [] (strings.Split t)).
Proof.
  unfold SetText, BaseWidget_Refresh.
  destruct (appendRows extra (heap w) [] (strings.Split t)) as [h buffer].
  intros H. apply Refresh_frame in H as [Hh Ht]. rewrite Hh, Ht. split; reflexivity.
Qed.

Lemma SetText_returns t w :
  render_ok (render w) -> LineNumbers (text w) = false ->
  exists w', SetText extra th t w = Ok w'.
Proof.
  intros Hok HLN. unfold SetText, BaseWidget_Refresh.
  destruct (appendRows extra (heap w) [] (strings.Split t)) as [h buffer].
  apply (Refresh_plain th (set_Content (set_heap w h) buffer) Hok HLN).
Qed.

Lemma SetText_cells t w w' :
  SetText extra th t w = Ok w' ->
  map (cells (heap w')) (Content (text w'))
  = map (fun p => map (fun r => {| Rune := r; Style := None |}) (utf8.range p))
        (strings.Split t).
Proof.
  intros H. apply SetText_Ok in H as [-> ->].
  destruct (appendRows_spec extra (strings.Split t) (heap w) [] (Forall_nil_2 _))
    as (_ & _ & Hcells).
  exact Hcells.
Qed.
End SetTextProps.

Lemma grid0_render_ok : widget.render_ok (widget.render example.grid0).
Proof.
  repeat split; cbn; try lia. intros i x H. destruct i; discriminate H.
Qed.

(** C9, as the code has it: for every string [t] that is valid UTF-8,
    whenever [SetText t] returns, [Text] returns exactly [t], the rows of the
    buffer read back as the pieces of [t] between line feeds, and joining
    these pieces with line feeds gives [t]; and [SetText t] does return, at
    least when line numbers are off. *)
Theorem C9_SetText_Text_roundtrip extra th t w :
  utf8.ValidString t = true ->
  (forall w', widget.SetText extra th t w = Ok w' ->
     widget.Text w' = t
     /\ map (fun row => widget.Text_row EmptyString (widget.cells (widget.heap w') row))
            (widget.Content (widget.text w'))
        = strings.Split t
     /\ strings.Join (strings.Split t) = t)
  /\ (widget.render_ok (widget.render w) ->
      widget.LineNumbers (widget.text w) = false ->
      exists w', widget.SetText extra th t w = Ok w').
Proof.
  intros Hv. split; [|apply SetText_returns].
  intros w' H.
  assert (map (fun row => widget.Text_row EmptyString (widget.cells (widget.heap w') row))
              (widget.Content (widget.text w')) = strings.Split t) as Hrows.
  { apply SetText_Ok in H as [-> ->]. apply appendRows_Text, Hv. }
  split; [|split; [exact Hrows | apply Join_Split]].
  unfold widget.Text. rewrite Text_rows_spec by lia.
  rewrite Hrows, Join_Split. reflexivity.
Qed.

Lemma C9_SetText_Text_roundtrip_witness :
  utf8.ValidString "ab" = true /\
  exists w', widget.SetText example.doubling example.th0 "ab" example.grid0 = Ok w'
             /\ widget.Text w' = "ab"%string.
Proof.
  assert (utf8.ValidString "ab" = true) as Hv by reflexivity.
  split; [exact Hv|].
  destruct (C9_SetText_Text_roundtrip example.doubling example.th0 "ab" example.grid0 Hv)
    as [Hret Hex].
  destruct (Hex grid0_render_ok eq_refl) as [w' Hw'].
  exists w'. split; [exact Hw' | apply (Hret w' Hw')].
Defined.

(** C9 as stated fails on a string that is not valid UTF-8: the byte 0xFF
    holds no carriage return, is stored as the rune U+FFFD and reads back as
    the three bytes of that rune. *)
Lemma C9_invalid_utf8_is_replaced :
  ~ In 13 (utf8.bytes (String (ascii_of_nat 255) EmptyString))
  /\ exists w', widget.SetText example.doubling example.th0
                  (String (ascii_of_nat 255) EmptyString) example.grid0 = Ok w'
     /\ utf8.bytes (widget.Text w') = [239; 191; 189]
     /\ widget.Text w' <> String (ascii_of_nat 255) EmptyString.
Proof.
  split; [cbn; intros [H|[]]; discriminate H|].
  eexists. split; [vm_compute; reflexivity|]. split; [reflexivity|].
  intros H. discriminate H.
Qed.




(** ** The buffer: [SetRow], [SetStyle] and [SetStyleRange] *)

Section Mutation.
Import widget.
Variables (extra : nat -> nat) (th : theme.Theme).

Lemma set_Content_id w : set_Content w (Content (text w)) = w.
Proof. destruct w as [h [c l ws] r]. reflexivity. Qed.

Lemma growRows_loop row n : forall w,
  n = Z.to_nat (row + 1 - Z.of_nat (length (Content (text w)))) ->
  while n (fun w => Ok (Z.of_nat (length (Content (text w))) <=? row))
          (fun w => Ok (set_Content w (Content (text w) ++ [nil_slice]))) w
  = Ok (set_Content w (Content (text w) ++ replicate n nil_slice)).
Proof.
  induction n as [|n IH]; intros w Hn; cbn [while bind replicate].
  - destruct (Z.leb_spec (Z.of_nat (length (Content (text w)))) row); [lia|].
    rewrite app_nil_r, set_Content_id. reflexivity.
  - destruct (Z.leb_spec (Z.of_nat (length (Content (text w)))) row); [|lia].
    rewrite IH by (cbn; rewrite length_app; cbn; lia).
    cbn. rewrite <- app_assoc. reflexivity.
Qed.

(** The rows are grown with empty rows up to [row]. *)
Lemma growRows_spec row w :
  growRows row w
  = Ok (set_Content w
          (Content (text w)
           ++ replicate (Z.to_nat (row + 1 - Z.of_nat (length (Content (text w)))))
                        nil_slice)).
Proof. apply growRows_loop. reflexivity. Qed.

(** [SetStyle] writes cells but never changes a header of the buffer:
    beyond growing the rows, [t.Content] is as before. *)
Lemma SetStyle_Content row col style w w' :
  0 <= row -> 0 <= col ->
  SetStyle extra row col style w = Ok w' ->
  Content (text w')
  = Content (text w)
    ++ replicate (Z.to_nat (row + 1 - Z.of_nat (length (Content (text w))))) nil_slice.
Proof.
  intros Hrow Hcol. unfold SetStyle.
  destruct (Z.ltb_spec row 0); [lia|]. destruct (Z.ltb_spec col 0); [lia|].
  cbn [orb]. rewrite growRows_spec. cbn [bind]. intros HS.
  apply bind_Ok_inv in HS as (content & _ & HS).
  apply bind_Ok_inv in HS as ([h content'] & _ & HS).
  apply bind_Ok_inv in HS as (c & _ & HS).
  apply bind_Ok_inv in HS as (h' & _ & HS).
  injection HS as <-. reflexivity.
Qed.

Lemma Row_after_grow row w k :
  0 <= row ->
  (match (Content (text w) ++ replicate k nil_slice) !! Z.to_nat row with
   | Some s => s
   | None => nil_slice
   end) = Row row w.
Proof.
  intros Hrow. unfold Row. destruct (Z.ltb_spec row 0); [lia|]. cbn [orb].
  destruct (Z.leb_spec (Z.of_nat (length (Content (text w)))) row) as [Hout|Hin].
  - rewrite lookup_app_r by lia.
    destruct (replicate k nil_slice !! _) as [s|] eqn:Hs; [|reflexivity].
    apply lookup_replicate in Hs as [-> _]. reflexivity.
  - rewrite lookup_app_l by lia. reflexivity.
Qed.

End Mutation.

(** C1, what the code does instead: [SetStyle] with [row, col >= 0] grows
    the buffer to at least [row + 1] rows but leaves the length of row [row]
    as it was, so for [col] at or beyond that length the cell [(row, col)]
    is not in the buffer afterwards and reading it panics. *)
Theorem C1_SetStyle_row_not_grown extra row col style w w' :
  0 <= row -> 0 <= col ->
  widget.SetStyle extra row col style w = Ok w' ->
  row + 1 <= Z.of_nat (length (widget.Content (widget.text w')))
  /\ widget.len (widget.Row row w') = widget.len (widget.Row row w)
  /\ (Z.of_nat (widget.len (widget.Row row w)) <= col ->
      widget.slice_get (widget.heap w') (widget.Row row w') col = Panic).
Proof.
  intros Hrow Hcol H.
  pose proof (SetStyle_Content extra row col style w w' Hrow Hcol H) as HC.
  assert (row + 1 <= Z.of_nat (length (widget.Content (widget.text w')))) as Hlen.
  { rewrite HC, length_app, length_replicate. lia. }
  assert (widget.Row row w' = widget.Row row w) as HR.
  { unfold widget.Row at 1. destruct (Z.ltb_spec row 0); [lia|]. cbn [orb].
    destruct (Z.leb_spec (Z.of_nat (length (widget.Content (widget.text w')))) row); [lia|].
    rewrite HC. apply Row_after_grow, Hrow. }
  split; [exact Hlen|]. split; [rewrite HR; reflexivity|].
  intros Hout. rewrite HR. unfold widget.slice_get.
  replace ((col <? 0) || (Z.of_nat (widget.len (widget.Row row w)) <=? col)) with true by lia.
  reflexivity.
Qed.

Lemma C1_SetStyle_row_not_grown_witness :
  exists w', widget.SetStyle example.doubling 0 0 example.red example.grid0 = Ok w'
    /\ 0 + 1 <= Z.of_nat (length (widget.Content (widget.text w')))
    /\ widget.len (widget.Row 0 w') = 0%nat
    /\ widget.slice_get (widget.heap w') (widget.Row 0 w') 0 = Panic.
Proof.
  eexists. split; [reflexivity|].
  destruct (C1_SetStyle_row_not_grown example.doubling 0 0 example.red example.grid0 _
              ltac:(lia) ltac:(lia) eq_refl) as (H1 & H2 & H3).
  split; [exact H1|]. split; [exact H2|]. apply H3.
  vm_compute. intros Hgt. discriminate Hgt.
Defined.

(** C3, what the code does instead: [SetStyleRange] over two rows of an
    empty grid panics (it indexes [t.Content[startRow]] unguarded); and on
    a grid with line numbers and one empty row, the renderer's [Layout]
    for a single cell followed by its [Refresh] panics in the refresh pass
    (the gutter takes one primitive more than the columns counted for it),
    and so does the widget's [Resize], which runs the two. *)
Theorem C3_operations_can_panic :
  widget.SetStyleRange example.doubling 0 0 1 0 example.red example.grid0 = Panic
  /\ widget.run example.th0 [widget.DoLayout example.cell; widget.DoRefresh]
       example.grid_numbered = Panic
  /\ widget.TextGrid_Resize example.th0 example.cell example.grid_numbered = Panic.
Proof. repeat split; vm_compute; reflexivity. Qed.





(** ** The renderer: layout *)

Section LayoutProps.
Import widget.
Variable th : theme.Theme.

Lemma is_rectangle_Move o p : is_rectangle (canvas.Move o p) = is_rectangle o.
Proof. destruct o; reflexivity. Qed.
Lemma is_rectangle_Resize o s : is_rectangle (canvas.Resize o s) = is_rectangle o.
Proof. destruct o; reflexivity. Qed.

Lemma placeCell_in cell p (k : nat) :
  li p = Z.of_nat k -> pool_ok (lo p) -> (2 * k + 1 < length (lo p))%nat ->
  exists p', placeCell cell p = Ok p'
    /\ li p' = li p + 1 /\ lx p' = lx p + 1 /\ ly p' = ly p
    /\ pool_ok (lo p') /\ length (lo p') = length (lo p).
Proof.
  intros Hli Hok Hk. unfold placeCell. rewrite Hli.
  destruct (lookup_lt_is_Some_2 (lo p) (2 * k + 1) ltac:(lia)) as [b Hb].
  destruct (lookup_lt_is_Some_2 (lo p) (2 * k) ltac:(lia)) as [a Ha].
  replace (Z.of_nat k * 2 + 1) with (Z.of_nat (2 * k + 1)) by lia.
  replace (Z.of_nat k * 2) with (Z.of_nat (2 * k)) by lia.
  rewrite (index_lookup _ _ _ Hb). cbn [bind]. rewrite !Nat2Z.id.
  assert (<[(2 * k + 1)%nat := canvas.Move b (cellPos p)]> (lo p) !! (2 * k)%nat = Some a)
    as Ha' by (rewrite list_lookup_insert_ne by lia; exact Ha).
  rewrite (index_lookup _ _ _ Ha'). cbn [bind].
  eexists. split; [reflexivity|]. cbn [li lx ly lo].
  repeat split; try reflexivity.
  - rewrite !length_insert. apply Hok.
  - apply (pool_ok_insert _ _ a);
      [apply (pool_ok_insert _ _ b); [exact Hok | exact Hb | apply is_rectangle_Move]
      | exact Ha'
      | rewrite is_rectangle_Move; apply is_rectangle_Resize].
  - rewrite !length_insert. reflexivity.
Qed.

Lemma layout_row cell c n : forall p (k : nat),
  n = Z.to_nat (c - lx p) ->
  li p = Z.of_nat k -> pool_ok (lo p) -> (2 * (k + n) <= length (lo p))%nat ->
  exists p', while n (fun p => Ok (lx p <? c)) (placeCell cell) p = Ok p'
    /\ li p' = li p + Z.of_nat n /\ ly p' = ly p
    /\ pool_ok (lo p') /\ length (lo p') = length (lo p).
Proof.
  induction n as [|n IH]; intros p k Hn Hli Hok Hfit; cbn [while bind].
  - destruct (Z.ltb_spec (lx p) c); [lia|].
    exists p. repeat split; try lia; apply Hok.
  - destruct (Z.ltb_spec (lx p) c); [|lia].
    destruct (placeCell_in cell p k Hli Hok ltac:(lia))
      as (p1 & H1 & Hli1 & Hlx1 & Hly1 & Hok1 & Hlen1).
    rewrite H1. cbn [bind].
    destruct (IH p1 (S k) ltac:(lia) ltac:(lia) Hok1 ltac:(lia))
      as (p' & H' & Hli' & Hly' & Hok' & Hlen').
    exists p'. split; [exact H'|]. split; [lia|]. split; [congruence|].
    split; [exact Hok' | congruence].
Qed.

Lemma layout_rows cell c r n : forall p (k : nat),
  0 <= c ->
  n = Z.to_nat (r - ly p) ->
  li p = Z.of_nat k -> pool_ok (lo p) ->
  (2 * (k + n * Z.to_nat c) <= length (lo p))%nat ->
  exists p',
    while n (fun p => Ok (ly p <? r))
      (fun p =>
         p <- while (Z.to_nat c) (fun p => Ok (lx p <? c)) (placeCell cell)
                {| li := li p; cellPos := cellPos p; ly := ly p; lx := 0; lo := lo p |} ;;
         Ok {| li := li p;
               cellPos := {| fyne.PX := 0; fyne.PY := fyne.PY (cellPos p) + fyne.Height cell |};
               ly := ly p + 1; lx := lx p; lo := lo p |})
      p = Ok p'
    /\ pool_ok (lo p') /\ length (lo p') = length (lo p).
Proof.
  induction n as [|n IH]; intros p k Hc Hn Hli Hok Hfit; cbn [while bind].
  - destruct (Z.ltb_spec (ly p) r); [lia|]. exists p.
    split; [reflexivity|]. split; [exact Hok | reflexivity].
  - destruct (Z.ltb_spec (ly p) r); [|lia].
    destruct (layout_row cell c (Z.to_nat c)
                {| li := li p; cellPos := cellPos p; ly := ly p; lx := 0; lo := lo p |} k
                ltac:(cbn; lia) Hli Hok ltac:(cbn [lo]; nia))
      as (p1 & H1 & Hli1 & Hly1 & Hok1 & Hlen1).
    rewrite H1. cbn [bind]. cbn [li ly lo] in *.
    destruct (IH {| li := li p1;
                    cellPos := {| fyne.PX := 0; fyne.PY := fyne.PY (cellPos p1) + fyne.Height cell |};
                    ly := ly p1 + 1; lx := lx p1; lo := lo p1 |} (k + Z.to_nat c)%nat
                Hc ltac:(cbn; lia) ltac:(cbn; lia) Hok1 ltac:(cbn [lo]; nia))
      as (p' & H' & Hok' & Hlen').
    exists p'. split; [exact H'|]. split; [exact Hok'|]. cbn [lo] in Hlen'. congruence.
Qed.

Lemma bufCols_nonneg (l : list Slice) : forall a,
  0 <= a -> 0 <= fold_left (fun bufCols row => Z.max bufCols (Z.of_nat (len row))) l a.
Proof. induction l as [|s l IH]; intros a Ha; cbn; [exact Ha | apply IH; lia]. Qed.

Lemma lineCountWidth_nonneg t : 0 <= lineCountWidth t.
Proof. unfold lineCountWidth. lia. Qed.

Lemma updateGridSize_spec size w :
  heap (updateGridSize size w) = heap w
  /\ text (updateGridSize size w) = text w
  /\ objects (render (updateGridSize size w)) = objects (render w)
  /\ cellSize (render (updateGridSize size w)) = cellSize (render w)
  /\ 0 <= cols (render (updateGridSize size w))
  /\ Z.of_nat (length (Content (text w))) <= rows (render (updateGridSize size w)).
Proof.
  unfold updateGridSize. cbn [heap text render set_render objects cellSize cols rows].
  repeat split; [|lia].
  pose proof (bufCols_nonneg (Content (text w)) 0 ltac:(lia)).
  pose proof (lineCountWidth_nonneg (render w)).
  destruct (Whitespace (text w)), (LineNumbers (text w)); lia.
Qed.

(** A layout pass returns; it recomputes the grid size, grows the pool to
    it and leaves the buffer alone. *)
Lemma Layout_spec size w :
  render_ok (render w) ->
  exists w', Layout th size w = Ok w'
    /\ heap w' = heap w /\ text w' = text w
    /\ render_ok (render w')
    /\ cols (render w') = cols (render (updateGridSize size w))
    /\ rows (render w') = rows (render (updateGridSize size w))
    /\ Z.of_nat (length (objects (render w')))
       = Z.max (Z.of_nat (length (objects (render w))))
               (2 * (cols (render w') * rows (render w'))).
Proof.
  intros (_ & _ & Hok & _ & Hcw & Hch). unfold Layout.
  destruct (updateGridSize_spec size w) as (Hh & Ht & Ho & Hs & Hc & Hr).
  set (w1 := updateGridSize size w) in *.
  assert (0 <= rows (render w1)) as Hr0 by lia.
  destruct (ensureGrid_spec th (render w1) ltac:(rewrite Ho; exact Hok) ltac:(nia))
    as (t & Het & Hct & Hrt & Hst & Hokt & Hlent & _).
  rewrite Het. cbn [bind].
  destruct (layout_rows (cellSize t) (cols t) (rows t) (Z.to_nat (rows t))
              {| li := 0; cellPos := origin; ly := 0; lx := 0; lo := objects t |} 0
              ltac:(lia) ltac:(cbn; lia) eq_refl Hokt ltac:(cbn [lo]; nia))
    as (p' & Hp' & Hokp & Hlenp).
  rewrite Hp'. cbn [bind]. eexists. split; [reflexivity|].
  cbn [heap text render set_render objects set_objects cols rows cellSize].
  cbn [lo] in Hlenp.
  split; [exact Hh|]. split; [exact Ht|].
  split; [|split; [exact Hct | split; [exact Hrt|]]].
  - unfold render_ok. cbn [cols rows cellSize objects set_objects]. rewrite Hst, Hs.
    repeat split; try exact Hokp; try (apply Hokp); try assumption; try lia; nia.
  - rewrite Hlenp, Hlent, Ho, Hct, Hrt. reflexivity.
Qed.


End LayoutProps.





(** ** The gutter of line numbers *)

Section Gutter.
Import widget.
Variable th : theme.Theme.

Lemma lineCountWidth_10 t : rows t = 10 -> lineCountWidth t = 2.
Proof. unfold lineCountWidth. intros ->. reflexivity. Qed.

(** With ten rows every gutter takes three primitives. *)
Lemma gutter_glyphs_10 t r :
  rows t = 10 -> 0 <= r < 10 -> length (gutter_glyphs th t (r + 1)) = 3%nat.
Proof.
  intros Hr Hrange. unfold gutter_glyphs. rewrite (lineCountWidth_10 t Hr).
  assert (r = 0 \/ r = 1 \/ r = 2 \/ r = 3 \/ r = 4 \/ r = 5 \/ r = 6 \/ r = 7
          \/ r = 8 \/ r = 9) as Hcases by lia.
  repeat (destruct Hcases as [->|Hcases]; [reflexivity|]). subst r. reflexivity.
Qed.

Lemma gutter_glyphs_5 t :
  rows t = 10 ->
  gutter_glyphs th t (4 + 1)
  = [(53, TextGridStyleWhitespace th); (32, TextGridStyleWhitespace th);
     (124, TextGridStyleWhitespace th)].
Proof.
  intros Hr. unfold gutter_glyphs. rewrite (lineCountWidth_10 t Hr). reflexivity.
Qed.
End Gutter.

(** C6, as the code has it: with line numbers on, ten rows in the buffer
    and a renderer of ten rows and at least three columns, the gutter width
    is 2 and the refresh pass returns with the gutter of line 5 (buffer row
    4) showing the digit '5', then a padding space, then '|' (the number is
    left-justified), each in the foreground of the whitespace style on a
    transparent background. *)
Theorem C6_gutter_of_line_5 th w :
  widget.render_ok (widget.render w) ->
  widget.LineNumbers (widget.text w) = true ->
  length (widget.Content (widget.text w)) = 10%nat ->
  widget.rows (widget.render w) = 10 ->
  3 <= widget.cols (widget.render w) ->
  widget.lineCountWidth (widget.render w) = 2
  /\ exists w',
       widget.Refresh th w = Ok w'
       /\ widget.shown (widget.objects (widget.render w'))
            (4 * Z.to_nat (widget.cols (widget.render w)) + 0)
          = Some ("5"%string, theme.ButtonColor th, widget.Transparent)
       /\ widget.shown (widget.objects (widget.render w'))
            (4 * Z.to_nat (widget.cols (widget.render w)) + 1)
          = Some (" "%string, theme.ButtonColor th, widget.Transparent)
       /\ widget.shown (widget.objects (widget.render w'))
            (4 * Z.to_nat (widget.cols (widget.render w)) + 2)
          = Some ("|"%string, theme.ButtonColor th, widget.Transparent).
Proof.
  intros Hok HLN Hlen Hrows Hcols.
  split; [apply lineCountWidth_10, Hrows|].
  assert (widget.gutter_fits th w (widget.render w)) as Hg.
  { intros r Hr. rewrite HLN, gutter_glyphs_10 by (assumption || lia). lia. }
  destruct (Refresh_fits th w Hok Hg)
    as (w' & t & _ & Hct & Hrt & HR & _ & _ & _ & _ & _ & _ & Hshown).
  exists w'. split; [exact HR|].
  destruct (lookup_lt_is_Some_2 (widget.Content (widget.text w)) 4 ltac:(lia)) as [row Hrow].
  set (w1 := widget.set_render w t) in *.
  assert (widget.gutter_fits th w1 t) as Hg1
    by (apply (gutter_fits_frame th w w1 (widget.render w) t eq_refl Hct Hrt Hg)).
  assert (forall k g,
    [(53, widget.TextGridStyleWhitespace th); (32, widget.TextGridStyleWhitespace th);
     (124, widget.TextGridStyleWhitespace th)] !! k = Some g ->
    widget.shown (widget.objects (widget.render w'))
      (4 * Z.to_nat (widget.cols (widget.render w)) + k) = Some (widget.look th g)) as Hat.
  { intros k g Hk. apply Hshown. unfold widget.grid_glyphs. apply lookup_app_l_Some.
    cbn [widget.render w1 widget.set_render widget.text]. rewrite <- Hct.
    apply (rows_glyphs_lookup th w1 t _ 0 4 row k g ltac:(lia) Hg1 Hrow ltac:(lia)).
    destruct (row_glyphs_length th w1 t (0 + Z.of_nat 4) row
                (Hg1 (0 + Z.of_nat 4) ltac:(lia))) as [_ Hpre].
    apply Hpre. cbn [widget.text w1 widget.set_render]. rewrite HLN.
    change (0 + Z.of_nat 4 + 1) with (4 + 1).
    rewrite gutter_glyphs_5 by lia. exact Hk. }
  split; [|split].
  - apply (Hat 0%nat _ eq_refl).
  - apply (Hat 1%nat _ eq_refl).
  - apply (Hat 2%nat _ eq_refl).
Qed.

Lemma grid_ten_laid_out_ok :
  widget.render_ok (widget.render example.grid_ten_laid_out)
  /\ widget.LineNumbers (widget.text example.grid_ten_laid_out) = true
  /\ length (widget.Content (widget.text example.grid_ten_laid_out)) = 10%nat
  /\ widget.rows (widget.render example.grid_ten_laid_out) = 10
  /\ 3 <= widget.cols (widget.render example.grid_ten_laid_out).
Proof.
  assert (widget.render_ok (widget.render example.grid_ten)) as Hok.
  { replace (widget.render example.grid_ten) with (widget.render example.grid0)
      by (vm_compute; reflexivity).
    exact grid0_render_ok. }
  destruct (Layout_spec example.th0 example.size_4x10 example.grid_ten Hok)
    as (w & HL & _ & _ & Hok' & _).
  assert (widget.Layout example.th0 example.size_4x10 example.grid_ten
          = Ok example.grid_ten_laid_out) as Hc by (vm_compute; reflexivity).
  assert (w = example.grid_ten_laid_out) as -> by congruence.
  split; [exact Hok'|].
  split; [vm_compute; reflexivity|]. split; [vm_compute; reflexivity|].
  split; [vm_compute; reflexivity|]. vm_compute. intros H. discriminate H.
Qed.

Lemma C6_gutter_of_line_5_witness :
  widget.lineCountWidth (widget.render example.grid_ten_laid_out) = 2
  /\ exists w',
       widget.Refresh example.th0 example.grid_ten_laid_out = Ok w'
       /\ widget.shown (widget.objects (widget.render w'))
            (4 * Z.to_nat (widget.cols (widget.render example.grid_ten_laid_out)) + 0)
          = Some ("5"%string, theme.ButtonColor example.th0, widget.Transparent)
       /\ widget.shown (widget.objects (widget.render w'))
            (4 * Z.to_nat (widget.cols (widget.render example.grid_ten_laid_out)) + 1)
          = Some (" "%string, theme.ButtonColor example.th0, widget.Transparent)
       /\ widget.shown (widget.objects (widget.render w'))
            (4 * Z.to_nat (widget.cols (widget.render example.grid_ten_laid_out)) + 2)
          = Some ("|"%string, theme.ButtonColor example.th0, widget.Transparent).
Proof.
  destruct grid_ten_laid_out_ok as (Hok & HLN & Hlen & Hrows & Hcols).
  exact (C6_gutter_of_line_5 example.th0 example.grid_ten_laid_out Hok HLN Hlen Hrows Hcols).
Defined.

(** C6 as stated fails.  With ten rows in the buffer and room for four
    columns and ten rows, the gutter of line 5 is "5", " ", "|" and not
    " ", "5", "|": the number is left-justified.  And with room for a
    hundred rows the gutter width is 3, though the buffer still has ten
    rows: the width counts the digits of the renderer's rows plus one. *)
Lemma C6_gutter_is_left_justified :
  (exists w',
     widget.TextGrid_Resize example.th0 example.size_4x10 example.grid_ten = Ok w'
     /\ length (widget.Content (widget.text w')) = 10%nat
     /\ widget.cols (widget.render w') = 4
     /\ widget.lineCountWidth (widget.render w') = 2
     /\ widget.shown (widget.objects (widget.render w')) 16
        = Some ("5"%string, theme.ButtonColor example.th0, widget.Transparent)
     /\ widget.shown (widget.objects (widget.render w')) 17
        = Some (" "%string, theme.ButtonColor example.th0, widget.Transparent)
     /\ widget.shown (widget.objects (widget.render w')) 18
        = Some ("|"%string, theme.ButtonColor example.th0, widget.Transparent))
  /\ (exists w',
       widget.TextGrid_Resize example.th0 example.size_4x100 example.grid_ten = Ok w'
       /\ length (widget.Content (widget.text w')) = 10%nat
       /\ widget.lineCountWidth (widget.render w') = 3).
Proof.
  split.
  - eexists. split; [vm_compute; reflexivity|].
    repeat (split; [vm_compute; reflexivity|]). vm_compute. reflexivity.
  - eexists. split; [vm_compute; reflexivity|].
    split; vm_compute; reflexivity.
Qed.


(** ** What a refresh pass shows *)

Section Shown.
Import widget.
Variable th : theme.Theme.

(** The glyphs of a row without gutter: the cells that fit, the end-of-line
    marker if asked for, blanks up to the last column. *)
Lemma row_glyphs_plain_lookup w t rowIndex row (c : nat) :
  LineNumbers (text w) = false -> Z.of_nat c < cols t ->
  row_glyphs th w t rowIndex row !! c
  = Some (match cells (heap w) row !! c with
          | Some cell => cell_glyph th (Whitespace (text w)) cell
          | None =>
            if Whitespace (text w) && (c =? length (cells (heap w) row))%nat
               && (rowIndex <? Z.of_nat (length (Content (text w))) - 1)
            then (textAreaNewLineSymbol, TextGridStyleWhitespace th)
            else (space, TextGridStyleDefault)
          end).
Proof.
  intros HLN Hc. unfold row_glyphs. rewrite HLN. cbn [app length].
  rewrite Z.sub_0_r.
  set (cs := map (cell_glyph th (Whitespace (text w))) (cells (heap w) row)).
  assert (length cs = length (cells (heap w) row)) as Hcs by (subst cs; apply length_map).
  destruct (cells (heap w) row !! c) as [cell|] eqn:Hcell.
  - apply lookup_app_l_Some. rewrite lookup_take_lt by lia.
    subst cs. rewrite list_lookup_fmap, Hcell. reflexivity.
  - apply lookup_ge_None in Hcell. clearbody cs.
    assert (take (Z.to_nat (cols t)) cs = cs) as Htake by (apply take_ge; lia).
    rewrite Htake. rewrite lookup_app_r by lia.
    assert (Z.of_nat (0 + length cs) < cols t) as Hlt by lia.
    apply Z.ltb_lt in Hlt. rewrite Hlt.
    destruct (Whitespace (text w)); cbn [andb];
      [destruct (rowIndex <? Z.of_nat (length (Content (text w))) - 1)|];
      rewrite ?andb_true_r, ?andb_false_r; cbn [app length];
      try (apply lookup_replicate_2; lia).
    destruct (Nat.eqb_spec c (length (cells (heap w) row))) as [->|Hne].
    + rewrite Hcs, Nat.sub_diag. reflexivity.
    + replace (c - length cs)%nat with (S (c - length cs - 1)) by lia.
      cbn [lookup list_lookup]. apply lookup_replicate_2. lia.
Qed.

Lemma rows_glyphs_length_exact w t rest : forall rowIndex,
  0 <= rowIndex -> gutter_fits th w t ->
  length (rows_glyphs th w t rowIndex rest)
  = (Z.to_nat (cols t) * Nat.min (length rest) (Z.to_nat (rows t - rowIndex)))%nat.
Proof.
  induction rest as [|row rest IH]; intros rowIndex Hri Hg; cbn [rows_glyphs length];
    [lia|].
  destruct (Z.leb_spec (rows t) rowIndex).
  { replace (Z.to_nat (rows t - rowIndex)) with 0%nat by lia. cbn. lia. }
  destruct (row_glyphs_length th w t rowIndex row (Hg rowIndex ltac:(lia))) as [Hlen _].
  rewrite length_app, Hlen, (IH (rowIndex + 1) ltac:(lia) Hg).
  replace (Z.to_nat (rows t - rowIndex)) with (S (Z.to_nat (rows t - (rowIndex + 1))))
    by lia.
  rewrite <- Nat.succ_min_distr. lia.
Qed.

(** The glyphs of a pass over a grid without gutter, by row and column. *)
Lemma grid_glyphs_plain_lookup w (r c : nat) :
  LineNumbers (text w) = false ->
  0 <= cols (render w) ->
  2 * (cols (render w) * rows (render w)) <= Z.of_nat (length (objects (render w))) ->
  Z.of_nat r < rows (render w) -> Z.of_nat c < cols (render w) ->
  grid_glyphs th w !! (r * Z.to_nat (cols (render w)) + c)%nat
  = Some (plain_glyph th w r c).
Proof.
  intros HLN Hc Hpool Hr Hcc. unfold grid_glyphs, plain_glyph.
  pose proof (gutter_fits_plain th w (render w) HLN Hc) as Hg.
  pose proof (rows_glyphs_length_exact w (render w) (Content (text w)) 0 ltac:(lia) Hg)
    as Hlen.
  rewrite Z.sub_0_r in Hlen.
  destruct (Content (text w) !! r) as [row|] eqn:Hrow.
  - apply lookup_app_l_Some.
    apply (rows_glyphs_lookup th w (render w) _ 0 r row c _ ltac:(lia) Hg Hrow ltac:(lia)).
    rewrite Z.add_0_l. apply row_glyphs_plain_lookup; assumption.
  - apply lookup_ge_None in Hrow.
    rewrite lookup_app_r by (rewrite Hlen; nia).
    apply lookup_replicate_2. rewrite Hlen.
    assert (Z.of_nat (r * Z.to_nat (cols (render w)) + c) + 1
            <= Z.of_nat (length (objects (render w))) / 2).
    { apply Z.div_le_lower_bound; nia. }
    nia.
Qed.

(** Without line numbers a refresh pass returns and every primitive pair of
    the grid shows the glyph of its row and column. *)
Lemma Refresh_shows_plain w :
  render_ok (render w) -> LineNumbers (text w) = false ->
  exists w', Refresh th w = Ok w'
    /\ heap w' = heap w /\ text w' = text w
    /\ render_ok (render w')
    /\ cols (render w') = cols (render w) /\ rows (render w') = rows (render w)
    /\ forall r c : nat,
         Z.of_nat r < rows (render w) -> Z.of_nat c < cols (render w) ->
         shown (objects (render w')) (r * Z.to_nat (cols (render w)) + c)
         = Some (look th (plain_glyph th w r c)).
Proof.
  intros Hok HLN.
  destruct (Refresh_fits th w Hok (gutter_fits_plain th w _ HLN ltac:(apply Hok)))
    as (w' & t & Het & Hct & Hrt & HR & Hh & Ht & Hok' & Hc' & Hr' & Hlen' & Hshown).
  exists w'. repeat (split; [assumption|]).
  intros r c Hr Hc. apply Hshown.
  destruct Hok as (Hc0 & Hr0 & Hpool & _).
  destruct (ensureGrid_spec th (render w) Hpool ltac:(nia))
    as (t2 & Het2 & _ & _ & _ & _ & Hlent & _).
  rewrite Het in Het2. injection Het2 as <-.
  pose proof (grid_glyphs_plain_lookup (set_render w t) r c HLN) as Hl.
  cbn [render set_render] in Hl. rewrite Hct, Hrt in Hl.
  rewrite Hl by lia. reflexivity.
Qed.
End Shown.

Lemma Layout_render_ok th size w w' :
  widget.render_ok (widget.render w) ->
  widget.Layout th size w = Ok w' ->
  widget.render_ok (widget.render w').
Proof.
  intros Hok HL. destruct (Layout_spec th size w Hok) as (w1 & HL1 & _ & _ & Hok1 & _).
  congruence.
Qed.

Lemma grid_AB_C_ok : widget.render_ok (widget.render example.grid_AB_C).
Proof.
  replace (widget.render example.grid_AB_C) with (widget.render example.grid0)
    by (vm_compute; reflexivity).
  exact grid0_render_ok.
Qed.

Lemma grid_AB_C_laid_out_ok :
  widget.render_ok (widget.render example.grid_AB_C_laid_out).
Proof.
  apply (Layout_render_ok example.th0 example.size_4x2 example.grid_AB_C);
    [exact grid_AB_C_ok | vm_compute; reflexivity].
Qed.





(** X1: without line numbers a refresh pass returns, whatever the buffer
    and the size of the grid, leaves heap and buffer alone, and afterwards
    the primitive pair of row [r] and column [c] of the grid shows the cell
    [(r, c)] of the buffer, the end-of-line marker right after the last cell
    of a row (when whitespace is shown and the row is not the last), and a
    blank in the default style everywhere else; cells beyond the last
    column and rows beyond the last row are not shown. *)
Theorem X1_Refresh_shows_buffer th w :
  widget.render_ok (widget.render w) ->
  widget.LineNumbers (widget.text w) = false ->
  exists w', widget.Refresh th w = Ok w'
    /\ widget.heap w' = widget.heap w /\ widget.text w' = widget.text w
    /\ widget.cols (widget.render w') = widget.cols (widget.render w)
    /\ widget.rows (widget.render w') = widget.rows (widget.render w)
    /\ forall r c : nat,
         Z.of_nat r < widget.rows (widget.render w) ->
         Z.of_nat c < widget.cols (widget.render w) ->
         widget.shown (widget.objects (widget.render w'))
                      (r * Z.to_nat (widget.cols (widget.render w)) + c)
         = Some (widget.look th (widget.plain_glyph th w r c)).
Proof.
  intros Hok HLN.
  destruct (Refresh_shows_plain th w Hok HLN)
    as (w' & HR & Hh & Ht & _ & Hc & Hr & Hshown).
  exists w'. repeat (split; [assumption|]). exact Hshown.
Qed.




Lemma X1_Refresh_shows_buffer_witness :
  exists w', widget.Refresh example.th0 example.grid_AB_C_laid_out = Ok w'
    /\ widget.heap w' = widget.heap example.grid_AB_C_laid_out
    /\ widget.text w' = widget.text example.grid_AB_C_laid_out
    /\ widget.cols (widget.render w') = widget.cols (widget.render example.grid_AB_C_laid_out)
    /\ widget.rows (widget.render w') = widget.rows (widget.render example.grid_AB_C_laid_out)
    /\ forall r c : nat,
         Z.of_nat r < widget.rows (widget.render example.grid_AB_C_laid_out) ->
         Z.of_nat c < widget.cols (widget.render example.grid_AB_C_laid_out) ->
         widget.shown (widget.objects (widget.render w'))
                      (r * Z.to_nat (widget.cols (widget.render example.grid_AB_C_laid_out)) + c)
         = Some (widget.look example.th0
                   (widget.plain_glyph example.th0 example.grid_AB_C_laid_out r c)).
Proof.
  exact (X1_Refresh_shows_buffer example.th0 example.grid_AB_C_laid_out
           grid_AB_C_laid_out_ok eq_refl).
Defined.




Section RowProps.
Import widget.

Lemma Row_lookup (i : nat) w row :
  Content (text w) !! i = Some row -> Row (Z.of_nat i) w = row.
Proof.
  intros Hrow. unfold Row. pose proof (lookup_lt_Some _ _ _ Hrow) as Hlt.
  replace (Z.of_nat i <? 0) with false by (symmetry; apply Z.ltb_ge; lia).
  replace (Z.of_nat (length (Content (text w))) <=? Z.of_nat i) with false
    by (symmetry; apply Z.leb_gt; lia).
  cbn [orb]. rewrite Nat2Z.id, Hrow. reflexivity.
Qed.

Lemma Row_outside row w :
  row < 0 \/ Z.of_nat (length (Content (text w))) <= row -> Row row w = nil_slice.
Proof.
  intros [H|H]; unfold Row.
  - apply Z.ltb_lt in H. rewrite H. reflexivity.
  - apply Z.leb_le in H. rewrite H, orb_true_r. reflexivity.
Qed.

(** X4: on a renderer without line numbers [SetText] returns, and then the
    buffer has one row per line of the text (the pieces between line
    feeds); [Row i] holds the runes of line [i] in order, each without a
    style, and [Row] of any other index is empty. *)
Theorem X4_SetText_then_Row extra th t w :
  render_ok (render w) -> LineNumbers (text w) = false ->
  exists w', SetText extra th t w = Ok w'
    /\ length (Content (text w')) = length (strings.Split t)
    /\ (forall (i : nat) line, strings.Split t !! i = Some line ->
          cells (heap w') (Row (Z.of_nat i) w')
          = map (fun r => {| Rune := r; Style := None |}) (utf8.range line))
    /\ (forall i, i < 0 \/ Z.of_nat (length (strings.Split t)) <= i ->
          cells (heap w') (Row i w') = []).
Proof.
  intros Hok HLN. destruct (SetText_returns extra th t w Hok HLN) as (w' & HS).
  exists w'. split; [exact HS|].
  pose proof (SetText_cells extra th t w w' HS) as Hcells.
  assert (length (Content (text w')) = length (strings.Split t)) as Hlen.
  { apply (f_equal (@length _)) in Hcells. rewrite !length_map in Hcells. exact Hcells. }
  split; [exact Hlen|]. split.
  - intros i line Hline.
    destruct (Content (text w') !! i) as [row|] eqn:Hrow.
    + rewrite (Row_lookup i w' row Hrow).
      apply (f_equal (fun l => l !! i)) in Hcells.
      rewrite !list_lookup_fmap, Hrow, Hline in Hcells. cbn in Hcells.
      congruence.
    + apply lookup_ge_None in Hrow. apply lookup_lt_Some in Hline. lia.
  - intros i Hi. rewrite Row_outside by (rewrite Hlen; exact Hi).
    apply cells_empty. reflexivity.
Qed.

Lemma X4_SetText_then_Row_witness :
  exists w', SetText example.doubling example.th0 ("AB" ++ example.nl ++ "C") example.grid0 = Ok w'
    /\ length (Content (text w')) = length (strings.Split ("AB" ++ example.nl ++ "C"))
    /\ (forall (i : nat) line, strings.Split ("AB" ++ example.nl ++ "C") !! i = Some line ->
          cells (heap w') (Row (Z.of_nat i) w')
          = map (fun r => {| Rune := r; Style := None |}) (utf8.range line))
    /\ (forall i, i < 0 \/ Z.of_nat (length (strings.Split ("AB" ++ example.nl ++ "C"))) <= i ->
          cells (heap w') (Row i w') = []).
Proof.
  exact (X4_SetText_then_Row example.doubling example.th0 ("AB" ++ example.nl ++ "C")
           example.grid0 grid0_render_ok eq_refl).
Defined.
End RowProps.


Section SetRowProps.
Import widget.
Variable th : theme.Theme.

Lemma Row_as_lookup row w :
  0 <= row ->
  Row row w = default nil_slice (Content (text w) !! Z.to_nat row).
Proof.
  intros Hrow. unfold Row.
  replace (row <? 0) with false by (symmetry; apply Z.ltb_ge; lia). cbn [orb].
  destruct (Z.leb_spec (Z.of_nat (length (Content (text w)))) row) as [Hle|Hlt].
  - rewrite (proj2 (lookup_ge_None _ _)) by lia. reflexivity.
  - destruct (Content (text w) !! Z.to_nat row); reflexivity.
Qed.

Lemma SetRow_spec row content w :
  0 <= row -> render_ok (render w) -> LineNumbers (text w) = false ->
  exists w', SetRow th row content w = Ok w'
    /\ heap w' = heap w
    /\ text w' = text (set_Content w
         (<[Z.to_nat row := content]>
            (Content (text w)
             ++ replicate (Z.to_nat (row + 1 - Z.of_nat (length (Content (text w)))))
                          nil_slice))).
Proof.
  intros Hrow Hok HLN. unfold SetRow.
  replace (row <? 0) with false by (symmetry; apply Z.ltb_ge; lia).
  rewrite growRows_spec. cbn [bind].
  set (k := Z.to_nat (row + 1 - Z.of_nat (length (Content (text w))))).
  set (c1 := Content (text w) ++ replicate k nil_slice).
  assert (Z.to_nat row < length c1)%nat as Hlt.
  { subst c1 k. rewrite length_app, length_replicate. lia. }
  destruct (lookup_lt_is_Some_2 _ _ Hlt) as (s & Hs).
  change (Content (text (set_Content w c1))) with c1.
  unfold index. replace (row <? 0) with false by (symmetry; apply Z.ltb_ge; lia).
  rewrite Hs. cbn [bind].
  set (w2 := set_Content (set_Content w c1) (<[Z.to_nat row:=content]> c1)).
  destruct (Refresh_plain th w2 Hok HLN) as (w' & HR).
  destruct (Refresh_frame th w2 w' HR) as (Hh & Ht).
  exists w'. split; [exact HR|]. split; [exact Hh|]. exact Ht.
Qed.

(** X5: for a row index that is not negative, on a renderer without line
    numbers, [SetRow] returns; it leaves the cells alone, grows the buffer
    to hold the row when it is beyond the end, and afterwards [Row] of that
    index is the given content while [Row] of every other index is what it
    was (empty for the rows added on the way). *)
Theorem X5_SetRow_then_Row row content w :
  0 <= row -> render_ok (render w) -> LineNumbers (text w) = false ->
  exists w', SetRow th row content w = Ok w'
    /\ heap w' = heap w
    /\ Z.of_nat (length (Content (text w')))
       = Z.max (Z.of_nat (length (Content (text w)))) (row + 1)
    /\ Row row w' = content
    /\ forall i, i <> row -> Row i w' = Row i w.
Proof.
  intros Hrow Hok HLN.
  destruct (SetRow_spec row content w Hrow Hok HLN) as (w' & HS & Hh & Ht).
  exists w'. split; [exact HS|]. split; [exact Hh|].
  set (k := Z.to_nat (row + 1 - Z.of_nat (length (Content (text w))))) in *.
  assert (Content (text w')
          = <[Z.to_nat row := content]> (Content (text w) ++ replicate k nil_slice))
    as HC by (rewrite Ht; reflexivity).
  assert (Z.to_nat row < length (Content (text w) ++ replicate k nil_slice))%nat as Hlt.
  { subst k. rewrite length_app, length_replicate. lia. }
  split; [|split].
  - rewrite HC, length_insert, length_app, length_replicate. subst k. lia.
  - rewrite Row_as_lookup, HC by exact Hrow.
    rewrite list_lookup_insert_eq by exact Hlt. reflexivity.
  - intros i Hi. destruct (Z.ltb_spec i 0) as [Hneg|Hpos].
    + rewrite !Row_outside by (left; exact Hneg). reflexivity.
    + rewrite !Row_as_lookup by exact Hpos. rewrite HC.
      rewrite list_lookup_insert_ne by lia.
      destruct (Content (text w) !! Z.to_nat i) as [s|] eqn:Hs.
      * rewrite (lookup_app_l_Some _ _ _ _ Hs). reflexivity.
      * apply lookup_ge_None in Hs. rewrite lookup_app_r by exact Hs.
        destruct (replicate k nil_slice !! _) as [s|] eqn:Hr; [|reflexivity].
        apply lookup_replicate in Hr. destruct Hr as [-> _]. reflexivity.
Qed.
End SetRowProps.

Lemma X5_SetRow_then_Row_witness :
  exists w', widget.SetRow example.th0 3 (widget.Row 0 example.grid_AB_C) example.grid_AB_C = Ok w'
    /\ widget.heap w' = widget.heap example.grid_AB_C
    /\ Z.of_nat (length (widget.Content (widget.text w')))
       = Z.max (Z.of_nat (length (widget.Content (widget.text example.grid_AB_C)))) (3 + 1)
    /\ widget.Row 3 w' = (widget.Row 0 example.grid_AB_C)
    /\ forall i, i <> 3 -> widget.Row i w' = widget.Row i example.grid_AB_C.
Proof.
  apply (X5_SetRow_then_Row example.th0 3 (widget.Row 0 example.grid_AB_C) example.grid_AB_C);
    [lia | exact grid_AB_C_ok | reflexivity].
Defined.


Section SetStyleProps.
Import widget.
Variable extra : nat -> nat.

(** The runes of a row, the part of a buffer [Text] reads. *)
Lemma Text_runes h h' content :
  Forall (fun s => map Rune (cells h' s) = map Rune (cells h s)) content ->
  forall n ret i,
    Text_rows h' n ret i content = Text_rows h n ret i content.
Proof.
  induction 1 as [|s content Hs _ IH]; intros n ret i; cbn; [reflexivity|].
  rewrite (Text_row_spec (cells h' s)), (Text_row_spec (cells h s)), Hs. apply IH.
Qed.

Lemma restyle_runes (h : Heap) n k (a : list TextGridCell) c c' s' :
  h !! n = Some a -> a !! k = Some c -> Rune c' = Rune c ->
  map Rune (cells (<[n := <[k := c']> a]> h) s') = map Rune (cells h s').
Proof.
  intros Hn Hk HR. unfold cells.
  destruct (decide (arr s' = n)) as [->|Hne].
  - rewrite list_lookup_insert_eq by (eapply lookup_lt_Some, Hn). rewrite Hn.
    rewrite !fmap_take, !fmap_drop, list_fmap_insert, HR.
    rewrite (list_insert_id (Rune <$> a) k (Rune c)); [reflexivity|].
    rewrite list_lookup_fmap, Hk. reflexivity.
  - rewrite list_lookup_insert_ne by congruence. reflexivity.
Qed.

Lemma SetStyle_in_range row col style w s :
  0 <= row -> 0 <= col ->
  Content (text w) !! Z.to_nat row = Some s ->
  wf_slice (heap w) s -> col < Z.of_nat (len s) ->
  exists a c,
    heap w !! arr s = Some a /\ a !! (off s + Z.to_nat col)%nat = Some c
    /\ SetStyle extra row col style w
       = Ok (set_heap w (<[arr s := <[(off s + Z.to_nat col)%nat :=
                                        {| Rune := Rune c; Style := style |}]> a]> (heap w))).
Proof.
  intros Hrow Hcol Hs (Hlen & Hwf) Hlt.
  destruct Hwf as [Hcap | (a & Ha & Hoff)]; [lia|].
  assert (off s + Z.to_nat col < length a)%nat as Hk by lia.
  destruct (lookup_lt_is_Some_2 _ _ Hk) as (c & Hc).
  exists a, c. split; [exact Ha|]. split; [exact Hc|].
  unfold SetStyle.
  replace (row <? 0) with false by (symmetry; apply Z.ltb_ge; lia).
  replace (col <? 0) with false by (symmetry; apply Z.ltb_ge; lia). cbn [orb].
  rewrite growRows_spec. cbn [bind].
  pose proof (lookup_lt_Some _ _ _ Hs) as Hrlt.
  replace (Z.to_nat (row + 1 - Z.of_nat (length (Content (text w))))) with 0%nat by lia.
  cbn [replicate]. rewrite app_nil_r, set_Content_id.
  unfold index. replace (row <? 0) with false by (symmetry; apply Z.ltb_ge; lia).
  rewrite Hs. cbn [bind].
  replace (Z.to_nat (col + 1 - Z.of_nat (len s))) with 0%nat by lia.
  cbn [while bind].
  replace (Z.of_nat (len s) <=? col) with false by (symmetry; apply Z.leb_gt; lia).
  cbn [bind]. unfold slice_get, slice_set.
  replace (col <? 0) with false by (symmetry; apply Z.ltb_ge; lia).
  replace (Z.of_nat (len s) <=? col) with false by (symmetry; apply Z.leb_gt; lia).
  cbn [orb]. rewrite Ha, Hc. cbn [bind]. reflexivity.
Qed.

Lemma SetStyle_cell row col style w s :
  0 <= row -> 0 <= col ->
  Content (text w) !! Z.to_nat row = Some s ->
  wf_slice (heap w) s -> col < Z.of_nat (len s) ->
  exists w' c,
    SetStyle extra row col style w = Ok w'
    /\ cells (heap w) s !! Z.to_nat col = Some c
    /\ cells (heap w') s
       = <[Z.to_nat col := {| Rune := Rune c; Style := style |}]> (cells (heap w) s)
    /\ (forall s', arr s' <> arr s -> cells (heap w') s' = cells (heap w) s')
    /\ (forall s', map Rune (cells (heap w') s') = map Rune (cells (heap w) s'))
    /\ wf_slice (heap w') s
    /\ text w' = text w /\ render w' = render w.
Proof.
  intros Hrow Hcol Hs Hwf Hlt.
  destruct (SetStyle_in_range row col style w s Hrow Hcol Hs Hwf Hlt)
    as (a & c & Ha & Hc & HS).
  eexists. exists c. split; [exact HS|]. cbn [heap text render set_heap].
  assert (arr s < length (heap w))%nat as Harr by (eapply lookup_lt_Some, Ha).
  destruct Hwf as (Hlen & Hwf).
  split; [|split; [|split; [|split; [|split; [|split]]]]]; try reflexivity.
  - unfold cells. rewrite Ha. rewrite lookup_take_lt by lia.
    rewrite lookup_drop. exact Hc.
  - unfold cells. rewrite list_lookup_insert_eq by exact Harr. rewrite Ha.
    rewrite drop_insert_ge by lia.
    replace (off s + Z.to_nat col - off s)%nat with (Z.to_nat col) by lia.
    rewrite take_insert_lt by lia. reflexivity.
  - intros s' Hne. unfold cells. rewrite list_lookup_insert_ne by congruence.
    reflexivity.
  - intros s'.
    apply (restyle_runes (heap w) (arr s) _ a c); [exact Ha | exact Hc | reflexivity].
  - split; [exact Hlen|]. destruct Hwf as [Hcap | (a' & Ha' & Hoff)]; [left; exact Hcap|].
    right. eexists. split; [apply list_lookup_insert_eq; exact Harr|].
    rewrite length_insert. congruence.
Qed.

(** X6: [SetStyle] on a cell that exists (the row is in the buffer, the
    column is inside the row) returns and stores the style in that cell:
    the row reads as before except for the style of the cell, whose rune is
    kept; rows backed by another array read as before, the buffer's rows,
    the text the grid reports and the renderer are unchanged (nothing is
    repainted). *)
Theorem X6_SetStyle_existing_cell row col style w s :
  0 <= row -> 0 <= col ->
  Content (text w) !! Z.to_nat row = Some s ->
  wf_slice (heap w) s -> col < Z.of_nat (len s) ->
  exists w' c,
    SetStyle extra row col style w = Ok w'
    /\ cells (heap w) s !! Z.to_nat col = Some c
    /\ cells (heap w') s
       = <[Z.to_nat col := {| Rune := Rune c; Style := style |}]> (cells (heap w) s)
    /\ (forall s', arr s' <> arr s -> cells (heap w') s' = cells (heap w) s')
    /\ text w' = text w /\ render w' = render w
    /\ Text w' = Text w.
Proof.
  intros Hrow Hcol Hs Hwf Hlt.
  destruct (SetStyle_cell row col style w s Hrow Hcol Hs Hwf Hlt)
    as (w' & c & HS & Hc & Hcells & Hother & Hrunes & _ & Ht & Hr).
  exists w', c. repeat (split; [assumption|]).
  unfold Text. rewrite Ht. apply Text_runes.
  apply Forall_forall. intros s' _. apply Hrunes.
Qed.
End SetStyleProps.

Lemma X6_SetStyle_existing_cell_witness :
  exists w' c,
    widget.SetStyle example.doubling 0 1 example.red example.grid_AB_C = Ok w'
    /\ widget.cells (widget.heap example.grid_AB_C)
         {| widget.arr := 1; widget.off := 0; widget.len := 2; widget.cap := 3 |}
       !! Z.to_nat 1 = Some c
    /\ widget.cells (widget.heap w')
         {| widget.arr := 1; widget.off := 0; widget.len := 2; widget.cap := 3 |}
       = <[Z.to_nat 1 := {| widget.Rune := widget.Rune c; widget.Style := example.red |}]>
           (widget.cells (widget.heap example.grid_AB_C)
              {| widget.arr := 1; widget.off := 0; widget.len := 2; widget.cap := 3 |})
    /\ (forall s', widget.arr s' <> 1%nat ->
          widget.cells (widget.heap w') s' = widget.cells (widget.heap example.grid_AB_C) s')
    /\ widget.text w' = widget.text example.grid_AB_C
    /\ widget.render w' = widget.render example.grid_AB_C
    /\ widget.Text w' = widget.Text example.grid_AB_C.
Proof.
  apply (X6_SetStyle_existing_cell example.doubling 0 1 example.red example.grid_AB_C
           {| widget.arr := 1; widget.off := 0; widget.len := 2; widget.cap := 3 |}).
  - lia.
  - lia.
  - reflexivity.
  - split; [cbn; lia|]. right. eexists. split; [reflexivity|]. cbn. lia.
  - cbn. lia.
Defined.


Section SetStyleRangeProps.
Import widget.
Variable extra : nat -> nat.

Lemma styleRowTo_in_range row endCol style s n : forall col w,
  0 <= row -> 0 <= col -> n = Z.to_nat (endCol + 1 - col) ->
  Content (text w) !! Z.to_nat row = Some s ->
  wf_slice (heap w) s -> endCol < Z.of_nat (len s) ->
  exists w',
    while n (fun '(col, _) => Ok (col <=? endCol))
            (fun '(col, w) => w <- SetStyle extra row col style w ;; Ok (col + 1, w))
            (col, w)
    = Ok (Z.max col (endCol + 1), w')
    /\ text w' = text w /\ render w' = render w
    /\ wf_slice (heap w') s
    /\ (forall k, cells (heap w') s !! k
                  = restyled style col endCol k <$> cells (heap w) s !! k)
    /\ (forall s', arr s' <> arr s -> cells (heap w') s' = cells (heap w) s')
    /\ (forall s', map Rune (cells (heap w') s') = map Rune (cells (heap w) s')).
Proof.
  induction n as [|n IH]; intros col w Hrow Hcol Hn Hs Hwf Hend.
  - exists w. cbn [while bind].
    replace (col <=? endCol) with false by (symmetry; apply Z.leb_gt; lia).
    replace (Z.max col (endCol + 1)) with col by lia.
    repeat split; try reflexivity; try apply Hwf.
    intros k. destruct (cells (heap w) s !! k) as [c|]; [|reflexivity].
    cbn. unfold restyled.
    destruct (Z.leb_spec col (Z.of_nat k)), (Z.leb_spec (Z.of_nat k) endCol);
      try reflexivity; lia.
  - assert (col <= endCol) as Hle by lia.
    destruct (SetStyle_cell extra row col style w s Hrow Hcol Hs Hwf ltac:(lia))
      as (w1 & c & HS & Hc & Hcells & Hother & Hrunes & Hwf1 & Ht1 & Hr1).
    destruct (IH (col + 1) w1 Hrow ltac:(lia) ltac:(lia)
                ltac:(rewrite Ht1; exact Hs) Hwf1 Hend)
      as (w' & HW & Ht & Hr & Hwf' & Hcells' & Hother' & Hrunes').
    exists w'. cbn [while bind].
    replace (col <=? endCol) with true by (symmetry; apply Z.leb_le; lia).
    rewrite HS. cbn [bind]. rewrite HW.
    split; [f_equal; f_equal; lia|].
    split; [congruence|]. split; [congruence|]. split; [exact Hwf'|].
    split; [|split].
    + intros k. rewrite Hcells', Hcells.
      destruct (decide (k = Z.to_nat col)) as [->|Hne].
      * rewrite list_lookup_insert_eq by (eapply lookup_lt_Some, Hc). rewrite Hc.
        cbn. f_equal. unfold restyled. rewrite Z2Nat.id by lia.
        replace (col + 1 <=? col) with false by (symmetry; apply Z.leb_gt; lia).
        rewrite Z.leb_refl.
        replace (col <=? endCol) with true by (symmetry; apply Z.leb_le; lia).
        reflexivity.
      * rewrite list_lookup_insert_ne by congruence.
        destruct (cells (heap w) s !! k) as [c0|]; [|reflexivity].
        cbn. f_equal. unfold restyled.
        destruct (Z.leb_spec (col + 1) (Z.of_nat k)), (Z.leb_spec col (Z.of_nat k));
          try reflexivity; lia.
    + intros s' Hne. rewrite Hother', Hother by exact Hne. reflexivity.
    + intros s'. rewrite Hrunes', Hrunes. reflexivity.
Qed.

(** X7: [SetStyleRange] within one row that is in the buffer, from a column
    that is not negative to a column inside the row, returns and restyles
    exactly the cells of the columns [startCol .. endCol] of that row: each
    keeps its rune, every other cell of the row and every row backed by
    another array reads as before, and the text the grid reports and the
    renderer are unchanged. *)
Theorem X7_SetStyleRange_one_row row startCol endCol style w s :
  0 <= row -> 0 <= startCol ->
  Content (text w) !! Z.to_nat row = Some s ->
  wf_slice (heap w) s -> endCol < Z.of_nat (len s) ->
  exists w',
    SetStyleRange extra row startCol row endCol style w = Ok w'
    /\ length (cells (heap w') s) = length (cells (heap w) s)
    /\ (forall (k : nat) c, cells (heap w) s !! k = Some c ->
          cells (heap w') s !! k
          = Some (if (startCol <=? Z.of_nat k) && (Z.of_nat k <=? endCol)
                  then {| Rune := Rune c; Style := style |} else c))
    /\ (forall s', arr s' <> arr s -> cells (heap w') s' = cells (heap w) s')
    /\ text w' = text w /\ render w' = render w
    /\ Text w' = Text w.
Proof.
  intros Hrow Hcol Hs Hwf Hend.
  destruct (styleRowTo_in_range row endCol style s _ startCol w Hrow Hcol eq_refl
              Hs Hwf Hend)
    as (w' & HW & Ht & Hr & Hwf' & Hcells & Hother & Hrunes).
  exists w'. unfold SetStyleRange, styleRowTo. rewrite Z.eqb_refl, HW. cbn [bind snd].
  split; [reflexivity|]. split; [|split; [|split; [|split; [|split]]]].
  - rewrite !cells_length by assumption. reflexivity.
  - intros k c Hk. rewrite Hcells, Hk. reflexivity.
  - exact Hother.
  - exact Ht.
  - exact Hr.
  - unfold Text. rewrite Ht. apply Text_runes.
    apply Forall_forall. intros s' _. apply Hrunes.
Qed.
End SetStyleRangeProps.

Lemma X7_SetStyleRange_one_row_witness :
  exists w',
    widget.SetStyleRange example.doubling 0 0 0 1 example.red example.grid_AB_C = Ok w'
    /\ length (widget.cells (widget.heap w')
                 {| widget.arr := 1; widget.off := 0; widget.len := 2; widget.cap := 3 |})
       = length (widget.cells (widget.heap example.grid_AB_C)
                   {| widget.arr := 1; widget.off := 0; widget.len := 2; widget.cap := 3 |})
    /\ (forall (k : nat) c,
          widget.cells (widget.heap example.grid_AB_C)
            {| widget.arr := 1; widget.off := 0; widget.len := 2; widget.cap := 3 |} !! k
          = Some c ->
          widget.cells (widget.heap w')
            {| widget.arr := 1; widget.off := 0; widget.len := 2; widget.cap := 3 |} !! k
          = Some (if (0 <=? Z.of_nat k) && (Z.of_nat k <=? 1)
                  then {| widget.Rune := widget.Rune c; widget.Style := example.red |}
                  else c))
    /\ (forall s', widget.arr s' <> 1%nat ->
          widget.cells (widget.heap w') s' = widget.cells (widget.heap example.grid_AB_C) s')
    /\ widget.text w' = widget.text example.grid_AB_C
    /\ widget.render w' = widget.render example.grid_AB_C
    /\ widget.Text w' = widget.Text example.grid_AB_C.
Proof.
  apply (X7_SetStyleRange_one_row example.doubling 0 0 1 example.red example.grid_AB_C
           {| widget.arr := 1; widget.off := 0; widget.len := 2; widget.cap := 3 |}).
  - lia.
  - lia.
  - reflexivity.
  - split; [cbn; lia|]. right. eexists. split; [reflexivity|]. cbn. lia.
  - cbn. lia.
Defined.


Section LayoutGeometry.
Import fyne widget.
Variable th : theme.Theme.







End LayoutGeometry.



Section MinSizeProps.
Import fyne widget.
Variable th : theme.Theme.



End MinSizeProps.



Section RefreshTwice.
Import widget.
Variable th : theme.Theme.

Lemma setCellRune_id r (pos : nat) style t :
  shown (objects t) pos = Some (look th (r, style)) ->
  setCellRune th r (Z.of_nat pos) style t = Ok t.
Proof.
  unfold shown, look, setCellRune. cbn [fst snd]. intros H.
  destruct (objects t !! (2 * pos)%nat) as [a|] eqn:Ha; [|discriminate].
  destruct a as [bg rpos rsize|]; [|discriminate].
  destruct (objects t !! (2 * pos + 1)%nat) as [b|] eqn:Hb; [|discriminate].
  destruct b as [|s fg tpos tsize]; [discriminate|].
  injection H as Hs Hfg Hbg.
  replace (Z.of_nat pos * 2) with (Z.of_nat (2 * pos)) by lia.
  replace (Z.of_nat (2 * pos) + 1) with (Z.of_nat (2 * pos + 1)) by lia.
  rewrite (index_lookup _ _ _ Ha). cbn [bind].
  rewrite (index_lookup _ _ _ Hb). cbn [bind].
  rewrite !Nat2Z.id, <- Hs, <- Hfg, <- Hbg.
  rewrite (list_insert_id _ _ _ Hb), (list_insert_id _ _ _ Ha).
  destruct t; reflexivity.
Qed.

Lemma drawAll_id l : forall (x : nat) t,
  (forall k g, l !! k = Some g -> shown (objects t) (x + k) = Some (look th g)) ->
  drawAll th l (Z.of_nat x) t = Ok (Z.of_nat (x + length l), t).
Proof.
  induction l as [|g l IH]; intros x t H; cbn [drawAll length].
  - rewrite Nat.add_0_r. reflexivity.
  - pose proof (H 0%nat g eq_refl) as H0. rewrite Nat.add_0_r in H0.
    destruct g as [r style]. cbn [fst snd].
    rewrite (setCellRune_id r x style t H0). cbn [bind].
    replace (Z.of_nat x + 1) with (Z.of_nat (S x)) by lia.
    rewrite IH.
    + do 2 f_equal. lia.
    + intros k g Hk. replace (S x + k)%nat with (x + S k)%nat by lia.
      apply H. exact Hk.
Qed.

Lemma ensureGrid_noop t :
  2 * (cols t * rows t) <= Z.of_nat (length (objects t)) ->
  ensureGrid th t = Ok t.
Proof.
  intros H. unfold ensureGrid.
  destruct (Z.eqb_spec (Z.of_nat (length (objects t))) (cols t * rows t * 2));
    [reflexivity|].
  replace (Z.to_nat (cols t * rows t * 2 - Z.of_nat (length (objects t)))) with 0%nat
    by lia.
  cbn [while bind].
  replace (Z.of_nat (length (objects t)) <? cols t * rows t * 2) with false
    by (symmetry; apply Z.ltb_ge; lia).
  reflexivity.
Qed.

Lemma rows_glyphs_ext w w' t t' rest : forall rowIndex,
  heap w' = heap w -> text w' = text w -> cols t' = cols t -> rows t' = rows t ->
  rows_glyphs th w' t' rowIndex rest = rows_glyphs th w t rowIndex rest.
Proof.
  intros rowIndex Hh Ht Hc Hr. revert rowIndex.
  induction rest as [|row rest IH]; intros rowIndex; cbn [rows_glyphs]; [reflexivity|].
  rewrite Hr, IH. unfold row_glyphs, gutter_glyphs, lineCountWidth.
  rewrite Hh, Ht, Hc, Hr. reflexivity.
Qed.

Lemma grid_glyphs_ext w w' :
  heap w' = heap w -> text w' = text w ->
  cols (render w') = cols (render w) -> rows (render w') = rows (render w) ->
  length (objects (render w')) = length (objects (render w)) ->
  grid_glyphs th w' = grid_glyphs th w.
Proof.
  intros Hh Ht Hc Hr Hl. unfold grid_glyphs.
  rewrite (rows_glyphs_ext w w' (render w) (render w') _ 0 Hh Ht Hc Hr), Ht, Hl.
  reflexivity.
Qed.

(** X10: a refresh pass is idempotent.  When a pass has returned, a
    second pass on its result, with buffer and flags as they are, returns
    the very same world: no primitive changes its text, colour, position
    or size. *)
Theorem X10_Refresh_twice w w1 :
  render_ok (render w) ->
  Refresh th w = Ok w1 ->
  Refresh th w1 = Ok w1.
Proof.
  intros (Hc & Hr & Hok & Hlen & Hcw & Hch) HR.
  destruct (ensureGrid_spec th (render w) Hok ltac:(nia))
    as (t & Het & Hct & Hrt & Hst & Hokt & Hlent & _).
  unfold Refresh in HR. rewrite Het in HR. cbn [bind] in HR.
  rewrite refreshGrid_drawAll in HR. cbn [render set_render] in HR.
  set (w0 := set_render w t) in *.
  destruct (drawAll th (grid_glyphs th w0) 0 t) as [[x' t1]| |] eqn:Hd; try discriminate.
  cbn [bind snd] in HR. injection HR as <-.
  assert (2 * (0 + length (grid_glyphs th w0)) <= length (objects t))%nat as Hfit.
  { destruct (Nat.le_gt_cases (2 * (0 + length (grid_glyphs th w0))) (length (objects t)))
      as [Hle|Hgt]; [exact Hle|].
    pose proof (drawAll_overflow th (grid_glyphs th w0) 0 t Hokt ltac:(lia) Hgt) as Hp.
    change (Z.of_nat 0) with 0 in Hp. congruence. }
  destruct (drawAll_fits th (grid_glyphs th w0) 0 t Hokt Hfit)
    as (t' & Hd' & Hok' & Hshown & _).
  change (Z.of_nat 0) with 0 in Hd'.
  assert (t' = t1) as -> by congruence.
  pose proof (drawAll_frame _ _ _ _ _ _ Hd) as (_ & Hc' & Hr' & Hs' & Hlen').
  unfold Refresh. cbn [render set_render].
  rewrite ensureGrid_noop by (rewrite Hc', Hr', Hlen', Hct, Hrt; lia).
  cbn [bind]. rewrite refreshGrid_drawAll. cbn [render set_render].
  change (set_render (set_render w0 t1) t1) with (set_render w0 t1).
  rewrite (grid_glyphs_ext w0 (set_render w0 t1) eq_refl eq_refl Hc' Hr' Hlen').
  pose proof (drawAll_id (grid_glyphs th w0) 0 t1 Hshown) as Hid.
  change (Z.of_nat 0) with 0 in Hid. rewrite Hid. cbn [bind snd]. reflexivity.
Qed.
End RefreshTwice.

Lemma X10_Refresh_twice_witness :
  widget.Refresh example.th0 example.grid_AB_C_shown = Ok example.grid_AB_C_shown.
Proof.
  apply (X10_Refresh_twice example.th0 example.grid_AB_C_laid_out example.grid_AB_C_shown).
  - exact grid_AB_C_laid_out_ok.
  - vm_compute. reflexivity.
Defined.


Section DrawerProps.
Import painter advance_spec.
Variable th : Settings.

Lemma tabStop_None f x :
  tabStop th f x = None
  <-> exists spacew, GlyphAdvance f space = Some spacew
                     /\ mul32 spacew (SizeNameTabWidth th) = 0.
Proof.
  unfold tabStop, div32. destruct (GlyphAdvance f space) as [spacew|].
  - destruct (Z.eqb_spec (mul32 spacew (SizeNameTabWidth th)) 0) as [He|Hne].
    + split; [intros _; exists spacew; split; [reflexivity | exact He] | reflexivity].
    + split; [discriminate|]. intros (sw & Hsw & H0). congruence.
  - split; [discriminate|]. intros (sw & Hsw & _). discriminate.
Qed.

Lemma MeasureString_loop_None f cs : forall prev adv,
  MeasureString_loop th f cs prev adv = None
  <-> In tab cs
      /\ exists spacew, GlyphAdvance f space = Some spacew
                        /\ mul32 spacew (SizeNameTabWidth th) = 0.
Proof.
  induction cs as [|c cs IH]; intros prev adv; cbn [MeasureString_loop].
  - split; [discriminate | intros [[] _]].
  - set (adv1 := if 0 <=? prev then add32 adv (Kern f prev c) else adv).
    destruct (Z.eqb_spec c tab) as [->|Hne].
    + destruct (tabStop th f adv1) as [x|] eqn:Ht.
      * rewrite IH. split; [intros [Hin Hz]; split; [right; exact Hin | exact Hz]|].
        intros [_ Hz]. apply (tabStop_None f adv1) in Hz. congruence.
      * split; [|reflexivity]. intros _. split; [left; reflexivity|].
        apply (tabStop_None f adv1). exact Ht.
    + assert (In tab (c :: cs) <-> In tab cs) as Hin.
      { split; [intros [H|H]; [congruence | exact H] | intros H; right; exact H]. }
      destruct (GlyphAdvance f c); rewrite IH, Hin; reflexivity.
Qed.

Lemma DrawString_loop_None cs : forall prev d,
  DrawString_loop th cs prev d = None
  <-> In tab cs
      /\ exists spacew, GlyphAdvance (face d) space = Some spacew
                        /\ mul32 spacew (SizeNameTabWidth th) = 0.
Proof.
  induction cs as [|c cs IH]; intros prev d; cbn [DrawString_loop].
  - split; [discriminate | intros [[] _]].
  - set (d1 := if 0 <=? prev then setX d (add32 (X (Dot d)) (Kern (face d) prev c)) else d).
    assert (face d1 = face d) as Hf1 by (subst d1; destruct (0 <=? prev); reflexivity).
    destruct (Z.eqb_spec c tab) as [->|Hne].
    + destruct (tabStop th (face d1) (X (Dot d1))) as [x|] eqn:Ht.
      * rewrite IH. cbn [face setX]. rewrite Hf1.
        split; [intros [Hin Hz]; split; [right; exact Hin | exact Hz]|].
        intros [_ Hz]. rewrite <- Hf1 in Hz.
        apply (tabStop_None (face d1) (X (Dot d1))) in Hz. congruence.
      * split; [|reflexivity]. intros _. split; [left; reflexivity|].
        rewrite <- Hf1. apply (tabStop_None (face d1) (X (Dot d1))). exact Ht.
    + assert (In tab (c :: cs) <-> In tab cs) as Hin.
      { split; [intros [H|H]; [congruence | exact H] | intros H; right; exact H]. }
      destruct (Glyph (face d1) (Dot d1) c); rewrite IH, Hin; cbn [face setX DrawMask];
        rewrite ?Hf1; reflexivity.
Qed.

(** X11: measuring and drawing a string fail in one case only, the
    division by zero in [tabStop]: the string holds a tab, the face has a
    glyph for the space, and its advance times the tab width of the theme
    is zero as a 32-bit integer.  In every other case both return. *)
Theorem X11_tab_width_zero_panics d s :
  (MeasureString th (face d) s = None
   <-> In tab (utf8.range s)
       /\ exists spacew, GlyphAdvance (face d) space = Some spacew
                         /\ mul32 spacew (SizeNameTabWidth th) = 0)
  /\ (DrawString th d s = None
      <-> In tab (utf8.range s)
          /\ exists spacew, GlyphAdvance (face d) space = Some spacew
                            /\ mul32 spacew (SizeNameTabWidth th) = 0).
Proof.
  split; [apply MeasureString_loop_None | apply DrawString_loop_None].
Qed.

(** The characters that leave a mask on the destination. *)
Lemma DrawString_loop_masks f cs : forall prev d d',
  coherent f -> face d = f ->
  DrawString_loop th cs prev d = Some d' ->
  face d' = f /\ Y (Dot d') = Y (Dot d)
  /\ exists new, Dst d' = new ++ Dst d
       /\ length new
          = length (List.filter (fun c => negb (c =? tab) && has_glyph f c) cs).
Proof.
  induction cs as [|c cs IH]; intros prev d d' Hco Hf HD; cbn [DrawString_loop] in HD.
  - injection HD as <-. split; [exact Hf|]. split; [reflexivity|].
    exists []. split; reflexivity.
  - set (d1 := if 0 <=? prev then setX d (add32 (X (Dot d)) (Kern (face d) prev c)) else d)
      in *.
    assert (face d1 = f /\ Y (Dot d1) = Y (Dot d) /\ Dst d1 = Dst d) as (Hf1 & Hy1 & Hd1).
    { subst d1. destruct (0 <=? prev); cbn; auto. }
    cbn [List.filter]. destruct (Z.eqb_spec c tab) as [->|Hne]; cbn [negb andb].
    + destruct (tabStop th (face d1) (X (Dot d1))) as [x|]; [|discriminate].
      destruct (IH tab (setX d1 x) d' Hco Hf1 HD) as (Hf' & Hy' & new & Hnew & Hlen).
      cbn in Hy', Hnew. split; [exact Hf'|]. split; [congruence|].
      exists new. split; [congruence | exact Hlen].
    + pose proof (Hco (Dot d1) c) as Hc. rewrite Hf1 in HD.
      destruct (Glyph f (Dot d1) c) as [g|]; cbn in Hc.
      * assert (has_glyph f c = true) as Hh
          by (unfold has_glyph; rewrite <- Hc; reflexivity).
        rewrite Hh. cbn [length].
        destruct (IH c (setX (DrawMask d1 g) (add32 (X (Dot (DrawMask d1 g))) (advance g)))
                    d' Hco Hf1 HD) as (Hf' & Hy' & new & Hnew & Hlen).
        cbn in Hy', Hnew. split; [exact Hf'|]. split; [congruence|].
        exists (new ++ [(dr g, mask g, maskp g)]).
        split; [rewrite <- app_assoc; cbn; congruence|].
        rewrite length_app. cbn [length]. lia.
      * assert (has_glyph f c = false) as Hh
          by (unfold has_glyph; rewrite <- Hc; reflexivity).
        rewrite Hh.
        destruct (IH prev d1 d' Hco Hf1 HD) as (Hf' & Hy' & new & Hnew & Hlen).
        split; [exact Hf'|]. split; [congruence|].
        exists new. split; [congruence | exact Hlen].
Qed.

(** X12: with a face whose [Glyph] and [GlyphAdvance] agree, a
    [DrawString] that returns has drawn one mask for every character that
    is not a tab and has a glyph, and none for the others; what was on the
    destination is kept, and the pen stays on its line with its face. *)
Theorem X12_DrawString_masks d s d' :
  coherent (face d) ->
  DrawString th d s = Some d' ->
  face d' = face d /\ Y (Dot d') = Y (Dot d)
  /\ exists new, Dst d' = new ++ Dst d
       /\ length new
          = length (List.filter (fun c => negb (c =? tab) && has_glyph (face d) c)
                                (utf8.range s)).
Proof.
  intros Hco HD. apply (DrawString_loop_masks (face d) _ (-1) d d' Hco eq_refl HD).
Qed.
End DrawerProps.

Lemma X12_DrawString_masks_witness :
  painter.face advance_spec.drawn_a_tab_a
  = painter.face (advance_spec.drawer_at advance_spec.face_a 0)
  /\ painter.Y (painter.Dot advance_spec.drawn_a_tab_a)
     = painter.Y (painter.Dot (advance_spec.drawer_at advance_spec.face_a 0))
  /\ exists new,
       painter.Dst advance_spec.drawn_a_tab_a
       = new ++ painter.Dst (advance_spec.drawer_at advance_spec.face_a 0)
       /\ length new
          = length (List.filter
                      (fun c => negb (c =? painter.tab)
                                && advance_spec.has_glyph
                                     (painter.face (advance_spec.drawer_at advance_spec.face_a 0)) c)
                      (utf8.range advance_spec.a_tab_a)).
Proof.
  apply (X12_DrawString_masks advance_spec.tabs4
           (advance_spec.drawer_at advance_spec.face_a 0) advance_spec.a_tab_a
           advance_spec.drawn_a_tab_a).
  - exact face_a_coherent.
  - vm_compute. reflexivity.
Defined.


Section NewGrid.
Import fyne widget.
Variable extra : nat -> nat.
Variable th : theme.Theme.



End NewGrid.



Section StyledRows.
Import widget.
Variable extra : nat -> nat.
Variable style : option TextGridStyle.

Ltac bool_lia :=
  repeat match goal with
         | |- context [?a =? ?b] => destruct (Z.eqb_spec a b)
         | |- context [?a <=? ?b] => destruct (Z.leb_spec a b)
         | |- context [?a <? ?b] => destruct (Z.ltb_spec a b)
         end; cbn; try reflexivity; try lia.

Lemma index_Some {A : Type} (l : list A) row x :
  0 <= row -> l !! Z.to_nat row = Some x -> index l row = Ok x.
Proof.
  intros Hrow Hx. unfold index.
  replace (row <? 0) with false by (symmetry; apply Z.ltb_ge; lia).
  rewrite Hx. reflexivity.
Qed.

Lemma wf_slice_shape (h h' : Heap) s :
  map (@length TextGridCell) h' = map (@length TextGridCell) h ->
  wf_slice h s -> wf_slice h' s.
Proof.
  intros Hshape (Hlen & Hwf). split; [exact Hlen|].
  destruct Hwf as [Hcap | (a & Ha & Hoff)]; [left; exact Hcap|]. right.
  apply (f_equal (fun l => l !! arr s)) in Hshape.
  rewrite !list_lookup_fmap, Ha in Hshape.
  destruct (h' !! arr s) as [a'|]; [|discriminate].
  exists a'. split; [reflexivity|]. cbn in Hshape. injection Hshape as Hl. lia.
Qed.

Lemma styled_only_rows_ok f w w' :
  styled_only style f w w' ->
  rows_ok (heap w) (Content (text w)) -> rows_ok (heap w') (Content (text w')).
Proof.
  intros (Ht & _ & Hshape & _) (Hwf & Hdis). rewrite Ht. split; [|exact Hdis].
  eapply Forall_impl; [exact Hwf|]. intros s. apply wf_slice_shape. exact Hshape.
Qed.

Lemma styled_only_refl f w :
  (forall r k, f r k = false) -> styled_only style f w w.
Proof.
  intros Hf. repeat split. intros r s _ k. 
  destruct (cells (heap w) s !! k); [|reflexivity]. cbn. rewrite Hf. reflexivity.
Qed.

Lemma styled_only_trans f1 f2 f w w1 w2 :
  (forall r k, f r k = f1 r k || f2 r k) ->
  styled_only style f1 w w1 -> styled_only style f2 w1 w2 ->
  styled_only style f w w2.
Proof.
  intros Hf (Ht1 & Hr1 & Hs1 & Hc1) (Ht2 & Hr2 & Hs2 & Hc2).
  split; [congruence|]. split; [congruence|]. split; [congruence|].
  intros r s Hs k. rewrite (Hc2 r s ltac:(rewrite Ht1; exact Hs) k), (Hc1 r s Hs k).
  destruct (cells (heap w) s !! k) as [c|]; [|reflexivity]. cbn. rewrite Hf.
  destruct (f1 r k), (f2 r k); reflexivity.
Qed.

Lemma styled_only_Text f w w' :
  styled_only style f w w' -> Text w' = Text w.
Proof.
  intros (Ht & _ & _ & Hc). unfold Text. rewrite Ht. apply Text_runes.
  apply Forall_forall. intros s Hin.
  apply list_elem_of_lookup_1 in Hin. destruct Hin as (r & Hr).
  apply list_eq. intros k. rewrite !list_lookup_fmap, (Hc r s Hr k).
  destruct (cells (heap w) s !! k) as [c|]; [|reflexivity]. cbn.
  destruct (f r k); reflexivity.
Qed.

Lemma SetStyle_styled row col w s :
  rows_ok (heap w) (Content (text w)) ->
  0 <= row -> 0 <= col ->
  Content (text w) !! Z.to_nat row = Some s -> col < Z.of_nat (len s) ->
  exists w', SetStyle extra row col style w = Ok w'
    /\ styled_only style (fun r k => (Z.of_nat r =? row) && (Z.of_nat k =? col)) w w'.
Proof.
  intros (Hwf & Hdis) Hrow Hcol Hs Hlt.
  assert (wf_slice (heap w) s) as Hwfs.
  { eapply Forall_forall in Hwf; [exact Hwf|].
    eapply list_elem_of_lookup_2. exact Hs. }
  destruct (SetStyle_in_range extra row col style w s Hrow Hcol Hs Hwfs Hlt)
    as (a & c0 & Ha & Hc0 & HS0).
  destruct (SetStyle_cell extra row col style w s Hrow Hcol Hs Hwfs Hlt)
    as (w' & c & HS & Hc & Hcells & Hother & _ & _ & Ht & Hr).
  exists w'. split; [exact HS|]. split; [exact Ht|]. split; [exact Hr|]. split.
  - rewrite HS in HS0. injection HS0 as ->. cbn [heap set_heap].
    rewrite list_fmap_insert, length_insert. apply list_insert_id.
    rewrite list_lookup_fmap, Ha. reflexivity.
  - intros r s' Hs' k. destruct (decide (r = Z.to_nat row)) as [->|Hne].
    + assert (s' = s) as -> by congruence. rewrite Hcells.
      replace (Z.of_nat (Z.to_nat row) =? row) with true by (symmetry; apply Z.eqb_eq; lia).
      cbn [andb]. destruct (decide (k = Z.to_nat col)) as [->|Hk].
      * rewrite list_lookup_insert_eq by (eapply lookup_lt_Some, Hc). rewrite Hc. cbn.
        replace (Z.of_nat (Z.to_nat col) =? col) with true
          by (symmetry; apply Z.eqb_eq; lia).
        reflexivity.
      * rewrite list_lookup_insert_ne by congruence.
        replace (Z.of_nat k =? col) with false by (symmetry; apply Z.eqb_neq; lia).
        destruct (cells (heap w) s !! k); reflexivity.
    + replace (Z.of_nat r =? row) with false by (symmetry; apply Z.eqb_neq; lia).
      cbn [andb].
      assert (cells (heap w') s' = cells (heap w) s') as ->.
      { destruct (Hdis r (Z.to_nat row) s' s Hne Hs' Hs) as [H0 | [H0 | H0]].
        - assert (wf_slice (heap w) s') as (Hl & _).
          { eapply Forall_forall in Hwf; [exact Hwf|].
            eapply list_elem_of_lookup_2. exact Hs'. }
          rewrite !cells_empty by lia. reflexivity.
        - destruct Hwfs as (Hl & _). lia.
        - apply Hother. exact H0. }
      destruct (cells (heap w) s' !! k); reflexivity.
Qed.

Lemma styleRowTo_styled row endCol s n : forall col w,
  rows_ok (heap w) (Content (text w)) ->
  0 <= row -> 0 <= col -> n = Z.to_nat (endCol + 1 - col) ->
  Content (text w) !! Z.to_nat row = Some s -> endCol < Z.of_nat (len s) ->
  exists w',
    while n (fun '(col, _) => Ok (col <=? endCol))
            (fun '(col, w) => w <- SetStyle extra row col style w ;; Ok (col + 1, w))
            (col, w)
    = Ok (Z.max col (endCol + 1), w')
    /\ styled_only style
         (fun r k => (Z.of_nat r =? row) && (col <=? Z.of_nat k) && (Z.of_nat k <=? endCol))
         w w'.
Proof.
  induction n as [|n IH]; intros col w Hok Hrow Hcol Hn Hs Hend; cbn [while bind].
  - exists w. replace (col <=? endCol) with false by (symmetry; apply Z.leb_gt; lia).
    replace (Z.max col (endCol + 1)) with col by lia. split; [reflexivity|].
    apply styled_only_refl. intros r k. bool_lia.
  - replace (col <=? endCol) with true by (symmetry; apply Z.leb_le; lia).
    destruct (SetStyle_styled row col w s Hok Hrow Hcol Hs ltac:(lia)) as (w1 & HS & H1).
    rewrite HS. cbn [bind].
    pose proof (styled_only_rows_ok _ _ _ H1 Hok) as Hok1.
    destruct H1 as (Ht1 & Hrest1).
    destruct (IH (col + 1) w1 Hok1 Hrow ltac:(lia) ltac:(lia)
                ltac:(rewrite Ht1; exact Hs) Hend) as (w' & HW & H2).
    exists w'. rewrite HW. split; [do 2 f_equal; lia|].
    eapply styled_only_trans; [|split; [exact Ht1 | exact Hrest1] | exact H2].
    intros r k. cbn beta. bool_lia.
Qed.

Lemma styleRowFrom_loop row s n : forall col w,
  rows_ok (heap w) (Content (text w)) ->
  0 <= row -> 0 <= col -> n = Z.to_nat (Z.of_nat (len s) - col) ->
  Content (text w) !! Z.to_nat row = Some s ->
  exists w' col',
    while n
      (fun '(col, w) =>
         content <- index (Content (text w)) row ;;
         Ok (col <? Z.of_nat (len content)))
      (fun '(col, w) => w <- SetStyle extra row col style w ;; Ok (col + 1, w))
      (col, w)
    = Ok (col', w')
    /\ styled_only style (fun r k => (Z.of_nat r =? row) && (col <=? Z.of_nat k)) w w'.
Proof.
  induction n as [|n IH]; intros col w Hok Hrow Hcol Hn Hs; cbn [while bind];
    rewrite (index_Some _ _ _ Hrow Hs); cbn [bind].
  - exists w, col.
    replace (col <? Z.of_nat (len s)) with false by (symmetry; apply Z.ltb_ge; lia).
    split; [reflexivity|].
    destruct Hok as (Hwf & _).
    assert (wf_slice (heap w) s) as Hwfs.
    { eapply Forall_forall in Hwf; [exact Hwf|].
      eapply list_elem_of_lookup_2. exact Hs. }
    repeat split. intros r s' Hs' k.
    destruct (cells (heap w) s' !! k) as [c|] eqn:Hc; [|reflexivity]. cbn.
    destruct (Z.eqb_spec (Z.of_nat r) row) as [He|]; [|reflexivity].
    assert (s' = s) as -> by (rewrite <- He, Nat2Z.id in Hs; congruence).
    apply lookup_lt_Some in Hc. rewrite (cells_length _ _ Hwfs) in Hc.
    replace (col <=? Z.of_nat k) with false by (symmetry; apply Z.leb_gt; lia).
    reflexivity.
  - replace (col <? Z.of_nat (len s)) with true by (symmetry; apply Z.ltb_lt; lia).
    destruct (SetStyle_styled row col w s Hok Hrow Hcol Hs ltac:(lia)) as (w1 & HS & H1).
    rewrite HS. cbn [bind].
    pose proof (styled_only_rows_ok _ _ _ H1 Hok) as Hok1.
    destruct H1 as (Ht1 & Hrest1).
    destruct (IH (col + 1) w1 Hok1 Hrow ltac:(lia) ltac:(lia)
                ltac:(rewrite Ht1; exact Hs)) as (w' & col' & HW & H2).
    exists w', col'. split; [exact HW|].
    eapply styled_only_trans; [|split; [exact Ht1 | exact Hrest1] | exact H2].
    intros r k. cbn beta. bool_lia.
Qed.

Lemma styleRowFrom_styled row col w s :
  rows_ok (heap w) (Content (text w)) ->
  0 <= row -> 0 <= col ->
  Content (text w) !! Z.to_nat row = Some s ->
  exists w', styleRowFrom extra row col style w = Ok w'
    /\ styled_only style (fun r k => (Z.of_nat r =? row) && (col <=? Z.of_nat k)) w w'.
Proof.
  intros Hok Hrow Hcol Hs. unfold styleRowFrom.
  assert (Row row w = s) as -> by (rewrite (Row_as_lookup row w Hrow), Hs; reflexivity).
  destruct (styleRowFrom_loop row s _ col w Hok Hrow Hcol eq_refl Hs)
    as (w' & col' & HW & H).
  exists w'. rewrite HW. split; [reflexivity | exact H].
Qed.

Lemma styleRows_styled endRow n : forall rowNum w,
  rows_ok (heap w) (Content (text w)) ->
  0 <= rowNum -> n = Z.to_nat (endRow - 1 - rowNum) ->
  endRow - 1 <= Z.of_nat (length (Content (text w))) ->
  exists w' rowNum',
    while n (fun '(rowNum, _) => Ok (rowNum <? endRow - 1))
            (fun '(rowNum, w) =>
               w <- styleRowFrom extra rowNum 0 style w ;; Ok (rowNum + 1, w))
            (rowNum, w)
    = Ok (rowNum', w')
    /\ styled_only style
         (fun r k => (rowNum <=? Z.of_nat r) && (Z.of_nat r <? endRow - 1)) w w'.
Proof.
  induction n as [|n IH]; intros rowNum w Hok Hrow Hn Hend; cbn [while bind].
  - exists w, rowNum.
    replace (rowNum <? endRow - 1) with false by (symmetry; apply Z.ltb_ge; lia).
    split; [reflexivity|]. apply styled_only_refl. intros r k. bool_lia.
  - replace (rowNum <? endRow - 1) with true by (symmetry; apply Z.ltb_lt; lia).
    destruct (lookup_lt_is_Some_2 (Content (text w)) (Z.to_nat rowNum) ltac:(lia))
      as (s & Hs).
    destruct (styleRowFrom_styled rowNum 0 w s Hok Hrow ltac:(lia) Hs) as (w1 & HS & H1).
    rewrite HS. cbn [bind].
    pose proof (styled_only_rows_ok _ _ _ H1 Hok) as Hok1.
    destruct H1 as (Ht1 & Hrest1).
    destruct (IH (rowNum + 1) w1 Hok1 ltac:(lia) ltac:(lia)
                ltac:(rewrite Ht1; exact Hend)) as (w' & rowNum' & HW & H2).
    exists w', rowNum'. split; [exact HW|].
    eapply styled_only_trans; [|split; [exact Ht1 | exact Hrest1] | exact H2].
    intros r k. cbn beta. bool_lia.
Qed.

(** X14: [SetStyleRange] over several rows.  On a buffer whose rows are
    well formed and do not share backing arrays, for rows
    [0 <= startRow < endRow] of the buffer, a start column that is not
    negative and an end column inside the last row, the call returns and
    restyles exactly: row [startRow] from [startCol] on, every row strictly
    between [startRow] and [endRow - 1] entirely, and row [endRow] up to
    [endCol].  Runes, [Text], the rows of the buffer and the renderer are
    unchanged; the row [endRow - 1], when it is not [startRow], is left as
    it was. *)
Theorem X14_SetStyleRange_rows startRow startCol endRow endCol w last :
  rows_ok (heap w) (Content (text w)) ->
  0 <= startRow < endRow -> 0 <= startCol ->
  Content (text w) !! Z.to_nat endRow = Some last ->
  endCol < Z.of_nat (len last) ->
  exists w',
    SetStyleRange extra startRow startCol endRow endCol style w = Ok w'
    /\ text w' = text w /\ render w' = render w /\ Text w' = Text w
    /\ (forall (r : nat) s (k : nat) c,
          Content (text w) !! r = Some s -> cells (heap w) s !! k = Some c ->
          cells (heap w') s !! k
          = Some (if ((Z.of_nat r =? startRow) && (startCol <=? Z.of_nat k))
                     || ((startRow <? Z.of_nat r) && (Z.of_nat r <? endRow - 1))
                     || ((Z.of_nat r =? endRow) && (Z.of_nat k <=? endCol))
                  then {| Rune := Rune c; Style := style |} else c))
    /\ (forall s, startRow < endRow - 1 ->
          Content (text w) !! Z.to_nat (endRow - 1) = Some s ->
          cells (heap w') s = cells (heap w) s).
Proof.
  intros Hok Hrows Hcol Hlast Hend.
  pose proof (lookup_lt_Some _ _ _ Hlast) as Hlen.
  destruct (lookup_lt_is_Some_2 (Content (text w)) (Z.to_nat startRow) ltac:(lia))
    as (first & Hfirst).
  unfold SetStyleRange.
  replace (startRow =? endRow) with false by (symmetry; apply Z.eqb_neq; lia).
  destruct (styleRowFrom_styled startRow startCol w first Hok ltac:(lia) Hcol Hfirst)
    as (w1 & HS1 & H1).
  rewrite HS1. cbn [bind].
  pose proof (styled_only_rows_ok _ _ _ H1 Hok) as Hok1.
  pose proof H1 as (Ht1 & _).
  destruct (styleRows_styled endRow _ (startRow + 1) w1 Hok1 ltac:(lia) eq_refl
              ltac:(rewrite Ht1; lia)) as (w2 & rowNum' & HS2 & H2).
  rewrite HS2. cbn [bind snd].
  pose proof (styled_only_rows_ok _ _ _ H2 Hok1) as Hok2.
  pose proof H2 as (Ht2 & _).
  destruct (styleRowTo_styled endRow endCol last _ 0 w2 Hok2 ltac:(lia) ltac:(lia) eq_refl
              ltac:(rewrite Ht2, Ht1; exact Hlast) Hend) as (w' & HS3 & H3).
  unfold styleRowTo. rewrite HS3. cbn [bind snd].
  assert (styled_only style
            (fun r k => ((Z.of_nat r =? startRow) && (startCol <=? Z.of_nat k))
                        || ((startRow <? Z.of_nat r) && (Z.of_nat r <? endRow - 1))
                        || ((Z.of_nat r =? endRow) && (Z.of_nat k <=? endCol)))
            w w') as H.
  { assert (styled_only style
              (fun r k => ((Z.of_nat r =? startRow) && (startCol <=? Z.of_nat k))
                          || ((startRow + 1 <=? Z.of_nat r) && (Z.of_nat r <? endRow - 1)))
              w w2) as H12.
    { eapply (styled_only_trans _ _ _ w w1 w2); [|exact H1|exact H2].
      intros r k. reflexivity. }
    eapply (styled_only_trans _ _ _ w w2 w'); [|exact H12|exact H3].
    intros r k. cbn beta. bool_lia. }
  exists w'. split; [reflexivity|].
  pose proof H as (Ht & Hr & _ & Hc).
  split; [exact Ht|]. split; [exact Hr|].
  split; [exact (styled_only_Text _ _ _ H)|]. split.
  - intros r s k c Hs Hk. rewrite (Hc r s Hs k), Hk. reflexivity.
  - intros s Hmid Hs. apply list_eq. intros k. rewrite (Hc _ s Hs k).
    destruct (cells (heap w) s !! k) as [c|]; [|reflexivity]. cbn. f_equal.
    rewrite Z2Nat.id by lia. bool_lia.
Qed.
End StyledRows.

Lemma grid_four_rows_ok :
  widget.rows_ok (widget.heap example.grid_four)
                 (widget.Content (widget.text example.grid_four)).
Proof.
  split.
  - assert (forall a o l c,
              (l <= c)%nat ->
              (exists x, widget.heap example.grid_four !! a = Some x
                         /\ (o + c <= length x)%nat) ->
              widget.wf_slice (widget.heap example.grid_four)
                {| widget.arr := a; widget.off := o; widget.len := l; widget.cap := c |})
      as Hwf by (intros a o l c Hl Hx; split; [exact Hl | right; exact Hx]).
    replace (widget.Content (widget.text example.grid_four))
      with [{| widget.arr := 1; widget.off := 0; widget.len := 2; widget.cap := 3 |};
            {| widget.arr := 3; widget.off := 0; widget.len := 2; widget.cap := 3 |};
            {| widget.arr := 5; widget.off := 0; widget.len := 2; widget.cap := 3 |};
            {| widget.arr := 6; widget.off := 0; widget.len := 1; widget.cap := 1 |}]
      by (vm_compute; reflexivity).
    constructor; [apply Hwf; [lia | eexists; split; [reflexivity | cbn; lia]]|].
    constructor; [apply Hwf; [lia | eexists; split; [reflexivity | cbn; lia]]|].
    constructor; [apply Hwf; [lia | eexists; split; [reflexivity | cbn; lia]]|].
    constructor; [apply Hwf; [lia | eexists; split; [reflexivity | cbn; lia]]|].
    constructor.
  - intros i j s s' Hne Hi Hj. right. right.
    destruct i as [|[|[|[|i]]]]; try discriminate Hi;
      destruct j as [|[|[|[|j]]]]; try discriminate Hj; try congruence;
      vm_compute in Hi, Hj; injection Hi as <-; injection Hj as <-; cbn; lia.
Qed.

Lemma X14_SetStyleRange_rows_witness :
  exists w',
    widget.SetStyleRange example.doubling 0 1 3 0 example.red example.grid_four = Ok w'
    /\ widget.text w' = widget.text example.grid_four
    /\ widget.render w' = widget.render example.grid_four
    /\ widget.Text w' = widget.Text example.grid_four
    /\ (forall (r : nat) s (k : nat) c,
          widget.Content (widget.text example.grid_four) !! r = Some s ->
          widget.cells (widget.heap example.grid_four) s !! k = Some c ->
          widget.cells (widget.heap w') s !! k
          = Some (if ((Z.of_nat r =? 0) && (1 <=? Z.of_nat k))
                     || ((0 <? Z.of_nat r) && (Z.of_nat r <? 3 - 1))
                     || ((Z.of_nat r =? 3) && (Z.of_nat k <=? 0))
                  then {| widget.Rune := widget.Rune c; widget.Style := example.red |}
                  else c))
    /\ (forall s, 0 < 3 - 1 ->
          widget.Content (widget.text example.grid_four) !! Z.to_nat (3 - 1) = Some s ->
          widget.cells (widget.heap w') s = widget.cells (widget.heap example.grid_four) s).
Proof.
  apply (X14_SetStyleRange_rows example.doubling example.red 0 1 3 0 example.grid_four
           {| widget.arr := 6; widget.off := 0; widget.len := 1; widget.cap := 1 |}).
  - exact grid_four_rows_ok.
  - lia.
  - lia.
  - reflexivity.
  - cbn. lia.
Defined.


(** X15: [SetStyleRange] over several rows reads the first row without a
    check: when [startRow] differs from [endRow] and is not a row of the
    buffer (negative, or at or beyond its end), the call panics, whatever
    the columns and the style, and so on every empty grid. *)
Theorem X15_SetStyleRange_missing_first_row extra startRow startCol endRow endCol style w :
  startRow <> endRow ->
  startRow < 0 \/ Z.of_nat (length (widget.Content (widget.text w))) <= startRow ->
  widget.SetStyleRange extra startRow startCol endRow endCol style w = Panic.
Proof.
  intros Hne Hout. unfold widget.SetStyleRange, widget.styleRowFrom.
  replace (startRow =? endRow) with false by (symmetry; apply Z.eqb_neq; exact Hne).
  assert (index (widget.Content (widget.text w)) startRow = Panic) as Hidx.
  { unfold index. destruct (Z.ltb_spec startRow 0) as [|Hge]; [reflexivity|].
    destruct Hout as [Hneg|Hbig]; [lia|].
    rewrite (proj2 (lookup_ge_None _ _)) by lia. reflexivity. }
  destruct (Z.to_nat (Z.of_nat (widget.len (widget.Row startRow w)) - startCol));
    cbn [while bind]; rewrite Hidx; reflexivity.
Qed.

Lemma X15_SetStyleRange_missing_first_row_witness :
  widget.SetStyleRange example.doubling 2 0 3 0 example.red example.grid_AB_C = Panic.
Proof.
  apply (X15_SetStyleRange_missing_first_row example.doubling 2 0 3 0 example.red
           example.grid_AB_C); [lia | right; vm_compute; intros H; discriminate H].
Defined.


Lemma range_cons_ascii c s :
  utf8.byte_of_ascii c < utf8.RuneSelf ->
  utf8.range (String c s) = utf8.byte_of_ascii c :: utf8.range s.
Proof.
  intros H. unfold utf8.range. cbn [String.length utf8.bytes utf8.range_bytes utf8.step].
  apply Z.ltb_lt in H. rewrite H. reflexivity.
Qed.

Lemma length_range_string_of_uint d :
  length (utf8.range (NilEmpty.string_of_uint d)) = Decimal.nb_digits d.
Proof.
  induction d; cbn [NilEmpty.string_of_uint Decimal.nb_digits]; [reflexivity|..];
    rewrite range_cons_ascii by (vm_compute; reflexivity); cbn [length];
    rewrite IHd; reflexivity.
Qed.

Lemma length_string_of_uint d :
  String.length (NilEmpty.string_of_uint d) = Decimal.nb_digits d.
Proof.
  induction d; cbn [NilEmpty.string_of_uint Decimal.nb_digits String.length];
    congruence.
Qed.

Lemma nb_digits_succ d : (Decimal.nb_digits d <= Decimal.nb_digits (Decimal.Little.succ d))%nat.
Proof. induction d; cbn [Decimal.Little.succ Decimal.nb_digits]; lia. Qed.

Lemma nb_digits_to_lu_mono (n k : N) :
  (Decimal.nb_digits (DecimalPos.Unsigned.to_lu n) <= Decimal.nb_digits (DecimalPos.Unsigned.to_lu (n + k)))%nat.
Proof.
  induction k as [|k IH] using N.peano_ind; [rewrite N.add_0_r; lia|].
  rewrite N.add_succ_r, DecimalPos.Unsigned.to_lu_succ.
  pose proof (nb_digits_succ (DecimalPos.Unsigned.to_lu (n + k))). lia.
Qed.

Lemma Sprintf_d_pos p :
  Sprintf_d (Z.pos p) = NilEmpty.string_of_uint (Pos.to_uint p).
Proof.
  unfold Sprintf_d. cbn [Z.to_int NilZero.string_of_int NilZero.string_of_uint].
  pose proof (DecimalPos.Unsigned.to_uint_nonnil p) as Hnil.
  destruct (Pos.to_uint p); [congruence|..]; reflexivity.
Qed.

Lemma digits_pos p :
  Decimal.nb_digits (Pos.to_uint p) = Decimal.nb_digits (DecimalPos.Unsigned.to_lu (N.pos p)).
Proof. unfold Pos.to_uint. rewrite DecimalFacts.nb_digits_rev. reflexivity. Qed.

(** The decimal digits of a positive number are runes of their own, and a
    larger number has at least as many. *)
Lemma Sprintf_d_length n m :
  0 < n <= m ->
  length (utf8.range (Sprintf_d n)) = String.length (Sprintf_d n)
  /\ (String.length (Sprintf_d n) <= String.length (Sprintf_d m))%nat.
Proof.
  intros [Hn Hm]. destruct n as [|p|p]; try lia. destruct m as [|q|q]; try lia.
  rewrite !Sprintf_d_pos, length_range_string_of_uint, !length_string_of_uint.
  split; [reflexivity|]. rewrite !digits_pos.
  replace (N.pos q) with (N.pos p + (N.pos q - N.pos p))%N by lia.
  apply nb_digits_to_lu_mono.
Qed.

Section LineNumbers.
Import widget.
Variable th : theme.Theme.

Lemma gutter_glyphs_spec t r :
  0 <= r < rows t ->
  length (gutter_glyphs th t (r + 1)) = Z.to_nat (lineCountWidth t + 1)
  /\ (forall i d, utf8.range (Sprintf_d (r + 1)) !! i = Some d ->
        gutter_glyphs th t (r + 1) !! i = Some (d, TextGridStyleWhitespace th))
  /\ (forall i : nat,
        (length (utf8.range (Sprintf_d (r + 1))) <= i)%nat ->
        Z.of_nat i < lineCountWidth t ->
        gutter_glyphs th t (r + 1) !! i = Some (space, TextGridStyleWhitespace th))
  /\ gutter_glyphs th t (r + 1) !! Z.to_nat (lineCountWidth t)
     = Some (124, TextGridStyleWhitespace th).
Proof.
  intros Hr. unfold gutter_glyphs, lineCountWidth.
  destruct (Sprintf_d_length (r + 1) (rows t + 1) ltac:(lia)) as (Hlen & Hmono).
  set (digits := utf8.range (Sprintf_d (r + 1))) in *.
  set (lcw := String.length (Sprintf_d (rows t + 1))) in *.
  rewrite <- Hlen in Hmono. clearbody digits lcw.
  split; [|split; [|split]].
  - rewrite !length_app, length_map, length_replicate. cbn [length]. lia.
  - intros i d Hd. apply lookup_app_l_Some. rewrite list_lookup_fmap, Hd. reflexivity.
  - intros i Hi Hlt. rewrite lookup_app_r by (rewrite length_map; exact Hi).
    rewrite length_map. apply lookup_app_l_Some. apply lookup_replicate_2. lia.
  - rewrite lookup_app_r by (rewrite length_map; lia). rewrite length_map.
    rewrite lookup_app_r by (rewrite length_replicate; lia).
    rewrite length_replicate.
    replace (Z.to_nat (Z.of_nat lcw) - length digits
             - Z.to_nat (Z.of_nat lcw - Z.of_nat (length digits)))%nat with 0%nat by lia.
    reflexivity.
Qed.

Lemma row_glyphs_cell_lookup w t rowIndex row (c : nat) cell :
  cells (heap w) row !! c = Some cell ->
  Z.of_nat (length (if LineNumbers (text w)
                    then gutter_glyphs th t (rowIndex + 1) else [])) + Z.of_nat c < cols t ->
  row_glyphs th w t rowIndex row
  !! (length (if LineNumbers (text w) then gutter_glyphs th t (rowIndex + 1) else []) + c)%nat
  = Some (cell_glyph th (Whitespace (text w)) cell).
Proof.
  intros Hcell Hfit. unfold row_glyphs.
  set (g := if LineNumbers (text w) then gutter_glyphs th t (rowIndex + 1) else []) in *.
  clearbody g.
  rewrite lookup_app_r by lia.
  replace (length g + c - length g)%nat with c by lia.
  apply lookup_app_l_Some. rewrite lookup_take_lt by lia.
  rewrite list_lookup_fmap, Hcell. reflexivity.
Qed.

(** X16: with line numbers, when the gutter (the width of the line count
    and the separator) fits in the columns, a refresh pass returns and
    every painted row [r] of the buffer starts with the digits of [r + 1],
    left-justified and padded with blanks to the width of the line count,
    then a bar, all in the whitespace style; the cells of the row follow,
    shifted right by the gutter and clipped at the last column. *)
Theorem X16_Refresh_line_numbers w :
  render_ok (render w) -> LineNumbers (text w) = true ->
  lineCountWidth (render w) + 1 <= cols (render w) ->
  exists w', Refresh th w = Ok w'
    /\ heap w' = heap w /\ text w' = text w
    /\ forall (r : nat) row,
         Z.of_nat r < rows (render w) -> Content (text w) !! r = Some row ->
         (forall (i : nat) d,
            utf8.range (Sprintf_d (Z.of_nat r + 1)) !! i = Some d ->
            shown (objects (render w')) (r * Z.to_nat (cols (render w)) + i)
            = Some (look th (d, TextGridStyleWhitespace th)))
         /\ (forall i : nat,
               (length (utf8.range (Sprintf_d (Z.of_nat r + 1))) <= i)%nat ->
               Z.of_nat i < lineCountWidth (render w) ->
               shown (objects (render w')) (r * Z.to_nat (cols (render w)) + i)
               = Some (" "%string, theme.ButtonColor th, Transparent))
         /\ shown (objects (render w'))
                  (r * Z.to_nat (cols (render w)) + Z.to_nat (lineCountWidth (render w)))
            = Some ("|"%string, theme.ButtonColor th, Transparent)
         /\ (forall (c : nat) cell,
               cells (heap w) row !! c = Some cell ->
               lineCountWidth (render w) + 1 + Z.of_nat c < cols (render w) ->
               shown (objects (render w'))
                     (r * Z.to_nat (cols (render w))
                      + (Z.to_nat (lineCountWidth (render w) + 1) + c))
               = Some (look th (cell_glyph th (Whitespace (text w)) cell))).
Proof.
  intros Hok HLN Hfits.
  pose proof (lineCountWidth_nonneg (render w)) as Hlcw.
  assert (gutter_fits th w (render w)) as Hg.
  { intros r Hr. rewrite HLN.
    destruct (gutter_glyphs_spec (render w) r Hr) as (Hlen & _). rewrite Hlen. lia. }
  destruct (Refresh_fits th w Hok Hg)
    as (w' & t & _ & Hct & Hrt & HR & Hh & Ht & _ & _ & _ & _ & Hshown).
  exists w'. split; [exact HR|]. split; [exact Hh|]. split; [exact Ht|].
  intros r row Hr Hrow.
  set (w1 := set_render w t) in *.
  assert (gutter_fits th w1 t) as Hg1
    by (apply (gutter_fits_frame th w w1 (render w) t eq_refl Hct Hrt Hg)).
  assert (lineCountWidth t = lineCountWidth (render w)) as Hl
    by (apply lineCountWidth_frame; exact Hrt).
  assert (forall k g,
            row_glyphs th w1 t (0 + Z.of_nat r) row !! k = Some g ->
            shown (objects (render w')) (r * Z.to_nat (cols (render w)) + k)
            = Some (look th g)) as Hat.
  { intros k g Hk. apply Hshown. unfold grid_glyphs. apply lookup_app_l_Some.
    cbn [render w1 set_render text]. rewrite <- Hct.
    apply (rows_glyphs_lookup th w1 t _ 0 r row k g ltac:(lia) Hg1 Hrow ltac:(lia) Hk). }
  destruct (row_glyphs_length th w1 t (0 + Z.of_nat r) row (Hg1 (0 + Z.of_nat r) ltac:(lia)))
    as [_ Hpre].
  cbn [text w1 set_render] in Hpre. rewrite HLN in Hpre.
  destruct (gutter_glyphs_spec t (0 + Z.of_nat r) ltac:(lia)) as (Hglen & Hdig & Hpad & Hbar).
  rewrite Z.add_0_l in *. rewrite Hl in *.
  split; [|split; [|split]].
  - intros i d Hd. apply Hat, Hpre, Hdig, Hd.
  - intros i Hi Hlt.
    change (Some (" "%string, theme.ButtonColor th, Transparent))
      with (Some (look th (space, TextGridStyleWhitespace th))).
    apply Hat, Hpre, Hpad; assumption.
  - change (Some ("|"%string, theme.ButtonColor th, Transparent))
      with (Some (look th (124, TextGridStyleWhitespace th))).
    apply Hat, Hpre, Hbar.
  - intros c cell Hcell Hc. apply Hat.
    pose proof (row_glyphs_cell_lookup w1 t (Z.of_nat r) row c cell Hcell) as Hrc.
    cbn [text w1 set_render heap] in Hrc. rewrite HLN, Hglen in Hrc.
    apply Hrc. lia.
Qed.
End LineNumbers.

Lemma X16_Refresh_line_numbers_witness :
  exists w', widget.Refresh example.th0 example.grid_ten_laid_out = Ok w'
    /\ widget.heap w' = widget.heap example.grid_ten_laid_out
    /\ widget.text w' = widget.text example.grid_ten_laid_out
    /\ forall (r : nat) row,
         Z.of_nat r < widget.rows (widget.render example.grid_ten_laid_out) ->
         widget.Content (widget.text example.grid_ten_laid_out) !! r = Some row ->
         (forall (i : nat) d,
            utf8.range (Sprintf_d (Z.of_nat r + 1)) !! i = Some d ->
            widget.shown (widget.objects (widget.render w'))
              (r * Z.to_nat (widget.cols (widget.render example.grid_ten_laid_out)) + i)
            = Some (widget.look example.th0 (d, widget.TextGridStyleWhitespace example.th0)))
         /\ (forall i : nat,
               (length (utf8.range (Sprintf_d (Z.of_nat r + 1))) <= i)%nat ->
               Z.of_nat i < widget.lineCountWidth (widget.render example.grid_ten_laid_out) ->
               widget.shown (widget.objects (widget.render w'))
                 (r * Z.to_nat (widget.cols (widget.render example.grid_ten_laid_out)) + i)
               = Some (" "%string, theme.ButtonColor example.th0, widget.Transparent))
         /\ widget.shown (widget.objects (widget.render w'))
              (r * Z.to_nat (widget.cols (widget.render example.grid_ten_laid_out))
               + Z.to_nat (widget.lineCountWidth (widget.render example.grid_ten_laid_out)))
            = Some ("|"%string, theme.ButtonColor example.th0, widget.Transparent)
         /\ (forall (c : nat) cell,
               widget.cells (widget.heap example.grid_ten_laid_out) row !! c = Some cell ->
               widget.lineCountWidth (widget.render example.grid_ten_laid_out) + 1 + Z.of_nat c
               < widget.cols (widget.render example.grid_ten_laid_out) ->
               widget.shown (widget.objects (widget.render w'))
                 (r * Z.to_nat (widget.cols (widget.render example.grid_ten_laid_out))
                  + (Z.to_nat (widget.lineCountWidth (widget.render example.grid_ten_laid_out) + 1)
                     + c))
               = Some (widget.look example.th0
                         (widget.cell_glyph example.th0
                            (widget.Whitespace (widget.text example.grid_ten_laid_out)) cell))).
Proof.
  apply (X16_Refresh_line_numbers example.th0 example.grid_ten_laid_out).
  - apply grid_ten_laid_out_ok.
  - vm_compute. reflexivity.
  - vm_compute. intros H. discriminate H.
Defined.


Section NoPanic.
Import widget.
Variable th : theme.Theme.

End NoPanic.



Section ResizeProps.
Import fyne widget.
Variable th : theme.Theme.





End ResizeProps.



Section Reencode.
Import widget.

(** Re-encoding commutes with joining lines. *)
Lemma reencode_Join rows :
  Forall (fun p => ~ In 10 (utf8.bytes p)) rows ->
  strings.Join (map (fun p => utf8.of_bytes (concat (map utf8.encoderune (utf8.range p))))
                    rows)
  = utf8.of_bytes (concat (map utf8.encoderune (utf8.range (strings.Join rows)))).
Proof.
  induction rows as [|r rows IH]; intros Hnl; [reflexivity|].
  inversion Hnl as [|? ? Hr Hrows]; subst.
  destruct rows as [|r' rows]; [reflexivity|].
  specialize (IH Hrows). cbn [map] in IH |- *.
  change (strings.Join (?a :: ?b :: ?l))
    with (a ++ String strings.newline (strings.Join (b :: l)))%string at 1.
  rewrite IH.
  rewrite (range_all (strings.Join (r :: r' :: rows))), bytes_Join_cons.
  rewrite (range_bytes_app_nl _ _ _ eq_refl (bytes_nonneg _) (bytes_nonneg _) Hr).
  rewrite <- !range_all.
  rewrite map_app, concat_app, of_bytes_app. reflexivity.
Qed.

Lemma SetText_Text_reencoded extra th t w w' :
  SetText extra th t w = Ok w' ->
  Text w' = utf8.of_bytes (concat (map utf8.encoderune (utf8.range t))).
Proof.
  intros HS. pose proof (SetText_cells extra th t w w' HS) as Hcells.
  unfold Text. rewrite Text_rows_spec by lia. cbn [String.append].
  rewrite <- (map_map (cells (heap w')) (Text_row EmptyString)), Hcells, map_map.
  rewrite <- (Join_Split t) at 2.
  rewrite <- (reencode_Join (strings.Split t) (Split_no_newline t)).
  f_equal. apply map_ext. intros p.
  rewrite Text_row_spec, Rune_of_runes. reflexivity.
Qed.

(** X19: whatever bytes the string holds, [SetText] (on a renderer
    without line numbers) returns and the text the grid then reports is the
    string converted to runes and back: every rune met by ranging over the
    string, re-encoded in order, so that each byte that is not part of a
    well-formed sequence has become U+FFFD. *)
Theorem X19_Text_after_SetText extra th t w :
  render_ok (render w) -> LineNumbers (text w) = false ->
  exists w', SetText extra th t w = Ok w'
    /\ Text w' = utf8.of_bytes (concat (map utf8.encoderune (utf8.range t))).
Proof.
  intros Hok HLN. destruct (SetText_returns extra th t w Hok HLN) as (w' & HS).
  exists w'. split; [exact HS|]. apply (SetText_Text_reencoded extra th t w w' HS).
Qed.
End Reencode.

Lemma X19_Text_after_SetText_witness :
  exists w',
    widget.SetText example.doubling example.th0
      (String (ascii_of_nat 255) ("A" ++ example.nl ++ "B")) example.grid0 = Ok w'
    /\ widget.Text w'
       = utf8.of_bytes
           (concat (map utf8.encoderune
                        (utf8.range (String (ascii_of_nat 255) ("A" ++ example.nl ++ "B"))))).
Proof.
  apply (X19_Text_after_SetText example.doubling example.th0
           (String (ascii_of_nat 255) ("A" ++ example.nl ++ "B")) example.grid0).
  - exact grid0_render_ok.
  - reflexivity.
Defined.

(** Decoding what [encoderune] wrote gives the encoded rune back, with
    the width of the encoding. *)
Lemma step_encoderune r rest :
  exists b0 t,
    utf8.encoderune r = b0 :: t
    /\ Forall (fun b => 0 <= b < 256) (b0 :: t)
    /\ utf8.step (b0 :: t ++ rest) = (utf8.encoded r, S (length t))
    /\ (b0 < utf8.RuneSelf \/ (1 <= length t)%nat)
    /\ utf8.encoderune (utf8.encoded r) = b0 :: t.
Proof.
  unfold utf8.encoded, utf8.MaxRune, utf8.surrogateMin, utf8.surrogateMax,
    utf8.RuneSelf.
  destruct ((r <? 0) || (0x10FFFF <? r) || ((0xD800 <=? r) && (r <=? 0xDFFF))) eqn:Hbad.
  { exists 239, [191; 189].
    assert (utf8.encoderune r = [239; 191; 189]) as ->.
    { unfold utf8.encoderune, utf8.rune1Max, utf8.rune2Max, utf8.MaxRune,
        utf8.surrogateMin, utf8.surrogateMax.
      replace ((0 <=? r) && (r <=? 0x7F)) with false by lia.
      replace ((0 <=? r) && (r <=? 0x7FF)) with false by lia.
      rewrite Hbad. reflexivity. }
    split; [reflexivity|]. split; [repeat constructor; lia|].
    split; [reflexivity|]. split; [right; cbn; lia | reflexivity]. }
  assert (0 <= r <= 0x10FFFF /\ ~ (0xD800 <= r <= 0xDFFF)) as [Hr Hs] by lia.
  clear Hbad.
  destruct (Z.le_gt_cases r 0x7F) as [H1|H1].
  { exists r, []. rewrite encoderune_1 by lia.
    split; [reflexivity|]. split; [repeat constructor; lia|].
    split; [|split; [left; lia | reflexivity]].
    cbn [app utf8.step length]. unfold utf8.RuneSelf.
    replace (r <? 0x80) with true by lia. reflexivity. }
  destruct (Z.le_gt_cases r 0x7FF) as [H2|H2].
  { exists (0xC0 + r / 64), [0x80 + r mod 64].
    assert (utf8.encoderune r = [0xC0 + r / 64; 0x80 + r mod 64]) as ->.
    { unfold utf8.encoderune, utf8.rune1Max, utf8.rune2Max.
      replace ((0 <=? r) && (r <=? 0x7F)) with false by lia.
      replace ((0 <=? r) && (r <=? 0x7FF)) with true by lia.
      rewrite shiftr_6, land_3F.
      rewrite lor_C0, lor_80 by (Z.div_mod_to_equations; lia). reflexivity. }
    split; [reflexivity|].
    split; [repeat constructor; Z.div_mod_to_equations; lia|].
    split; [|split; [right; cbn; lia | reflexivity]].
    cbn [app length]. unfold utf8.step, utf8.decoderune, utf8.RuneSelf, utf8.cont,
      utf8.rune1Max.
    replace (0xC0 + r / 64 <? 0x80) with false by (Z.div_mod_to_equations; lia).
    replace ((0xC0 <=? 0xC0 + r / 64) && (0xC0 + r / 64 <? 0xE0)) with true
      by (Z.div_mod_to_equations; lia).
    replace ((0x80 <=? 0x80 + r mod 64) && (0x80 + r mod 64 <=? 0xBF)) with true
      by (Z.div_mod_to_equations; lia).
    rewrite rune2_arith.
    replace ((0xC0 + r / 64) mod 32 * 64 + (0x80 + r mod 64) mod 64) with r
      by (Z.div_mod_to_equations; lia).
    replace (0x7F <? r) with true by lia. reflexivity. }
  destruct (Z.le_gt_cases r 0xFFFF) as [H3|H3].
  { exists (0xE0 + r / 4096), [0x80 + (r / 64) mod 64; 0x80 + r mod 64].
    assert (utf8.encoderune r
            = [0xE0 + r / 4096; 0x80 + (r / 64) mod 64; 0x80 + r mod 64]) as ->.
    { unfold utf8.encoderune, utf8.rune1Max, utf8.rune2Max, utf8.rune3Max,
        utf8.MaxRune, utf8.surrogateMin, utf8.surrogateMax.
      replace ((0 <=? r) && (r <=? 0x7F)) with false by lia.
      replace ((0 <=? r) && (r <=? 0x7FF)) with false by lia.
      replace ((r <? 0) || (0x10FFFF <? r) || ((0xD800 <=? r) && (r <=? 0xDFFF)))
        with false by lia.
      replace (r <=? 0xFFFF) with true by lia.
      rewrite shiftr_12, shiftr_6, !land_3F.
      rewrite lor_E0, !lor_80 by (Z.div_mod_to_equations; lia). reflexivity. }
    split; [reflexivity|].
    split; [repeat constructor; Z.div_mod_to_equations; lia|].
    split; [|split; [right; cbn; lia | reflexivity]].
    cbn [app length]. unfold utf8.step, utf8.decoderune, utf8.RuneSelf, utf8.cont,
      utf8.rune2Max, utf8.surrogateMin, utf8.surrogateMax.
    replace (0xE0 + r / 4096 <? 0x80) with false by (Z.div_mod_to_equations; lia).
    replace ((0xC0 <=? 0xE0 + r / 4096) && (0xE0 + r / 4096 <? 0xE0)) with false
      by (Z.div_mod_to_equations; lia).
    replace ((0xE0 <=? 0xE0 + r / 4096) && (0xE0 + r / 4096 <? 0xF0)) with true
      by (Z.div_mod_to_equations; lia).
    replace ((0x80 <=? 0x80 + (r / 64) mod 64) && (0x80 + (r / 64) mod 64 <=? 0xBF))
      with true by (Z.div_mod_to_equations; lia).
    replace ((0x80 <=? 0x80 + r mod 64) && (0x80 + r mod 64 <=? 0xBF)) with true
      by (Z.div_mod_to_equations; lia).
    cbn [andb]. rewrite rune3_arith.
    replace ((0xE0 + r / 4096) mod 16 * 4096 + (0x80 + (r / 64) mod 64) mod 64 * 64
             + (0x80 + r mod 64) mod 64) with r
      by (Z.div_mod_to_equations; lia).
    replace ((0x7FF <? r) && negb ((0xD800 <=? r) && (r <=? 0xDFFF))) with true by lia.
    reflexivity. }
  exists (0xF0 + r / 262144),
    [0x80 + (r / 4096) mod 64; 0x80 + (r / 64) mod 64; 0x80 + r mod 64].
  assert (utf8.encoderune r
          = [0xF0 + r / 262144; 0x80 + (r / 4096) mod 64; 0x80 + (r / 64) mod 64;
             0x80 + r mod 64]) as ->.
  { unfold utf8.encoderune, utf8.rune1Max, utf8.rune2Max, utf8.rune3Max,
      utf8.MaxRune, utf8.surrogateMin, utf8.surrogateMax.
    replace ((0 <=? r) && (r <=? 0x7F)) with false by lia.
    replace ((0 <=? r) && (r <=? 0x7FF)) with false by lia.
    replace ((r <? 0) || (0x10FFFF <? r) || ((0xD800 <=? r) && (r <=? 0xDFFF)))
      with false by lia.
    replace (r <=? 0xFFFF) with false by lia.
    rewrite shiftr_18, shiftr_12, shiftr_6, !land_3F.
    rewrite lor_F0, !lor_80 by (Z.div_mod_to_equations; lia). reflexivity. }
  split; [reflexivity|].
  split; [repeat constructor; Z.div_mod_to_equations; lia|].
  split; [|split; [right; cbn; lia | reflexivity]].
  cbn [app length]. unfold utf8.step, utf8.decoderune, utf8.RuneSelf, utf8.cont,
    utf8.rune3Max, utf8.MaxRune.
  replace (0xF0 + r / 262144 <? 0x80) with false by (Z.div_mod_to_equations; lia).
  replace ((0xC0 <=? 0xF0 + r / 262144) && (0xF0 + r / 262144 <? 0xE0)) with false
    by (Z.div_mod_to_equations; lia).
  replace ((0xE0 <=? 0xF0 + r / 262144) && (0xF0 + r / 262144 <? 0xF0)) with false
    by (Z.div_mod_to_equations; lia).
  replace ((0xF0 <=? 0xF0 + r / 262144) && (0xF0 + r / 262144 <? 0xF8)) with true
    by (Z.div_mod_to_equations; lia).
  replace ((0x80 <=? 0x80 + (r / 4096) mod 64) && (0x80 + (r / 4096) mod 64 <=? 0xBF))
    with true by (Z.div_mod_to_equations; lia).
  replace ((0x80 <=? 0x80 + (r / 64) mod 64) && (0x80 + (r / 64) mod 64 <=? 0xBF))
    with true by (Z.div_mod_to_equations; lia).
  replace ((0x80 <=? 0x80 + r mod 64) && (0x80 + r mod 64 <=? 0xBF)) with true
    by (Z.div_mod_to_equations; lia).
  cbn [andb]. rewrite rune4_arith.
  replace ((0xF0 + r / 262144) mod 8 * 262144 + (0x80 + (r / 4096) mod 64) mod 64 * 4096
           + (0x80 + (r / 64) mod 64) mod 64 * 64 + (0x80 + r mod 64) mod 64) with r
    by (Z.div_mod_to_equations; lia).
  replace ((0xFFFF <? r) && (r <=? 0x10FFFF)) with true by lia.
  reflexivity.
Qed.

Lemma bytes_of_bytes l :
  Forall (fun b => 0 <= b < 256) l -> utf8.bytes (utf8.of_bytes l) = l.
Proof.
  induction 1 as [|b l Hb _ IH]; cbn [utf8.of_bytes utf8.bytes]; [reflexivity|].
  rewrite IH. f_equal. unfold utf8.byte_of_ascii, utf8.ascii_of_byte.
  rewrite N_ascii_embedding by lia. lia.
Qed.

(** A concatenation of encodings is well formed and decodes to the
    encoded runes. *)
Lemma concat_encoderune rs :
  Forall (fun b => 0 <= b < 256) (concat (map utf8.encoderune rs))
  /\ utf8.valid_bytes (length (concat (map utf8.encoderune rs)))
                      (concat (map utf8.encoderune rs)) = true
  /\ utf8.range_bytes (length (concat (map utf8.encoderune rs)))
                      (concat (map utf8.encoderune rs))
     = map utf8.encoded rs.
Proof.
  induction rs as [|r rs (IHb & IHv & IHr)]; cbn [map concat].
  - repeat split; constructor.
  - destruct (step_encoderune r (concat (map utf8.encoderune rs)))
      as (b0 & t & He & Hb & Hstep & Hw & _).
    rewrite He. cbn [app].
    assert (Forall (fun b => 0 <= b < 256) (b0 :: t ++ concat (map utf8.encoderune rs)))
      as Hall by (apply (Forall_app _ (b0 :: t) _); split; assumption).
    assert (Forall (fun b => 0 <= b) (b0 :: t ++ concat (map utf8.encoderune rs)))
      as Hnn by (eapply Forall_impl; [exact Hall|]; cbn; intros; lia).
    split; [exact Hall|].
    rewrite valid_bytes_cons, range_bytes_cons by exact Hnn.
    rewrite Hstep. cbn [fst snd skipn].
    change (skipn (length t) (t ++ concat (map utf8.encoderune rs)))
      with (drop (length t) (t ++ concat (map utf8.encoderune rs))).
    rewrite drop_app_length, IHv, IHr. split; [|reflexivity].
    rewrite andb_true_r. apply negb_true_iff.
    destruct Hw as [Hw|Hw].
    + replace (utf8.RuneSelf <=? b0) with false by (symmetry; apply Z.leb_gt; exact Hw).
      reflexivity.
    + replace (S (length t) =? 1)%nat with false
        by (symmetry; apply Nat.eqb_neq; lia).
      apply andb_false_r.
Qed.

Lemma encoderune_encoded r : utf8.encoderune (utf8.encoded r) = utf8.encoderune r.
Proof.
  destruct (step_encoderune r []) as (b0 & t & He & _ & _ & _ & He').
  congruence.
Qed.

Section TextValid.
Import widget.

Lemma Join_encoded rows :
  strings.Join (map (fun l => utf8.of_bytes (concat (map utf8.encoderune l))) rows)
  = utf8.of_bytes (concat (map utf8.encoderune (join_runes rows))).
Proof.
  induction rows as [|r rows IH]; [reflexivity|].
  destruct rows as [|r' rows]; [reflexivity|].
  cbn [map] in IH |- *.
  change (strings.Join (?a :: ?b :: ?l))
    with (a ++ String strings.newline (strings.Join (b :: l)))%string at 1.
  rewrite IH. cbn [join_runes].
  rewrite map_app, concat_app, of_bytes_app. reflexivity.
Qed.

Lemma Text_encoded w :
  Text w = utf8.of_bytes (concat (map utf8.encoderune (buffer_runes w))).
Proof.
  unfold Text, buffer_runes. rewrite Text_rows_spec by lia. cbn [String.append].
  rewrite <- Join_encoded, map_map. f_equal. apply map_ext. intros row.
  rewrite Text_row_spec. reflexivity.
Qed.

Lemma Text_range_valid w :
  utf8.ValidString (Text w) = true
  /\ utf8.range (Text w) = map utf8.encoded (buffer_runes w).
Proof.
  destruct (concat_encoderune (buffer_runes w)) as (Hb & Hv & Hr).
  rewrite ValidString_all, range_all, Text_encoded, (bytes_of_bytes _ Hb).
  split; [exact Hv | exact Hr].
Qed.

(** X20: the text a grid reports is always well-formed UTF-8, whatever
    runes its cells hold; ranging over it gives back the runes of the cells
    in reading order with a line feed between rows, each rune that is not
    a Unicode scalar value (negative, a surrogate, beyond U+10FFFF)
    replaced by U+FFFD. *)
Theorem X20_Text_is_valid_utf8 w :
  utf8.ValidString (Text w) = true
  /\ utf8.range (Text w) = map utf8.encoded (buffer_runes w).
Proof.
  destruct (Text_range_valid w) as (Hv & Hr). split; [exact Hv|].
  rewrite Hr. reflexivity.
Qed.

(** X21: setting the text a grid reports changes nothing a reader of the
    text can see: (without line numbers) [SetText (Text ())] returns and
    the grid reports the same text as before, also when cells held runes
    that are not valid or rows held line feeds. *)
Theorem X21_SetText_of_Text extra th w :
  render_ok (render w) -> LineNumbers (text w) = false ->
  exists w', SetText extra th (Text w) w = Ok w' /\ Text w' = Text w.
Proof.
  intros Hok HLN. destruct (SetText_returns extra th (Text w) w Hok HLN) as (w' & HS).
  exists w'. split; [exact HS|].
  rewrite (SetText_Text_reencoded extra th _ w w' HS).
  destruct (Text_range_valid w) as (_ & Hr). rewrite Hr, Text_encoded, map_map.
  do 2 f_equal. apply map_ext. intros r. apply encoderune_encoded.
Qed.
End TextValid.

Lemma X21_SetText_of_Text_witness :
  exists w',
    widget.SetText example.doubling example.th0 (widget.Text example.grid_AB_C)
      example.grid_AB_C = Ok w'
    /\ widget.Text w' = widget.Text example.grid_AB_C.
Proof.
  apply (X21_SetText_of_Text example.doubling example.th0 example.grid_AB_C).
  - exact grid_AB_C_ok.
  - reflexivity.
Defined.


Section StyleShown.
Import widget.
Variable extra : nat -> nat.
Variable th : theme.Theme.

(** X22: a style set on a cell is seen at the next refresh.  For a cell
    that exists and lies inside the grid (no line numbers), [SetStyle]
    followed by a refresh pass returns, and the primitive pair of the cell
    then shows the cell's rune with the new style: its text colour and
    background where the style has them, the theme's text colour and a
    transparent background where it has not (a space, when whitespace is
    shown, as the whitespace marker). *)
Theorem X22_SetStyle_then_Refresh (r c : nat) style w s :
  render_ok (render w) -> LineNumbers (text w) = false ->
  Content (text w) !! r = Some s ->
  wf_slice (heap w) s -> (c < len s)%nat ->
  Z.of_nat r < rows (render w) -> Z.of_nat c < cols (render w) ->
  exists w1 w2 cell,
    SetStyle extra (Z.of_nat r) (Z.of_nat c) style w = Ok w1
    /\ Refresh th w1 = Ok w2
    /\ cells (heap w) s !! c = Some cell
    /\ shown (objects (render w2)) (r * Z.to_nat (cols (render w)) + c)
       = Some (look th (cell_glyph th (Whitespace (text w))
                          {| Rune := Rune cell; Style := style |})).
Proof.
  intros Hok HLN Hs Hwf Hc Hr Hcc.
  destruct (SetStyle_cell extra (Z.of_nat r) (Z.of_nat c) style w s
              ltac:(lia) ltac:(lia) ltac:(rewrite Nat2Z.id; exact Hs) Hwf ltac:(lia))
    as (w1 & cell & HS & Hcell & Hcells & _ & _ & _ & Ht & Hrd).
  rewrite Nat2Z.id in Hcell, Hcells.
  destruct (Refresh_shows_plain th w1 ltac:(rewrite Hrd; exact Hok)
              ltac:(rewrite Ht; exact HLN))
    as (w2 & HR & _ & _ & _ & _ & _ & Hshown).
  exists w1, w2, cell. split; [exact HS|]. split; [exact HR|]. split; [exact Hcell|].
  rewrite Hrd in Hshown. rewrite (Hshown r c Hr Hcc).
  unfold plain_glyph. rewrite Ht, Hs, Hcells.
  rewrite list_lookup_insert_eq by (eapply lookup_lt_Some, Hcell). reflexivity.
Qed.
End StyleShown.

Lemma X22_SetStyle_then_Refresh_witness :
  exists w1 w2 cell,
    widget.SetStyle example.doubling (Z.of_nat 0) (Z.of_nat 1) example.red
      example.grid_AB_C_laid_out = Ok w1
    /\ widget.Refresh example.th0 w1 = Ok w2
    /\ widget.cells (widget.heap example.grid_AB_C_laid_out)
         {| widget.arr := 1; widget.off := 0; widget.len := 2; widget.cap := 3 |} !! 1%nat
       = Some cell
    /\ widget.shown (widget.objects (widget.render w2))
         (0 * Z.to_nat (widget.cols (widget.render example.grid_AB_C_laid_out)) + 1)
       = Some (widget.look example.th0
                 (widget.cell_glyph example.th0
                    (widget.Whitespace (widget.text example.grid_AB_C_laid_out))
                    {| widget.Rune := widget.Rune cell; widget.Style := example.red |})).
Proof.
  apply (X22_SetStyle_then_Refresh example.doubling example.th0 0 1 example.red
           example.grid_AB_C_laid_out
           {| widget.arr := 1; widget.off := 0; widget.len := 2; widget.cap := 3 |}).
  - exact grid_AB_C_laid_out_ok.
  - reflexivity.
  - reflexivity.
  - split; [cbn; lia|]. right. eexists. split; [reflexivity|]. cbn. lia.
  - cbn. lia.
  - reflexivity.
  - reflexivity.
Defined.
